(** * Dynamic data-flow analyzer of projection-boxes (src/utils/dataFlow.ts)

    The analyzer is the Python program that [runDataFlowAnalysis] hands to
    the embedded interpreter: a static pass ([LineVarCollector]) that
    classifies the names of every source line, and a line hook
    ([Analyzer.tracer]) that propagates dependency sets while the analyzed
    program runs.  This file embeds that program and proves its
    properties. *)

From Stdlib Require Import Ascii.
From stdpp Require Import gmap strings list sorting pretty fin_maps.

Local Open Scope string_scope.

(** ** Python values the analyzer handles *)

(** Exceptions of class [Exception] that a Python operation can raise. *)
Inductive exception :=
| AttributeError
| KeyError
| ValueError
| OtherError (cls : string).

Inductive py_result (A : Type) :=
| Ok (a : A)
| Raise (e : exception).
Arguments Ok {A} a.
Arguments Raise {A} e.

(** A [set] of names. Its elements are a [gset]; the order in which Python
    iterates over it depends on string hashing and is a choice of the host,
    see [Host]. *)
Abbreviation names := (gset string).

(** The object behind [frame.f_locals] and [frame.f_globals]: a dict with an
    identity (what [is] compares) and the names it binds (what [in] tests). *)
Record pydict := PyDict {
  dict_id : positive;
  dict_keys : names
}.

Definition py_is (a b : pydict) : bool := bool_decide (dict_id a = dict_id b).
Definition py_in (k : string) (d : pydict) : bool := bool_decide (k ∈ dict_keys d).

(** [frame.f_builtins], or the module global [__builtins__]: either a dict
    or the [builtins] module itself. *)
Inductive builtins_obj :=
| BuiltinsDict (d : names)
| BuiltinsModule (attrs : names).

Definition builtins_has (b : builtins_obj) (name : string) : bool :=
  match b with
  | BuiltinsDict d => bool_decide (name ∈ d)        (* name in builtins_dict *)
  | BuiltinsModule attrs => bool_decide (name ∈ attrs) (* hasattr(builtins_dict, name) *)
  end.

(** A frame as the interpreter shows it to a trace function at one event.
    Reading an attribute of this host object may raise. *)
Record frame := Frame {
  frame_id : positive;                (* id(frame) *)
  co_filename : string;               (* frame.f_code.co_filename *)
  f_lineno : nat;
  f_locals : py_result pydict;
  f_globals : py_result pydict;
  f_builtins : py_result builtins_obj
}.

(** [hasattr(obj, name)] is false exactly on [AttributeError]; any other
    exception of the attribute read propagates. *)
Definition hasattr {A} (a : py_result A) : py_result bool :=
  match a with
  | Ok _ => Ok true
  | Raise AttributeError => Ok false
  | Raise e => Raise e
  end.

(** What the host decides and the program text does not: the iteration
    order of sets, the module global [__builtins__] and [os.path]. *)
Record Host := {
  set_iter : names → list string;
  set_iter_perm : ∀ s, set_iter s ≡ₚ elements s;
  module_builtins : builtins_obj;
  os_path_abspath : string → string;
  os_path_dirname : string → string
}.

(** [sorted(s)] for a set of strings. *)
Definition sorted (H : Host) (s : names) : list string :=
  merge_sort String.le (set_iter H s).

(** A dict read with a default, [d.get(k, set())]. *)
Definition dict_get `{Countable K} {V} (d : gmap K V) (k : K) (dflt : V) : V :=
  default dflt (d !! k).

(** ** The analyzer object *)

Record Analyzer := {
  source_abspath : string;
  records : list string;
  line_exec_count : gmap nat nat;                      (* defaultdict(int) *)
  frame_deps : gmap positive (gmap string names);      (* defaultdict(lambda: defaultdict(set)) *)
  global_deps : gmap string names;                     (* defaultdict(set) *)
  vars_by_line : gmap nat names;
  assigned_by_line : gmap nat names;
  rhs_by_line : gmap nat names;
  used_by_line : gmap nat names
}.

Definition set_records (f : list string → list string) (a : Analyzer) : Analyzer :=
  {| source_abspath := source_abspath a; records := f (records a);
     line_exec_count := line_exec_count a; frame_deps := frame_deps a;
     global_deps := global_deps a; vars_by_line := vars_by_line a;
     assigned_by_line := assigned_by_line a; rhs_by_line := rhs_by_line a;
     used_by_line := used_by_line a |}.

Definition set_line_exec_count (f : gmap nat nat → gmap nat nat) (a : Analyzer) : Analyzer :=
  {| source_abspath := source_abspath a; records := records a;
     line_exec_count := f (line_exec_count a); frame_deps := frame_deps a;
     global_deps := global_deps a; vars_by_line := vars_by_line a;
     assigned_by_line := assigned_by_line a; rhs_by_line := rhs_by_line a;
     used_by_line := used_by_line a |}.

Definition set_frame_deps
    (f : gmap positive (gmap string names) → gmap positive (gmap string names))
    (a : Analyzer) : Analyzer :=
  {| source_abspath := source_abspath a; records := records a;
     line_exec_count := line_exec_count a; frame_deps := f (frame_deps a);
     global_deps := global_deps a; vars_by_line := vars_by_line a;
     assigned_by_line := assigned_by_line a; rhs_by_line := rhs_by_line a;
     used_by_line := used_by_line a |}.

Definition set_global_deps (f : gmap string names → gmap string names) (a : Analyzer) : Analyzer :=
  {| source_abspath := source_abspath a; records := records a;
     line_exec_count := line_exec_count a; frame_deps := frame_deps a;
     global_deps := f (global_deps a); vars_by_line := vars_by_line a;
     assigned_by_line := assigned_by_line a; rhs_by_line := rhs_by_line a;
     used_by_line := used_by_line a |}.

(** ** Methods run in a state-and-exception monad over [self]

    A raised exception keeps the mutations done before it, as in Python. *)

Definition M (A : Type) : Type := Analyzer → py_result A * Analyzer.

Definition ret {A} (a : A) : M A := λ self, (Ok a, self).
Definition raise {A} (e : exception) : M A := λ self, (Raise e, self).
Definition bind {A B} (m : M A) (k : A → M B) : M B :=
  λ self, match m self with
          | (Ok a, self') => k a self'
          | (Raise e, self') => (Raise e, self')
          end.
Definition get_self : M Analyzer := λ self, (Ok self, self).
Definition modify (f : Analyzer → Analyzer) : M unit := λ self, (Ok tt, f self).

(** Reading an attribute of a host object. *)
Definition getattr {A} (a : py_result A) : M A := λ self, (a, self).

(** [try: body except Exception: handler]. *)
Definition try_except {A} (body : M A) (handler : exception → M A) : M A :=
  λ self, match body self with
          | (Ok a, self') => (Ok a, self')
          | (Raise e, self') => handler e self'
          end.

Declare Scope py_scope.
Delimit Scope py_scope with py.
Notation "'let*' x ':=' m 'in' k" := (bind m (λ x, k))
  (at level 10, x name, m at level 100, k at level 200, only parsing) : py_scope.
Notation "m ';;' k" := (bind m (λ _, k))
  (at level 100, k at level 200, right associativity, only parsing) : py_scope.
Local Open Scope py_scope.

(** [for x in xs: body(x)] *)
Fixpoint for_ {A} (xs : list A) (body : A → M unit) : M unit :=
  match xs with
  | [] => ret tt
  | x :: xs' => body x ;; for_ xs' body
  end.

(** A loop that updates a local variable [acc]. *)
Fixpoint for_acc {A B} (xs : list A) (acc : B) (body : B → A → M B) : M B :=
  match xs with
  | [] => ret acc
  | x :: xs' => let* acc' := body acc x in for_acc xs' acc' body
  end.

(** [self.frame_deps[fid]]: reading a missing key of the [defaultdict]
    stores and returns a fresh empty inner dict. *)
Definition frame_deps_getitem (fid : positive) : M (gmap string names) :=
  λ self, match frame_deps self !! fid with
          | Some inner => (Ok inner, self)
          | None => (Ok ∅, set_frame_deps (insert fid ∅) self)
          end.

(** [self.frame_deps[fid][tgt] = v] *)
Definition frame_deps_setitem (fid : positive) (tgt : string) (v : names) : M unit :=
  let* inner := frame_deps_getitem fid in
  modify (set_frame_deps (insert fid (<[tgt := v]> inner))).

(** [self.global_deps[tgt] = v] *)
Definition global_deps_setitem (tgt : string) (v : names) : M unit :=
  modify (set_global_deps (insert tgt v)).

Section analyzer.
Context (H : Host).

(** Analyzer._is_builtin *)
Definition _is_builtin (name : string) (fr : frame) : bool :=
  match hasattr (f_builtins fr) with
  | Ok true =>
      match f_builtins fr with
      | Ok builtins_dict => builtins_has builtins_dict name
      | Raise _ => false
      end
  | Ok false => builtins_has (module_builtins H) name
  | Raise _ => false                                  (* except Exception: return False *)
  end.

(** Analyzer._get_current_deps_for *)
Definition _get_current_deps_for (fr : frame) (var : string) : M names :=
  let fid := frame_id fr in
  let* loc := getattr (f_locals fr) in
  let* glo := getattr (f_globals fr) in
  let is_module_level := py_is loc glo in
  let* loc := getattr (f_locals fr) in
  if py_in var loc then
    if is_module_level then
      let* self := get_self in
      ret (dict_get (global_deps self) var ∅)
    else
      let* inner := frame_deps_getitem fid in
      ret (dict_get inner var ∅)
  else
    let* glo := getattr (f_globals fr) in
    if py_in var glo then
      let* self := get_self in
      ret (dict_get (global_deps self) var ∅)
    else ret ∅.

(** Analyzer._set_deps_for_assignment; [targets] is the set [assigned] and
    [rhs_names] the list [list(rhs)] the tracer passes. *)
Definition _set_deps_for_assignment (fr : frame) (targets : names)
    (rhs_names : list string) : M unit :=
  let cleaned_rhs := List.filter (λ n, negb (_is_builtin n fr)) rhs_names in
  let* union_deps :=
    for_acc cleaned_rhs (∅ : names) (λ union_deps src,
      let* d := _get_current_deps_for fr src in
      ret (union_deps ∪ d ∪ {[src]})) in
  let fid := frame_id fr in
  let* loc := getattr (f_locals fr) in
  let* glo := getattr (f_globals fr) in
  let is_module_level := py_is loc glo in
  for_ (set_iter H targets) (λ tgt,
    if is_module_level then global_deps_setitem tgt union_deps
    else frame_deps_setitem fid tgt union_deps).

End analyzer.

(** ** The line hook *)

(** A trace function as a Python value: the analyzer's bound method
    [self.tracer], or a function the analyzer does not own. *)
Inductive trace_fn :=
| SelfTracer
| ForeignTracer (name : string).

(** [f"{line},{ecount},{v},{d}"] *)
Definition fmt_record (line ecount : nat) (v d : string) : string :=
  pretty line +:+ "," +:+ pretty ecount +:+ "," +:+ v +:+ "," +:+ d.

(** [d[k]] on a plain dict. *)
Definition dict_getitem {V} (d : gmap string V) (k : string) : M V :=
  match d !! k with
  | Some v => ret v
  | None => raise KeyError
  end.

(** [self.line_exec_count[line] += 1] *)
Definition line_exec_count_incr (line : nat) : M unit :=
  modify (set_line_exec_count (λ c, <[line := dict_get c line 0 + 1]> c)).

(** Truth value of a set. *)
Definition truthy (s : names) : bool := bool_decide (s ≠ ∅).

Section tracer.
Context (H : Host).

(** The names read on a line, step 1 of the hook. *)
Definition emit_vars_of (self : Analyzer) (line : nat) : names :=
  dict_get (used_by_line self) line ∅
  ∪ (dict_get (assigned_by_line self) line ∅ ∩ dict_get (rhs_by_line self) line ∅).

(** The body of [if event == "line":] in Analyzer.tracer. *)
Definition tracer_line (fr : frame) : M unit :=
  let line := f_lineno fr in
  let* self := get_self in
  let assigned := dict_get (assigned_by_line self) line ∅ in
  let rhs := dict_get (rhs_by_line self) line ∅ in
  let emit_vars := emit_vars_of self line in
  let* pre_deps :=
    for_acc (set_iter H emit_vars) (∅ : gmap string names) (λ pre_deps v,
      let* d := _get_current_deps_for fr v in
      ret (<[v := d]> pre_deps)) in
  (if truthy assigned
   then _set_deps_for_assignment H fr assigned (set_iter H rhs)
   else ret tt) ;;
  line_exec_count_incr line ;;
  let* self := get_self in
  let ecount := dict_get (line_exec_count self) line 0 in
  for_ (sorted H emit_vars) (λ v,
    let* ds := dict_getitem pre_deps v in
    for_ (sorted H ds) (λ d,
      modify (set_records (λ rs, (rs ++ [fmt_record line ecount v d])%list)))).

(** The [try] block of Analyzer.tracer. *)
Definition tracer_body (fr : frame) (event : string) : M trace_fn :=
  let* self := get_self in
  if bool_decide (co_filename fr ≠ source_abspath self) then ret SelfTracer
  else
    (if bool_decide (event = "line") then tracer_line fr else ret tt) ;;
    ret SelfTracer.

(** Analyzer.tracer(frame, event, arg); [arg] is not read. *)
Definition tracer (fr : frame) (event : string) : M trace_fn :=
  try_except (tracer_body fr event) (λ _, ret SelfTracer).

End tracer.

(** ** The static pass: LineVarCollector

    The tree is the fragment of Python's [ast] the visitor distinguishes;
    every node carries the [lineno] the parser gave it. *)

Inductive expr_context := Load | Store | Del.

Local Set Warnings "-register-all".

Inductive expr :=
| Name (lineno : nat) (id : string) (ctx : expr_context)
| Constant (lineno : nat)
| BinOp (lineno : nat) (left right : expr)
| Call (lineno : nat) (func : expr) (args : list expr)
| ListE (lineno : nat) (elts : list expr) (ctx : expr_context)
| TupleE (lineno : nat) (elts : list expr) (ctx : expr_context)
| Subscript (lineno : nat) (value slice : expr) (ctx : expr_context)
| Attribute (lineno : nat) (value : expr) (attr : string) (ctx : expr_context).

Inductive stmt :=
| Assign (lineno : nat) (targets : list expr) (value : expr)
| AnnAssign (lineno : nat) (target annotation : expr) (value : option expr)
| AugAssign (lineno : nat) (target value : expr)
| For (lineno : nat) (target iter : expr) (body orelse : list stmt)
| With (lineno : nat) (items : list (expr * option expr)) (body : list stmt)
| If (lineno : nat) (test : expr) (body orelse : list stmt)
| While (lineno : nat) (test : expr) (body orelse : list stmt)
| FunctionDef (lineno : nat) (name : string) (params : list string) (body : list stmt)
| Return (lineno : nat) (value : option expr)
| ExprStmt (lineno : nat) (value : expr)
| Pass (lineno : nat).

Module LineVarCollector.

Record t := {
  used_by_line : gmap nat names;
  assigned_by_line : gmap nat names;
  rhs_by_line : gmap nat names;
  all_vars_by_line : gmap nat names
}.

(** __init__ *)
Definition init : t :=
  {| used_by_line := ∅; assigned_by_line := ∅; rhs_by_line := ∅;
     all_vars_by_line := ∅ |}.

(** [d[line] |= s] on a [defaultdict(set)]: the entry exists afterwards,
    also when [s] is empty. *)
Definition ior (d : gmap nat names) (line : nat) (s : names) : gmap nat names :=
  <[line := dict_get d line ∅ ∪ s]> d.

Definition ior_used line s (c : t) : t :=
  {| used_by_line := ior (used_by_line c) line s;
     assigned_by_line := assigned_by_line c; rhs_by_line := rhs_by_line c;
     all_vars_by_line := all_vars_by_line c |}.
Definition ior_assigned line s (c : t) : t :=
  {| used_by_line := used_by_line c;
     assigned_by_line := ior (assigned_by_line c) line s;
     rhs_by_line := rhs_by_line c; all_vars_by_line := all_vars_by_line c |}.
Definition ior_rhs line s (c : t) : t :=
  {| used_by_line := used_by_line c; assigned_by_line := assigned_by_line c;
     rhs_by_line := ior (rhs_by_line c) line s;
     all_vars_by_line := all_vars_by_line c |}.

(** [_names_in(node, ctx_types)]: the ids of the [Name] nodes under [node]
    whose context is one of [ctx_types]. *)
Fixpoint _names_in (ctx_types : expr_context → bool) (node : expr) : names :=
  match node with
  | Name _ id ctx => if ctx_types ctx then {[id]} else ∅
  | Constant _ => ∅
  | BinOp _ l r => _names_in ctx_types l ∪ _names_in ctx_types r
  | Call _ f args => _names_in ctx_types f ∪ ⋃ (List.map (_names_in ctx_types) args)
  | ListE _ elts _ | TupleE _ elts _ => ⋃ (List.map (_names_in ctx_types) elts)
  | Subscript _ v s _ => _names_in ctx_types v ∪ _names_in ctx_types s
  | Attribute _ v _ _ => _names_in ctx_types v
  end.

Definition is_Store (c : expr_context) : bool :=
  match c with Store => true | _ => false end.
Definition is_Load (c : expr_context) : bool :=
  match c with Load => true | _ => false end.

Definition _targets_names (target : expr) : names := _names_in is_Store target.
Definition _value_names (value : expr) : names := _names_in is_Load value.

(** visit_Name *)
Definition visit_Name (line : nat) (id : string) (ctx : expr_context) (c : t) : t :=
  match ctx with
  | Load => ior_used line {[id]} c
  | Store => ior_assigned line {[id]} c
  | Del => c
  end.

(** [visit] on an expression: [visit_Name] on names, [generic_visit] on
    every other node. *)
Fixpoint visit_expr (node : expr) (c : t) : t :=
  match node with
  | Name line id ctx => visit_Name line id ctx c
  | Constant _ => c
  | BinOp _ l r => visit_expr r (visit_expr l c)
  | Call _ f args => fold_left (λ c a, visit_expr a c) args (visit_expr f c)
  | ListE _ elts _ | TupleE _ elts _ => fold_left (λ c a, visit_expr a c) elts c
  | Subscript _ v s _ => visit_expr s (visit_expr v c)
  | Attribute _ v _ _ => visit_expr v c
  end.

Definition visit_opt_expr (node : option expr) (c : t) : t :=
  match node with Some e => visit_expr e c | None => c end.

(** The part of each [visit_*] method before its [generic_visit]. *)
Definition visit_Assign_head line (targets : list expr) (value : expr) (c : t) : t :=
  let assigned := ⋃ (List.map _targets_names targets) in
  let c := if truthy assigned then ior_assigned line assigned c else c in
  ior_rhs line (_value_names value) c.

Definition visit_AnnAssign_head line (target : expr) (value : option expr) (c : t) : t :=
  match value with
  | Some v => ior_rhs line (_value_names v) (ior_assigned line (_targets_names target) c)
  | None => c
  end.

Definition visit_AugAssign_head line (target value : expr) (c : t) : t :=
  let tnames := _targets_names target in
  let c := ior_assigned line tnames c in
  let c := ior_rhs line (_value_names value) c in
  ior_rhs line (_names_in (λ _, true) target) c.

Definition visit_For_head line (target iter : expr) (c : t) : t :=
  ior_rhs line (_value_names iter) (ior_assigned line (_targets_names target) c).

Definition visit_With_head line (items : list (expr * option expr)) (c : t) : t :=
  fold_left (λ c item,
    let c := match item.2 with
             | Some optional_vars => ior_assigned line (_targets_names optional_vars) c
             | None => c
             end in
    ior_rhs line (_value_names item.1) c) items c.

(** [visit] on a statement. *)
Fixpoint visit_stmt (node : stmt) (c : t) : t :=
  let visit_body := fold_left (λ c s, visit_stmt s c) in
  match node with
  | Assign line targets value =>
      let c := visit_Assign_head line targets value c in
      visit_expr value (fold_left (λ c a, visit_expr a c) targets c)
  | AnnAssign line target annotation value =>
      let c := visit_AnnAssign_head line target value c in
      visit_opt_expr value (visit_expr annotation (visit_expr target c))
  | AugAssign line target value =>
      let c := visit_AugAssign_head line target value c in
      visit_expr value (visit_expr target c)
  | For line target iter body orelse =>
      let c := visit_For_head line target iter c in
      visit_body orelse (visit_body body (visit_expr iter (visit_expr target c)))
  | With line items body =>
      let c := visit_With_head line items c in
      visit_body body
        (fold_left (λ c item, visit_opt_expr item.2 (visit_expr item.1 c)) items c)
  | If _ test body orelse | While _ test body orelse =>
      visit_body orelse (visit_body body (visit_expr test c))
  | FunctionDef _ _ _ body => visit_body body c
  | Return _ value => visit_opt_expr value c
  | ExprStmt _ value => visit_expr value c
  | Pass _ => c
  end.

(** [visit] on the [Module] node. *)
Definition visit (tree : list stmt) (c : t) : t :=
  fold_left (λ c s, visit_stmt s c) tree c.

(** finalize *)
Definition finalize (c : t) : t :=
  {| used_by_line := used_by_line c; assigned_by_line := assigned_by_line c;
     rhs_by_line := rhs_by_line c;
     all_vars_by_line :=
       fold_left (λ all line,
           <[line := dict_get (used_by_line c) line ∅
                     ∪ dict_get (assigned_by_line c) line ∅]> all)
         (elements (dom (used_by_line c) ∪ dom (assigned_by_line c)))
         (all_vars_by_line c) |}.

End LineVarCollector.

(** Analyzer.__init__; [tree] is what [ast.parse] returns for the text of
    the file at [source_path]. *)
Definition __init__ (H : Host) (source_path : string) (tree : list stmt) : Analyzer :=
  let collector :=
    LineVarCollector.finalize (LineVarCollector.visit tree LineVarCollector.init) in
  {| source_abspath := os_path_abspath H source_path;
     records := [];
     line_exec_count := ∅;
     frame_deps := ∅;
     global_deps := ∅;
     vars_by_line := LineVarCollector.all_vars_by_line collector;
     assigned_by_line := LineVarCollector.assigned_by_line collector;
     rhs_by_line := LineVarCollector.rhs_by_line collector;
     used_by_line := LineVarCollector.used_by_line collector |}.

(** ** Running the analyzed program under the hook *)

(** The part of [sys] that [Analyzer.run] reads and writes. *)
Record sys_state := {
  sys_trace : option trace_fn;       (* sys.gettrace() *)
  sys_path : list string
}.

(** How a run of the analyzed program ends: it completes, or an exception
    of the named class (any [BaseException]) escapes it. *)
Inductive termination :=
| Completed
| Uncaught (cls : string).

(** What the interpreter does while [runpy.run_path] executes the analyzed
    program: the trace events it reaches, each with the frame as it is at
    that event, and how the program ends. *)
Record behaviour := {
  events : list (frame * string);
  outcome : termination
}.

Definition exception_cls (e : exception) : string :=
  match e with
  | AttributeError => "AttributeError"
  | KeyError => "KeyError"
  | ValueError => "ValueError"
  | OtherError cls => cls
  end.

Section run.
Context (H : Host).

(** The interpreter's tracing protocol ([sys.settrace]): a "call" event
    goes to the global trace function, whose result becomes the local
    trace function of that frame; every other event goes to the frame's
    local trace function, if it has one, and its result replaces it. A
    trace function that raises ends the program with that exception. A
    function the analyzer does not own does not touch [self]. *)
Fixpoint run_events (gtrace : option trace_fn) (ftrace : gmap positive trace_fn)
    (evs : list (frame * string)) (self : Analyzer) : py_result unit * Analyzer :=
  match evs with
  | [] => (Ok tt, self)
  | (fr, event) :: evs' =>
      let is_call := bool_decide (event = "call") in
      match (if is_call then gtrace else ftrace !! frame_id fr) with
      | Some SelfTracer =>
          match tracer H fr event self with
          | (Ok f, self') => run_events gtrace (<[frame_id fr := f]> ftrace) evs' self'
          | (Raise e, self') => (Raise e, self')
          end
      | Some (ForeignTracer _) => run_events gtrace ftrace evs' self
      | None =>
          run_events gtrace (if is_call then delete (frame_id fr) ftrace else ftrace)
            evs' self
      end
  end.

(** [runpy.run_path(self.source_abspath, run_name="__main__")]: the events
    of the program reach the trace function in force, and the program ends
    as [outcome] says. The program is given by what the hook can see of
    it; what the program itself may do to [sys] (a call of [sys.settrace],
    a change of [sys.path]) is not part of a [behaviour], and nothing
    below is stated about the state of [sys] after the program. *)
Definition run_path (prog : behaviour) (sys : sys_state) (self : Analyzer)
  : termination * Analyzer :=
  match run_events (sys_trace sys) ∅ (events prog) self with
  | (Ok _, self') => (outcome prog, self')
  | (Raise e, self') => (Uncaught (exception_cls e), self')
  end.

End run.

(** How a block of statements ends. *)
Inductive completion (A : Type) :=
| Normal
| Returns (a : A)
| Throw (cls : string).
Arguments Normal {A}.
Arguments Returns {A} a.
Arguments Throw {A} cls.

(** [try: body finally: fin]: [fin] always runs; if it ends in [return]
    (or raises), that replaces the way [body] ended. *)
Definition try_finally {S A} (body fin : S → completion A * S) : S → completion A * S :=
  λ s, let '(c, s1) := body s in
       let '(cf, s2) := fin s1 in
       match cf with
       | Normal => (c, s2)
       | _ => (cf, s2)
       end.

Definition settrace (f : option trace_fn) (sys : sys_state) : sys_state :=
  {| sys_trace := f; sys_path := sys_path sys |}.

(** Analyzer.run *)
Definition run (H : Host) (prog : behaviour) (s : sys_state * Analyzer)
  : completion (list string) * (sys_state * Analyzer) :=
  let prev_trace := sys_trace s.1 in
  try_finally
    (λ '(sys, self),
       let sys := settrace (Some SelfTracer) sys in
       let target_dir := os_path_dirname H (source_abspath self) in
       let sys :=
         if bool_decide (target_dir ≠ "") && bool_decide (target_dir ∉ sys_path sys)
         then {| sys_trace := sys_trace sys; sys_path := target_dir :: sys_path sys |}
         else sys in
       match run_path H prog sys self with
       | (Completed, self') => (Normal, (sys, self'))
       | (Uncaught cls, self') => (Throw cls, (sys, self'))
       end)
    (λ '(sys, self),
       let sys := settrace prev_trace sys in
       (Returns (records self), (sys, self)))
    s.

(** ** From record strings to [DataFlowRecord]s *)

Record DataFlowRecord := {
  line : nat;
  execution : nat;
  variable : string;
  dependency : string
}.

(** [s.split(",")] *)
Fixpoint split_comma (s : string) : list string :=
  match s with
  | EmptyString => [EmptyString]
  | String c s' =>
      if bool_decide (c = ","%char) then EmptyString :: split_comma s'
      else match split_comma s' with
           | p :: ps => String c p :: ps
           | [] => [String c EmptyString]
           end
  end.

Definition digit_value (c : ascii) : option nat :=
  let n := nat_of_ascii c in
  if bool_decide (48 ≤ n ≤ 57)%nat then Some (n - 48) else None.

Fixpoint digits_value (acc : nat) (s : string) : option nat :=
  match s with
  | EmptyString => Some acc
  | String c s' =>
      match digit_value c with
      | Some d => digits_value (10 * acc + d) s'
      | None => None
      end
  end.

(** [int(s)] on the strings [str] makes of a line number or a count: a
    non-empty run of ASCII digits. Signs, blanks and underscores, which
    [int] also reads, do not occur in those fields and are rejected here. *)
Definition int (s : string) : py_result nat :=
  match s with
  | EmptyString => Raise ValueError
  | _ => match digits_value 0 s with
         | Some n => Ok n
         | None => Raise ValueError
         end
  end.

(** The loop that fills [result_list]. *)
Fixpoint result_list (results : list string) : py_result (list DataFlowRecord) :=
  match results with
  | [] => Ok []
  | result :: results' =>
      match split_comma result with
      | [p0; p1; p2; p3] =>
          match int p0 with
          | Ok l =>
              match int p1 with
              | Ok e =>
                  match result_list results' with
                  | Ok rest =>
                      Ok ({| line := l; execution := e; variable := p2;
                             dependency := p3 |} :: rest)
                  | Raise err => Raise err
                  end
              | Raise err => Raise err
              end
          | Raise err => Raise err
          end
      | _ => result_list results'
      end
  end.

(** The value of the script that [runDataFlowAnalysis] runs, from the
    analyzer built on the temporary file [temp_file] on: build the
    analyzer, run it, convert; the value is [result_list]. The steps of the
    script that act on the host only are not part of it: writing the code
    to the temporary file, the [print] calls between the run and the
    conversion, and [os.unlink] after it. A failure of one of them would
    end the script there, so [Returns l] says which list the script gives
    when those steps succeed, and nothing below is stated about whether
    they do. *)
Definition analysis_script (H : Host) (temp_file : string) (tree : list stmt)
    (prog : behaviour) (sys : sys_state) : completion (list DataFlowRecord) :=
  let analyzer := __init__ H temp_file tree in
  match run H prog (sys, analyzer) with
  | (Returns results, _) =>
      match result_list results with
      | Ok l => Returns l
      | Raise e => Throw (exception_cls e)
      end
  | (Normal, _) => Throw "TypeError"       (* len(None) *)
  | (Throw cls, _) => Throw cls
  end.

(** ** What the methods compute, written as functions of the state

    The lemmas of the second half show that the monadic code above returns
    these values; the theorems are stated with them. *)

(** The two attribute reads every store access starts with: both succeed,
    or the first failure is raised. *)
Definition frame_scope (fr : frame) : py_result (pydict * pydict) :=
  match f_locals fr, f_globals fr with
  | Ok loc, Ok glo => Ok (loc, glo)
  | Ok _, Raise e => Raise e
  | Raise e, _ => Raise e
  end.

(** The value [_get_current_deps_for] returns. *)
Definition current_deps (self : Analyzer) (fid : positive) (loc glo : pydict)
    (var : string) : names :=
  if py_in var loc then
    if py_is loc glo then dict_get (global_deps self) var ∅
    else dict_get (dict_get (frame_deps self) fid ∅) var ∅
  else if py_in var glo then dict_get (global_deps self) var ∅
  else ∅.

(** The store entry an assignment in this invocation writes for [name]. *)
Definition scope_entry (self : Analyzer) (fid : positive) (loc glo : pydict)
    (name : string) : option names :=
  if py_is loc glo then global_deps self !! name
  else dict_get (frame_deps self) fid ∅ !! name.

(** [frame_deps] after [self.frame_deps[fid]] was read. *)
Definition ensure (fid : positive) (fd : gmap positive (gmap string names))
  : gmap positive (gmap string names) :=
  <[fid := dict_get fd fid ∅]> fd.

Definition touched (b : bool) (fid : positive) (self : Analyzer) : Analyzer :=
  if b then set_frame_deps (ensure fid) self else self.

(** Whether reading the names [vs] creates the inner dict of the frame. *)
Definition touching (loc glo : pydict) (vs : list string) : bool :=
  existsb (λ v, py_in v loc) vs && negb (py_is loc glo).

Definition touching_set (loc glo : pydict) (vs : names) : bool :=
  bool_decide (vs ∩ dict_keys loc ≠ ∅) && negb (py_is loc glo).

(** The sorted list of a set, whatever the order the host iterates in. *)
Definition sorted_names (s : names) : list string := merge_sort String.le (elements s).

(** [cleanRhs]: the rhs names that are not builtins. *)
Definition clean_rhs (H : Host) (fr : frame) (rhs : names) : names :=
  filter (λ n, _is_builtin H n fr = false) rhs.

(** [union]: every clean rhs name and its current dependency set. *)
Definition union_deps_of (self : Analyzer) (fid : positive) (loc glo : pydict)
    (clean : names) : names :=
  clean ∪ ⋃ (current_deps self fid loc glo <$> elements clean).

(** [self] after [_set_deps_for_assignment] stored [u] for [targets]. *)
Definition store_after_assignment (self : Analyzer) (fid : positive) (loc glo : pydict)
    (targets u : names) (touch : bool) : Analyzer :=
  if py_is loc glo then set_global_deps (λ g, gset_to_gmap u targets ∪ g) self
  else if truthy targets
       then set_frame_deps
              (λ fd, <[fid := gset_to_gmap u targets ∪ dict_get fd fid ∅]> fd) self
       else touched touch fid self.

(** The records one line event appends: for each emitted name in sorted
    order, one record per dependency it had when the event began. *)
Definition new_records (self : Analyzer) (fr : frame) (loc glo : pydict) : list string :=
  let line := f_lineno fr in
  let ecount := dict_get (line_exec_count self) line 0 + 1 in
  flat_map (λ v, fmt_record line ecount v
                   <$> sorted_names (current_deps self (frame_id fr) loc glo v))
    (sorted_names (emit_vars_of self line)).

Definition store_post (H : Host) (fr : frame) (loc glo : pydict) (self : Analyzer)
  : Analyzer :=
  let line := f_lineno fr in
  let fid := frame_id fr in
  let assigned := dict_get (assigned_by_line self) line ∅ in
  let rhs := dict_get (rhs_by_line self) line ∅ in
  let u := union_deps_of self fid loc glo (clean_rhs H fr rhs) in
  if truthy assigned then
    if py_is loc glo then set_global_deps (λ g, gset_to_gmap u assigned ∪ g) self
    else set_frame_deps (λ fd, <[fid := gset_to_gmap u assigned ∪ dict_get fd fid ∅]> fd) self
  else touched (touching_set loc glo (emit_vars_of self line)) fid self.

Definition count_only (line : nat) (self : Analyzer) : Analyzer :=
  set_line_exec_count (λ c, <[line := dict_get c line 0 + 1]> c) self.

(** [self] after a line event whose attribute reads succeed. *)
Definition tracer_line_post (H : Host) (fr : frame) (loc glo : pydict) (self : Analyzer)
  : Analyzer :=
  set_records (λ rs, rs ++ new_records self fr loc glo)%list
    (count_only (f_lineno fr) (store_post H fr loc glo self)).

(** [self] after any call of the hook. *)
Definition tracer_post (H : Host) (fr : frame) (event : string) (self : Analyzer)
  : Analyzer :=
  if bool_decide (co_filename fr ≠ source_abspath self) then self
  else if bool_decide (event = "line") then
    match frame_scope fr with
    | Ok (loc, glo) => tracer_line_post H fr loc glo self
    | Raise _ =>
        if bool_decide (emit_vars_of self (f_lineno fr) = ∅
                        ∧ dict_get (assigned_by_line self) (f_lineno fr) ∅ = ∅)
        then count_only (f_lineno fr) self
        else self
    end
  else self.

(** [self] after the interpreter has delivered a list of events. *)
Fixpoint events_post (H : Host) (gtrace : option trace_fn)
    (ftrace : gmap positive trace_fn) (evs : list (frame * string)) (self : Analyzer)
  : Analyzer :=
  match evs with
  | [] => self
  | (fr, event) :: evs' =>
      let is_call := bool_decide (event = "call") in
      match (if is_call then gtrace else ftrace !! frame_id fr) with
      | Some SelfTracer =>
          events_post H gtrace (<[frame_id fr := SelfTracer]> ftrace) evs'
            (tracer_post H fr event self)
      | Some (ForeignTracer _) => events_post H gtrace ftrace evs' self
      | None =>
          events_post H gtrace (if is_call then delete (frame_id fr) ftrace else ftrace)
            evs' self
      end
  end.

(** [sys] after Analyzer.run. *)
Definition run_sys (H : Host) (sys : sys_state) (self : Analyzer) : sys_state :=
  let target_dir := os_path_dirname H (source_abspath self) in
  {| sys_trace := sys_trace sys;
     sys_path := if bool_decide (target_dir ≠ "") && bool_decide (target_dir ∉ sys_path sys)
                 then target_dir :: sys_path sys else sys_path sys |}.

(** ** Two runs that show the same program behaviour

    Two independent runs differ in what the host picks: the iteration
    order of sets, the name of the temporary file, and the identities of
    frames ([id(frame)], related by an injective renaming [rho]). *)

Definition scope_sim (s1 s2 : py_result (pydict * pydict)) : Prop :=
  match s1, s2 with
  | Ok (l1, g1), Ok (l2, g2) =>
      dict_keys l1 = dict_keys l2 ∧ dict_keys g1 = dict_keys g2
      ∧ py_is l1 g1 = py_is l2 g2
  | Raise _, Raise _ => True
  | _, _ => False
  end.

Record frame_sim (H1 H2 : Host) (rho : positive → positive) (p1 p2 : string)
    (fr1 fr2 : frame) : Prop := {
  sim_file : co_filename fr1 = p1 ↔ co_filename fr2 = p2;
  sim_lineno : f_lineno fr1 = f_lineno fr2;
  sim_id : frame_id fr2 = rho (frame_id fr1);
  sim_scope : scope_sim (frame_scope fr1) (frame_scope fr2);
  sim_builtin : ∀ n, _is_builtin H1 n fr1 = _is_builtin H2 n fr2
}.

Record state_sim (rho : positive → positive) (s1 s2 : Analyzer) : Prop := {
  sim_records : records s1 = records s2;
  sim_count : line_exec_count s1 = line_exec_count s2;
  sim_global : global_deps s1 = global_deps s2;
  sim_frame_deps : ∀ fid, frame_deps s1 !! fid = frame_deps s2 !! rho fid;
  sim_assigned : assigned_by_line s1 = assigned_by_line s2;
  sim_rhs : rhs_by_line s1 = rhs_by_line s2;
  sim_used : used_by_line s1 = used_by_line s2
}.

Definition events_sim (H1 H2 : Host) (rho : positive → positive) (p1 p2 : string)
    (evs1 evs2 : list (frame * string)) : Prop :=
  Forall2 (λ e1 e2, e1.2 = e2.2 ∧ frame_sim H1 H2 rho p1 p2 e1.1 e2.1) evs1 evs2.

(** ** The resolution rule, the builtin rule and the rule for lines
    without names, as the specification words them *)

(** Spec 4.2: a nested read "first checks the invocation's local store,
    then falls back to the global store, else returns the empty set",
    read as a lookup chain over the dependency stores. *)
Definition resolve_by_store (self : Analyzer) (fid : positive) (is_module : bool)
    (name : string) : names :=
  if is_module then dict_get (global_deps self) name ∅
  else match dict_get (frame_deps self) fid ∅ !! name with
       | Some d => d
       | None => match global_deps self !! name with
                 | Some d => d
                 | None => ∅
                 end
       end.

(** Spec 4.2: a builtin "contributes neither as a dependency source nor as
    a trackable target". As a source: it is not in the set stored for a
    target. *)
Definition builtin_not_source (H : Host) (fr : frame) (loc glo : pydict)
    (targets : names) (rhs_names : list string) (self : Analyzer) : Prop :=
  ∀ self', _set_deps_for_assignment H fr targets rhs_names self = (Ok tt, self') →
    ∀ n, _is_builtin H n fr = true →
      ∀ tgt d, tgt ∈ targets →
        scope_entry self' (frame_id fr) loc glo tgt = Some d → n ∉ d.

(** As a target: the assignment creates or changes no entry for it. *)
Definition builtin_not_target (H : Host) (fr : frame) (loc glo : pydict)
    (targets : names) (rhs_names : list string) (self : Analyzer) : Prop :=
  ∀ self', _set_deps_for_assignment H fr targets rhs_names self = (Ok tt, self') →
    ∀ n, _is_builtin H n fr = true →
      scope_entry self' (frame_id fr) loc glo n
      = scope_entry self (frame_id fr) loc glo n.

(** Spec 4.4 step 1: on a line without classification the hook "does
    nothing". *)
Definition hook_does_nothing (H : Host) (fr : frame) (self : Analyzer) : Prop :=
  let self' := (tracer H fr "line" self).2 in
  records self' = records self
  ∧ frame_deps self' = frame_deps self
  ∧ global_deps self' = global_deps self
  ∧ line_exec_count self' = line_exec_count self.

(** ** Sample hosts, frames and programs *)

(** A host that iterates over a set in the order of [elements]. *)
Definition host0 : Host :=
  {| set_iter := elements;
     set_iter_perm := λ s, reflexivity (elements s);
     module_builtins := BuiltinsModule ∅;
     os_path_abspath := λ p, p;
     os_path_dirname := λ _, "/tmp" |}.

(** A host that iterates in the opposite order. *)
Definition host_rev : Host :=
  {| set_iter := λ s, reverse (elements s);
     set_iter_perm := λ s, reverse_Permutation (elements s);
     module_builtins := BuiltinsModule ∅;
     os_path_abspath := λ p, "/private" +:+ p;
     os_path_dirname := λ _, "/private/tmp" |}.

(** The names [runpy.run_path] binds before the program starts. *)
Definition run_globals : names :=
  {[ "__name__"; "__doc__"; "__package__"; "__loader__"; "__spec__";
     "__file__"; "__cached__"; "__builtins__" ]}.

(** Some of the names the [builtins] module binds. *)
Definition sample_builtins : builtins_obj :=
  BuiltinsDict {[ "print"; "len"; "range"; "list"; "dict"; "set"; "int"; "str";
                  "sum"; "max"; "min"; "abs"; "sorted"; "enumerate"; "zip";
                  "True"; "False"; "None" ]}.

(** The module frame of a program in file [p], about to run [line], with
    the program's names [bound] so far. Locals and globals are one dict. *)
Definition module_frame_at (fid did : positive) (p : string) (line : nat)
    (bound : names) : frame :=
  {| frame_id := fid; co_filename := p; f_lineno := line;
     f_locals := Ok (PyDict did (run_globals ∪ bound));
     f_globals := Ok (PyDict did (run_globals ∪ bound));
     f_builtins := Ok sample_builtins |}.

Definition module_frame : string → nat → names → frame := module_frame_at 1 2.

(** The same frame when the builtins dictionary holds the names
    [builtins]. *)
Definition module_frame_with (builtins : names) (p : string) (line : nat)
    (bound : names) : frame :=
  {| frame_id := 1; co_filename := p; f_lineno := line;
     f_locals := Ok (PyDict 2 (run_globals ∪ bound));
     f_globals := Ok (PyDict 2 (run_globals ∪ bound));
     f_builtins := Ok (BuiltinsDict builtins) |}.

(** The frame of a function call: its own locals, the module's globals. *)
Definition call_frame (fid : positive) (p : string) (line : nat)
    (locals globals : names) : frame :=
  {| frame_id := fid; co_filename := p; f_lineno := line;
     f_locals := Ok (PyDict 3 locals);
     f_globals := Ok (PyDict 2 (run_globals ∪ globals));
     f_builtins := Ok sample_builtins |}.

(** A frame whose [f_locals] cannot be read. *)
Definition broken_frame (p : string) (line : nat) : frame :=
  {| frame_id := 1; co_filename := p; f_lineno := line;
     f_locals := Raise (OtherError "RuntimeError");
     f_globals := Ok (PyDict 2 run_globals);
     f_builtins := Ok sample_builtins |}.

(** Scenario A:
<<
a = 1
b = a
c = b + a
>> *)
Definition treeA : list stmt :=
  [ Assign 1 [Name 1 "a" Store] (Constant 1);
    Assign 2 [Name 2 "b" Store] (Name 2 "a" Load);
    Assign 3 [Name 3 "c" Store] (BinOp 3 (Name 3 "b" Load) (Name 3 "a" Load)) ].

(** The events of Scenario A: the module code is entered, each line is
    reached once, the module code returns. *)
Definition eventsA (fid did : positive) (p : string) : list (frame * string) :=
  [ (module_frame_at fid did p 1 ∅, "call");
    (module_frame_at fid did p 1 ∅, "line");
    (module_frame_at fid did p 2 {["a"]}, "line");
    (module_frame_at fid did p 3 {["a"; "b"]}, "line");
    (module_frame_at fid did p 3 {["a"; "b"; "c"]}, "return") ].

Definition progA (p : string) : behaviour :=
  {| events := eventsA 1 2 p; outcome := Completed |}.

(** Scenario B:
<<
a = [1, 2]
for x in a:
    y = x
>> *)
Definition treeB : list stmt :=
  [ Assign 1 [Name 1 "a" Store] (ListE 1 [Constant 1; Constant 1] Load);
    For 2 (Name 2 "x" Store) (Name 2 "a" Load)
      [ Assign 3 [Name 3 "y" Store] (Name 3 "x" Load) ] [] ].

(** The events of Scenario B: the loop header is reached before each of the
    two iterations and once more when the list is exhausted. *)
Definition eventsB (fid did : positive) (p : string) : list (frame * string) :=
  [ (module_frame_at fid did p 1 ∅, "call");
    (module_frame_at fid did p 1 ∅, "line");
    (module_frame_at fid did p 2 {["a"]}, "line");
    (module_frame_at fid did p 3 {["a"; "x"]}, "line");
    (module_frame_at fid did p 2 {["a"; "x"; "y"]}, "line");
    (module_frame_at fid did p 3 {["a"; "x"; "y"]}, "line");
    (module_frame_at fid did p 2 {["a"; "x"; "y"]}, "line");
    (module_frame_at fid did p 2 {["a"; "x"; "y"]}, "return") ].

Definition progB (p : string) : behaviour :=
  {| events := eventsB 1 2 p; outcome := Completed |}.

Definition sys0 : sys_state := {| sys_trace := None; sys_path := [] |}.

(** An analyzer in the middle of a run: only the stores are filled. *)
Definition analyzer_with (p : string) (tree : list stmt)
    (fd : gmap positive (gmap string names)) (gd : gmap string names) : Analyzer :=
  set_global_deps (λ _, gd) (set_frame_deps (λ _, fd) (__init__ host0 p tree)).

(** The line [s = s + x], reached when [s] depends on [a]. *)
Definition treeS : list stmt :=
  [ Assign 3 [Name 3 "s" Store] (BinOp 3 (Name 3 "s" Load) (Name 3 "x" Load)) ].

Definition analyzerS : Analyzer :=
  analyzer_with "/tmp/s.py" treeS ∅ {["s" := {["a"]}; "x" := ∅]}.

(** The events of the frames that run code of file [p]. *)
Definition own_events (p : string) (evs : list (frame * string)) : list (frame * string) :=
  List.filter (λ e, bool_decide (co_filename e.1 = p)) evs.

(** Every event of a frame other than "call" comes after a "call" event of
    that frame; [called] are the frames entered so far. *)
Fixpoint well_traced (called : gset positive) (evs : list (frame * string)) : Prop :=
  match evs with
  | [] => True
  | (fr, event) :: evs' =>
      if bool_decide (event = "call") then well_traced ({[frame_id fr]} ∪ called) evs'
      else frame_id fr ∈ called ∧ well_traced called evs'
  end.

(** An injective renaming of frame identities that sends [fid] to 1. *)
Definition rename_to_one (fid : positive) : positive → positive :=
  λ x, if decide (x = fid) then 1%positive else Pos.succ x.

(** A frame of [runpy] itself, which runs while the hook is installed. *)
Definition runpy_frame (line : nat) : frame :=
  {| frame_id := 9; co_filename := "/lib/python3.12/runpy.py"; f_lineno := line;
     f_locals := Ok (PyDict 4 {["code"; "run_globals"; "mod_name"]});
     f_globals := Ok (PyDict 6 {["__name__"; "__builtins__"; "sys"; "os"]});
     f_builtins := Ok sample_builtins |}.

(** A run of Scenario A as the hook sees it, with the events of [runpy]'s
    own frames around those of the program. *)
Definition progA_full (p : string) : behaviour :=
  {| events := [ (runpy_frame 88, "call"); (runpy_frame 98, "line") ]
               ++ eventsA 1 2 p
               ++ [ (runpy_frame 98, "return") ];
     outcome := Completed |}.

Definition progB_full (p : string) : behaviour :=
  {| events := [ (runpy_frame 88, "call"); (runpy_frame 98, "line") ]
               ++ eventsB 1 2 p
               ++ [ (runpy_frame 98, "return") ];
     outcome := Completed |}.

(** Two calls, [f(1)] then [g(2)], of
<<
def f(a):
    t = a
def g(t):
    return t
f(1)
g(2)
>>
    as the hook sees them when the frame of [g] gets the identity [gid]. *)
Definition treeFG : list stmt :=
  [ FunctionDef 1 "f" ["a"] [ Assign 2 [Name 2 "t" Store] (Name 2 "a" Load) ];
    FunctionDef 3 "g" ["t"] [ Return 4 (Some (Name 4 "t" Load)) ];
    ExprStmt 5 (Call 5 (Name 5 "f" Load) [Constant 5]);
    ExprStmt 6 (Call 6 (Name 6 "g" Load) [Constant 6]) ].

Definition eventsFG (gid : positive) (p : string) : list (frame * string) :=
  [ (module_frame p 1 ∅, "call");
    (module_frame p 1 ∅, "line");
    (module_frame p 3 {["f"]}, "line");
    (module_frame p 5 {["f"; "g"]}, "line");
    (call_frame 7 p 1 {["a"]} {["f"; "g"]}, "call");
    (call_frame 7 p 2 {["a"]} {["f"; "g"]}, "line");
    (call_frame 7 p 2 {["a"; "t"]} {["f"; "g"]}, "return");
    (module_frame p 6 {["f"; "g"]}, "line");
    (call_frame gid p 3 {["t"]} {["f"; "g"]}, "call");
    (call_frame gid p 4 {["t"]} {["f"; "g"]}, "line");
    (call_frame gid p 4 {["t"]} {["f"; "g"]}, "return");
    (module_frame p 6 {["f"; "g"]}, "return") ].

(** The program
<<
foo = 1
y = foo
__builtins__["foo"] = 2
z = y + foo
>>
    which adds its variable [foo] to the builtins after [y] was computed
    from it: [frame.f_builtins] is that dictionary, so from line 4 on
    [_is_builtin] answers [True] for [foo]. *)
Definition treeBF : list stmt :=
  [ Assign 1 [Name 1 "foo" Store] (Constant 1);
    Assign 2 [Name 2 "y" Store] (Name 2 "foo" Load);
    Assign 3 [Subscript 3 (Name 3 "__builtins__" Load) (Constant 3) Store] (Constant 3);
    Assign 4 [Name 4 "z" Store] (BinOp 4 (Name 4 "y" Load) (Name 4 "foo" Load)) ].

Definition eventsBF (p : string) : list (frame * string) :=
  [ (module_frame_with {["print"; "len"; "max"]} p 1 ∅, "call");
    (module_frame_with {["print"; "len"; "max"]} p 1 ∅, "line");
    (module_frame_with {["print"; "len"; "max"]} p 2 {["foo"]}, "line");
    (module_frame_with {["print"; "len"; "max"]} p 3 {["foo"; "y"]}, "line");
    (module_frame_with {["print"; "len"; "max"; "foo"]} p 4 {["foo"; "y"]}, "line");
    (module_frame_with {["print"; "len"; "max"; "foo"]} p 4 {["foo"; "y"; "z"]}, "return") ].



(** * More of the program: the classifier, the run, the script, the views *)

(** ** The nodes of a tree *)

(** [ast.walk(node)]: the node and all its descendants (in some order). *)
Fixpoint walk (node : expr) : list expr :=
  node :: match node with
          | Name _ _ _ | Constant _ => []
          | BinOp _ l r => walk l ++ walk r
          | Call _ f args => walk f ++ flat_map walk args
          | ListE _ elts _ | TupleE _ elts _ => flat_map walk elts
          | Subscript _ v s _ => walk v ++ walk s
          | Attribute _ v _ _ => walk v
          end.

(** The expressions of a statement and of the statements nested in it. *)
Fixpoint stmt_exprs (s : stmt) : list expr :=
  match s with
  | Assign _ targets value => targets ++ [value]
  | AnnAssign _ target annotation value => target :: annotation :: option_list value
  | AugAssign _ target value => [target; value]
  | For _ target iter body orelse =>
      target :: iter :: flat_map stmt_exprs body ++ flat_map stmt_exprs orelse
  | With _ items body =>
      flat_map (λ item, item.1 :: option_list item.2) items ++ flat_map stmt_exprs body
  | If _ test body orelse | While _ test body orelse =>
      test :: flat_map stmt_exprs body ++ flat_map stmt_exprs orelse
  | FunctionDef _ _ _ body => flat_map stmt_exprs body
  | Return _ value => option_list value
  | ExprStmt _ value => [value]
  | Pass _ => []
  end.

(** A statement and the statements nested in it. *)
Fixpoint sub_stmts (s : stmt) : list stmt :=
  s :: match s with
       | For _ _ _ body orelse | If _ _ body orelse | While _ _ body orelse =>
           flat_map sub_stmts body ++ flat_map sub_stmts orelse
       | With _ _ body | FunctionDef _ _ _ body => flat_map sub_stmts body
       | _ => []
       end.

(** Every expression node of a program. *)
Definition tree_nodes (tree : list stmt) : list expr :=
  flat_map walk (flat_map stmt_exprs tree).

(** [node.lineno] of a statement. *)
Definition stmt_lineno (s : stmt) : nat :=
  match s with
  | Assign l _ _ | AnnAssign l _ _ _ | AugAssign l _ _ | For l _ _ _ _ | With l _ _
  | If l _ _ _ | While l _ _ _ | FunctionDef l _ _ _ | Return l _ | ExprStmt l _
  | Pass l => l
  end.

(** The names a binding statement binds, and the names its value reads: what
    [visit_Assign], [visit_AnnAssign], [visit_AugAssign], [visit_For] and
    [visit_With] put in [assigned_by_line] and [rhs_by_line] at the line of
    the statement. *)
Definition binds (s : stmt) : names :=
  match s with
  | Assign _ targets _ => ⋃ (LineVarCollector._targets_names <$> targets)
  | AnnAssign _ target _ (Some _) => LineVarCollector._targets_names target
  | AugAssign _ target _ => LineVarCollector._targets_names target
  | For _ target _ _ _ => LineVarCollector._targets_names target
  | With _ items _ =>
      ⋃ ((λ item, from_option LineVarCollector._targets_names ∅ item.2) <$> items)
  | _ => ∅
  end.

Definition reads (s : stmt) : names :=
  match s with
  | Assign _ _ value => LineVarCollector._value_names value
  | AnnAssign _ _ _ (Some value) => LineVarCollector._value_names value
  | AugAssign _ target value =>
      LineVarCollector._value_names value ∪ LineVarCollector._names_in (λ _, true) target
  | For _ _ iter _ _ => LineVarCollector._value_names iter
  | With _ items _ => ⋃ ((λ item, LineVarCollector._value_names item.1) <$> items)
  | _ => ∅
  end.

(** A step of the visitor that only adds names: [QU], [QA] and [QR] say
    which names it adds to which line of [used_by_line],
    [assigned_by_line] and [rhs_by_line]. *)
Definition adds (f : LineVarCollector.t → LineVarCollector.t)
    (QU QA QR : nat → string → Prop) : Prop :=
  ∀ c,
    (∀ l x, x ∈ dict_get (LineVarCollector.used_by_line (f c)) l ∅
            ↔ x ∈ dict_get (LineVarCollector.used_by_line c) l ∅ ∨ QU l x)
    ∧ (∀ l x, x ∈ dict_get (LineVarCollector.assigned_by_line (f c)) l ∅
              ↔ x ∈ dict_get (LineVarCollector.assigned_by_line c) l ∅ ∨ QA l x)
    ∧ (∀ l x, x ∈ dict_get (LineVarCollector.rhs_by_line (f c)) l ∅
              ↔ x ∈ dict_get (LineVarCollector.rhs_by_line c) l ∅ ∨ QR l x)
    ∧ LineVarCollector.all_vars_by_line (f c) = LineVarCollector.all_vars_by_line c.

(** What [visit] adds for a statement: the names of its expression nodes,
    and what the binding statements in it bind and read. *)
Definition stmt_adds (s : stmt) : Prop :=
  adds (LineVarCollector.visit_stmt s)
    (λ l x, Name l x Load ∈ flat_map walk (stmt_exprs s))
    (λ l x, Name l x Store ∈ flat_map walk (stmt_exprs s)
            ∨ ∃ s', s' ∈ sub_stmts s ∧ stmt_lineno s' = l ∧ x ∈ binds s')
    (λ l x, ∃ s', s' ∈ sub_stmts s ∧ stmt_lineno s' = l ∧ x ∈ reads s').

(** ** Invariants of a run *)

(** Every dependency name held in the global store or in a store of an
    invocation satisfies [G]. *)
Definition stores_within (G : string → Prop) (self : Analyzer) : Prop :=
  (∀ k s d, global_deps self !! k = Some s → d ∈ s → G d)
  ∧ (∀ fid inner k s d,
       frame_deps self !! fid = Some inner → inner !! k = Some s → d ∈ s → G d).

(** A record string is [f"{line},{ecount},{v},{d}"] for a line [l], an
    execution index between 1 and the counter of the line, a name the hook
    emits on that line and a dependency that satisfies [G]. *)
Definition record_ok (G : string → Prop) (self : Analyzer) (r : string) : Prop :=
  ∃ l k v d, r = fmt_record l k v d
             ∧ (1 ≤ k ≤ dict_get (line_exec_count self) l 0)%nat
             ∧ v ∈ emit_vars_of self l ∧ G d.

(** The classification tables and the path, which the hook only reads. *)
Definition same_tables (a b : Analyzer) : Prop :=
  source_abspath a = source_abspath b
  ∧ vars_by_line a = vars_by_line b
  ∧ assigned_by_line a = assigned_by_line b
  ∧ rhs_by_line a = rhs_by_line b
  ∧ used_by_line a = used_by_line b.

(** A name that a binding statement of the program reads and that is not a
    builtin in the frame of some line event of the analyzed file. *)
Definition clean_rhs_name (H : Host) (self : Analyzer) (evs : list (frame * string))
    (d : string) : Prop :=
  ∃ fr, (fr, "line") ∈ evs ∧ co_filename fr = source_abspath self
        ∧ d ∈ dict_get (rhs_by_line self) (f_lineno fr) ∅
        ∧ _is_builtin H d fr = false.

(** The number of line events of file [p] at line [l]. *)
Definition reached (p : string) (l : nat) (evs : list (frame * string)) : nat :=
  length (List.filter (λ e, bool_decide (co_filename e.1 = p ∧ e.2 = "line"
                                         ∧ f_lineno e.1 = l)) evs).

(** What the run only adds to. *)
Definition grows (a b : Analyzer) : Prop :=
  (∃ new, records b = (records a ++ new)%list)
  ∧ (∀ l, (dict_get (line_exec_count a) l 0 ≤ dict_get (line_exec_count b) l 0)%nat)
  ∧ dom (global_deps a) ⊆ dom (global_deps b)
  ∧ (∀ fid inner, frame_deps a !! fid = Some inner →
       ∃ inner', frame_deps b !! fid = Some inner' ∧ dom inner ⊆ dom inner').

(** The invariant of a run that starts in [self0]. *)
Definition run_inv (G : string → Prop) (self0 self : Analyzer) : Prop :=
  same_tables self0 self ∧ stores_within G self
  ∧ Forall (record_ok G self) (records self).

(** The statements of [Analyzer.run] that come before [runpy.run_path]: the
    hook is installed, and the directory of the analyzed file is put in
    front of [sys.path] unless it is the empty string or already there. *)
Definition run_setup (H : Host) (self : Analyzer) (sys : sys_state) : sys_state :=
  let sys := settrace (Some SelfTracer) sys in
  let target_dir := os_path_dirname H (source_abspath self) in
  if bool_decide (target_dir ≠ "") && bool_decide (target_dir ∉ sys_path sys)
  then {| sys_trace := sys_trace sys; sys_path := target_dir :: sys_path sys |}
  else sys.

(** ** Record strings *)

(** A string without a comma, as every Python identifier is. *)
Fixpoint comma_free (s : string) : bool :=
  match s with
  | EmptyString => true
  | String c s' => negb (bool_decide (c = ","%char)) && comma_free s'
  end.

(** The record string of a [DataFlowRecord]. *)
Definition record_string (r : DataFlowRecord) : string :=
  fmt_record (line r) (execution r) (variable r) (dependency r).

(** * The views over the results

    [src/types.ts], [src/constants.ts], [computeChangedVars] of
    [src/utils/python.ts], the grouping of [run] in [src/App.tsx] and the
    [ProjectionBox] component. A [Record<string, string>] is a finite map,
    a [Set<string>] a finite set. *)

Module TraceRow.
Record t := { line : nat; vars : gmap string string }.
End TraceRow.

Module Box.
Record t := { line : nat; rows : list TraceRow.t }.
End Box.

Definition VARIABLE_SHAPES : list string :=
  ["●"; "■"; "▲"; "◆"; "★"; "♦"; "♠"; "♣"; "◉"; "◐"; "◑"; "◒"; "◓"; "◔"; "◕"; "◖"; "◗";
   "◘"; "◙"; "◚"; "◛"; "◜"; "◝"; "◞"; "◟"; "◠"; "◡"; "◢"; "◣"; "◤"; "◥"; "◦"; "◧"; "◨"; "◩"].

(** [computeChangedVars]: the state of the loop is [changed] and [prev]
    ([None] is [null]); [k in prev] on a record of strings is the test that
    [prev] has the key, since no inherited property of an object is a
    string. *)
Definition computeChangedVars_step (st : gset string * option (gmap string string))
    (r : TraceRow.t) : gset string * option (gmap string string) :=
  match st.2 with
  | None => (st.1, Some (TraceRow.vars r))
  | Some prev =>
      (st.1 ∪ filter (λ k, prev !! k = None ∨ prev !! k ≠ TraceRow.vars r !! k)
                (dom (TraceRow.vars r)),
       Some (TraceRow.vars r))
  end.

Definition computeChangedVars (rows : list TraceRow.t) : gset string :=
  (fold_left computeChangedVars_step rows (∅, None)).1.

(** The grouping of [run]: [grouped] is a [Map] from a line to its rows,
    in the order the lines were first seen. *)
Fixpoint grouped_push (grouped : list (nat * list TraceRow.t)) (r : TraceRow.t)
  : list (nat * list TraceRow.t) :=
  match grouped with
  | [] => [(TraceRow.line r, [r])]
  | (l, rs) :: grouped' =>
      if bool_decide (l = TraceRow.line r) then (l, rs ++ [r])%list :: grouped'
      else (l, rs) :: grouped_push grouped' r
  end.

(** The order of the comparator [(a, b) => a[0] - b[0]]. *)
Definition entry_le (a b : nat * list TraceRow.t) : Prop := (a.1 ≤ b.1)%nat.

Global Instance entry_le_dec a b : Decision (entry_le a b).
Proof. unfold entry_le. apply _. Defined.

(** [Array.from(grouped.entries()).sort((a, b) => a[0] - b[0]).map(...)] *)
Definition boxes_of (rows : list TraceRow.t) : list Box.t :=
  (λ e, {| Box.line := e.1; Box.rows := e.2 |})
    <$> merge_sort entry_le (fold_left grouped_push rows []).

(** [indexOf]: the first index that holds [x], or -1. *)
Fixpoint indexOf_from (i : Z) (l : list string) (x : string) : Z :=
  match l with
  | [] => -1
  | y :: l' => if bool_decide (y = x) then i else indexOf_from (i + 1) l' x
  end.

Definition indexOf : list string → string → Z := indexOf_from 0.

Section ProjectionBox.

(** [Array.prototype.sort] on an array of strings. *)
Context (js_sort : list string → list string).

Context (box : Box.t) (rowMode : bool) (dataFlowResults : option (list DataFlowRecord)).

(** The keys of the rows of the box, sorted. *)
Definition allVars : list string :=
  js_sort (elements (⋃ ((λ r, dom (TraceRow.vars r)) <$> Box.rows box) : gset string)).

(** The dependencies recorded for [varName] at one execution of the line;
    [None] is a missing [dataFlowResults]. *)
Definition getDependencies (varName : string) (execution_ : nat) : gset string :=
  match dataFlowResults with
  | None => ∅
  | Some results =>
      list_to_set
        (dependency
           <$> List.filter (λ r, bool_decide (line r = Box.line box)
                                 && bool_decide (execution r = execution_)
                                 && bool_decide (variable r = varName)) results)
  end.

(** The dependencies of every record of the line of the box. *)
Definition depVarsForThisLine : gset string :=
  match dataFlowResults with
  | None => ∅
  | Some results =>
      list_to_set
        (dependency <$> List.filter (λ r, bool_decide (line r = Box.line box)) results)
  end.

(** The variables of the box and the dependencies of its line, sorted. *)
Definition shapeDomain : list string :=
  js_sort (elements (list_to_set allVars ∪ depVarsForThisLine : gset string)).

(** [None] is [undefined]. *)
Definition getVariableShape (varName : string) : option string :=
  let idx := indexOf shapeDomain varName in
  VARIABLE_SHAPES
    !! Z.to_nat ((if bool_decide (0 ≤ idx)%Z then idx else 0)
                 `mod` Z.of_nat (length VARIABLE_SHAPES))%Z.

Definition changedOnly : gset string := computeChangedVars (Box.rows box).

Definition rowsForRender : list string :=
  if rowMode
  then List.filter (λ v, bool_decide (size changedOnly = 0) || bool_decide (v ∈ changedOnly))
         allVars
  else allVars.

End ProjectionBox.

(** *** Grouping the rows into boxes *)

(** The rows of a trace at line [l], in the order of the trace. *)
Definition rows_at (l : nat) (rows : list TraceRow.t) : list TraceRow.t :=
  List.filter (λ r, bool_decide (TraceRow.line r = l)) rows.

(** [grouped] after the rows [seen]: one entry per line seen, holding the
    rows of that line. *)
Definition grouped_inv (grouped : list (nat * list TraceRow.t)) (seen : list TraceRow.t)
  : Prop :=
  NoDup grouped.*1
  ∧ (∀ l rs, (l, rs) ∈ grouped → rs = rows_at l seen ∧ rs ≠ [])
  ∧ (∀ r, r ∈ seen → TraceRow.line r ∈ grouped.*1).

(** A box with the variables [a] and [b] at line 3, and the records of
    Scenario A. *)
Definition sample_box : Box.t :=
  {| Box.line := 3;
     Box.rows := [ {| TraceRow.line := 3; TraceRow.vars := {["a" := "1"; "b" := "1"]} |} ] |}.

Definition sample_results : option (list DataFlowRecord) :=
  Some [ {| line := 3; execution := 1; variable := "b"; dependency := "a" |} ].

(** A box with 36 variables. *)
Definition wide_box : Box.t :=
  {| Box.line := 1;
     Box.rows :=
       [ {| TraceRow.line := 1;
            TraceRow.vars :=
              list_to_map ((λ n : nat, ("v" +:+ pretty (100 + n), "0")) <$> seq 0 36) |} ] |}.

(** * The tracing driver

    The Python program [buildPythonDriverSource] of [src/utils/python.ts]
    builds: it runs the user's code under a trace function that records
    the variables at every line. *)

Module driver.

(** A value bound in a frame, as [__capture_state] looks at it. *)
Record pyvalue := {
  module_is_builtins : py_result bool;
    (* hasattr(v, '__module__') and v.__module__ == 'builtins' *)
  callable : bool;
  repr : py_result string;
  str : py_result string
}.

Record frame := {
  co_filename : string;
  f_lineno : nat;
  f_locals : py_result (list (string * pyvalue))     (* frame.f_locals.items() *)
}.

(** What the interpreter does while [exec] runs the compiled code: the
    trace events, and how the code ends. *)
Record behaviour := {
  events : list (frame * string);
  outcome : termination
}.

Record state := {
  trace_data : list TraceRow.t;
  tracing : bool;                 (* sys.gettrace() is __tracer *)
  __err : option string
}.

Definition skipped_names : list string :=
  ["__builtins__"; "__name__"; "__doc__"; "__package__"; "__loader__"; "__spec__"].

(** The loop of [__capture_state] over the items; a raise in the loop ends
    it and keeps [d] as it is. *)
Fixpoint capture_items (items : list (string * pyvalue)) (d : gmap string string)
  : gmap string string :=
  match items with
  | [] => d
  | (k, v) :: items' =>
      if String.prefix "__" k || bool_decide (k ∈ skipped_names)
      then capture_items items' d
      else match module_is_builtins v with
           | Raise _ => d
           | Ok true => capture_items items' d
           | Ok false =>
               if callable v then capture_items items' d
               else
                 let s := match repr v with
                          | Ok s => s
                          | Raise _ => match str v with
                                       | Ok s => s
                                       | Raise _ => "<unrepr>"
                                       end
                          end in
                 capture_items items' (<[k := s]> d)
           end
  end.

(** [__capture_state]: a row is appended when [d] is not empty. *)
Definition __capture_state (line_num : nat) (fr : frame) (trace_data : list TraceRow.t)
  : list TraceRow.t :=
  let d := match f_locals fr with
           | Ok items => capture_items items ∅
           | Raise _ => ∅
           end in
  if bool_decide (d ≠ ∅)
  then (trace_data ++ [{| TraceRow.line := line_num; TraceRow.vars := d |}])%list
  else trace_data.

(** [__tracer]; it returns itself, so it stays the trace function of every
    frame. *)
Definition __tracer (fr : frame) (event : string) (trace_data : list TraceRow.t)
  : list TraceRow.t :=
  if bool_decide (event = "line")
  then if bool_decide (co_filename fr = "<user>") || bool_decide (co_filename fr = "<string>")
       then __capture_state (f_lineno fr) fr trace_data
       else trace_data
  else trace_data.

(** [sys.settrace(__tracer)] and [sys.settrace(None)]. *)
Definition settrace (on : bool) (st : state) : state :=
  {| trace_data := trace_data st; tracing := on; __err := __err st |}.


Section run_user.

(** Whether a class derives from [Exception]. *)
Context (is_Exception : string → bool).



End run_user.

(** The rows the trace function records for a list of events. *)
Definition traced (evs : list (frame * string)) : list TraceRow.t :=
  fold_left (λ td e, __tracer e.1 e.2 td) evs [].

End driver.

(** [k] is bound in [items] to a value that [__capture_state] records as
    the string [s]. *)
Definition captured (items : list (string * driver.pyvalue)) (k s : string) : Prop :=
  ∃ v, (k, v) ∈ items
       ∧ String.prefix "__" k = false
       ∧ driver.module_is_builtins v = Ok false
       ∧ driver.callable v = false
       ∧ (driver.repr v = Ok s
          ∨ (∃ e, driver.repr v = Raise e ∧ driver.str v = Ok s)
          ∨ (∃ e e', driver.repr v = Raise e ∧ driver.str v = Raise e' ∧ s = "<unrepr>")).

(** The line events of the user's code among [evs]. *)
Definition user_line_event (evs : list (driver.frame * string)) (fr : driver.frame) : Prop :=
  (fr, "line") ∈ evs
  ∧ (driver.co_filename fr = "<user>" ∨ driver.co_filename fr = "<string>").

(** A frame of the user's code at line 2 with [x = 1], a function [f] and
    the name [__name__] bound. *)
Definition sample_user_frame : driver.frame :=
  {| driver.co_filename := "<user>"; driver.f_lineno := 2;
     driver.f_locals :=
       Ok [ ("__name__", {| driver.module_is_builtins := Ok false; driver.callable := false;
                            driver.repr := Ok "'__main__'"; driver.str := Ok "__main__" |});
            ("f", {| driver.module_is_builtins := Ok false; driver.callable := true;
                     driver.repr := Ok "<function f>"; driver.str := Ok "<function f>" |});
            ("x", {| driver.module_is_builtins := Ok false; driver.callable := false;
                     driver.repr := Ok "1"; driver.str := Ok "1" |}) ] |}.

(** * Proofs *)

Local Set Warnings "-clear-no-such-hyp".

(** ** Iteration order and sorting *)

Lemma sorted_canonical H s : sorted H s = sorted_names s.
Proof.
  unfold sorted, sorted_names.
  apply (Sorted_unique String.le).
  - apply Sorted_merge_sort; apply _.
  - apply Sorted_merge_sort; apply _.
  - rewrite !merge_sort_Permutation. apply set_iter_perm.
Qed.

Lemma elem_of_set_iter H s x : x ∈ set_iter H s ↔ x ∈ s.
Proof. rewrite (set_iter_perm H s). apply elem_of_elements. Qed.

Lemma elem_of_sorted_names s x : x ∈ sorted_names s ↔ x ∈ s.
Proof. unfold sorted_names. rewrite merge_sort_Permutation. apply elem_of_elements. Qed.

Lemma set_iter_nil H s : set_iter H s = [] ↔ s = ∅.
Proof.
  split.
  - intros E. apply set_eq. intros x. rewrite <- (elem_of_set_iter H), E. set_solver.
  - intros ->. apply Permutation_nil_r. rewrite (set_iter_perm H ∅). by rewrite elements_empty.
Qed.

(** ** Reads of the stores *)

Lemma set_frame_deps_id self : set_frame_deps (λ fd, fd) self = self.
Proof. by destruct self. Qed.

Lemma ensure_Some fid fd inner : fd !! fid = Some inner → ensure fid fd = fd.
Proof. intros E. unfold ensure, dict_get. rewrite E. simpl. by apply insert_id. Qed.

Lemma frame_deps_getitem_eq fid self :
  frame_deps_getitem fid self
  = (Ok (dict_get (frame_deps self) fid ∅), set_frame_deps (ensure fid) self).
Proof.
  unfold frame_deps_getitem, dict_get. destruct (frame_deps self !! fid) as [inner|] eqn:E; simpl.
  - f_equal. destruct self; unfold set_frame_deps; simpl in *. f_equal.
    symmetry. by eapply ensure_Some.
  - f_equal. unfold ensure, dict_get. destruct self; unfold set_frame_deps; simpl in *.
    by rewrite E.
Qed.

Lemma get_ok fr loc glo var self :
  frame_scope fr = Ok (loc, glo) →
  _get_current_deps_for fr var self
  = (Ok (current_deps self (frame_id fr) loc glo var),
     touched (py_in var loc && negb (py_is loc glo)) (frame_id fr) self).
Proof.
  unfold frame_scope, _get_current_deps_for, current_deps, touched.
  destruct (f_locals fr) as [l|]; [|done]. destruct (f_globals fr) as [g|]; [|done].
  intros [= -> ->]. unfold bind, getattr; simpl.
  destruct (py_in var loc); simpl.
  - destruct (py_is loc glo); simpl; [done|].
    unfold bind. by rewrite frame_deps_getitem_eq.
  - by destruct (py_in var glo).
Qed.

Lemma get_raise fr e var self :
  frame_scope fr = Raise e → _get_current_deps_for fr var self = (Raise e, self).
Proof.
  unfold frame_scope, _get_current_deps_for.
  destruct (f_locals fr) as [l|]; [destruct (f_globals fr) as [g|]; [done|]|];
    by intros [= ->].
Qed.

Lemma touched_touched b1 b2 fid self :
  touched b1 fid (touched b2 fid self) = touched (b2 || b1) fid self.
Proof.
  destruct b1, b2; simpl; try done.
  destruct self as [? ? ? fd ? ? ? ? ?]; unfold set_frame_deps; simpl. f_equal.
  unfold ensure at 1. unfold dict_get at 1.
  assert (ensure fid fd !! fid = Some (dict_get fd fid ∅)) as E
    by apply lookup_insert_eq.
  rewrite E. simpl. apply insert_id. done.
Qed.

Lemma dict_get_ensure fid fid' fd :
  dict_get (ensure fid fd) fid' ∅ = dict_get fd fid' ∅.
Proof.
  unfold dict_get at 1. unfold ensure. destruct (decide (fid = fid')) as [->|Hne].
  - by rewrite lookup_insert_eq.
  - by rewrite lookup_insert_ne.
Qed.

Lemma current_deps_touched b fid self fid' loc glo var :
  current_deps (touched b fid self) fid' loc glo var = current_deps self fid' loc glo var.
Proof.
  destruct b; [|done]. unfold current_deps, touched. destruct self; simpl.
  by rewrite dict_get_ensure.
Qed.

(** ** The loops over names *)

Lemma for_acc_cons {A B} (x : A) xs (acc : B) body self :
  for_acc (x :: xs) acc body self
  = match body acc x self with
    | (Ok acc', self') => for_acc xs acc' body self'
    | (Raise e, self') => (Raise e, self')
    end.
Proof. done. Qed.

Lemma for_cons {A} (x : A) xs body self :
  for_ (x :: xs) body self
  = match body x self with
    | (Ok _, self') => for_ xs body self'
    | (Raise e, self') => (Raise e, self')
    end.
Proof. done. Qed.

Section loops.
Context (fr : frame) (loc glo : pydict).
Hypothesis Hscope : frame_scope fr = Ok (loc, glo).

Lemma touching_cons v vs :
  touching loc glo (v :: vs) = (py_in v loc && negb (py_is loc glo)) || touching loc glo vs.
Proof. unfold touching. simpl. by destruct (py_in v loc), (py_is loc glo), (existsb _ vs). Qed.

Lemma snapshot_ok_gen vs (m0 : gmap string names) b self :
  for_acc vs m0 (λ pre_deps v,
      bind (_get_current_deps_for fr v) (λ d, ret (<[v := d]> pre_deps)))
    (touched b (frame_id fr) self)
  = (Ok (foldl (λ m v, <[v := current_deps self (frame_id fr) loc glo v]> m) m0 vs),
     touched (b || touching loc glo vs) (frame_id fr) self).
Proof.
  revert m0 b. induction vs as [|v vs IH]; intros m0 b.
  - simpl. unfold ret. by rewrite orb_false_r.
  - rewrite for_acc_cons. unfold bind at 1. rewrite (get_ok _ _ _ _ _ Hscope). simpl.
    unfold ret at 1. rewrite touched_touched, current_deps_touched, IH.
    by rewrite touching_cons, orb_assoc.
Qed.

Lemma snapshot_ok vs (m0 : gmap string names) self :
  for_acc vs m0 (λ pre_deps v,
      bind (_get_current_deps_for fr v) (λ d, ret (<[v := d]> pre_deps))) self
  = (Ok (foldl (λ m v, <[v := current_deps self (frame_id fr) loc glo v]> m) m0 vs),
     touched (touching loc glo vs) (frame_id fr) self).
Proof. apply (snapshot_ok_gen vs m0 false self). Qed.

Lemma union_ok_gen vs (u0 : names) b self :
  for_acc vs u0 (λ union_deps src,
      bind (_get_current_deps_for fr src) (λ d, ret (union_deps ∪ d ∪ {[src]})))
    (touched b (frame_id fr) self)
  = (Ok (foldl (λ u v, u ∪ current_deps self (frame_id fr) loc glo v ∪ {[v]}) u0 vs),
     touched (b || touching loc glo vs) (frame_id fr) self).
Proof.
  revert u0 b. induction vs as [|v vs IH]; intros u0 b.
  - simpl. unfold ret. by rewrite orb_false_r.
  - rewrite for_acc_cons. unfold bind at 1. rewrite (get_ok _ _ _ _ _ Hscope). simpl.
    unfold ret at 1. rewrite touched_touched, current_deps_touched, IH.
    by rewrite touching_cons, orb_assoc.
Qed.

Lemma union_ok vs (u0 : names) self :
  for_acc vs u0 (λ union_deps src,
      bind (_get_current_deps_for fr src) (λ d, ret (union_deps ∪ d ∪ {[src]}))) self
  = (Ok (foldl (λ u v, u ∪ current_deps self (frame_id fr) loc glo v ∪ {[v]}) u0 vs),
     touched (touching loc glo vs) (frame_id fr) self).
Proof. apply (union_ok_gen vs u0 false self). Qed.

End loops.

Lemma foldl_union_deps (f : string → names) (u0 : names) vs :
  foldl (λ u v, u ∪ f v ∪ {[v]}) u0 vs
  = u0 ∪ (list_to_set vs ∪ ⋃ (f <$> elements (list_to_set (C:=names) vs))).
Proof.
  revert u0. induction vs as [|v vs IH]; intros u0.
  - simpl. rewrite elements_empty. simpl. set_solver.
  - simpl. rewrite IH. apply set_eq. intros x.
    rewrite !elem_of_union, !elem_of_union_list.
    setoid_rewrite list_elem_of_fmap. setoid_rewrite elem_of_elements.
    set_unfold. naive_solver.
Qed.

(** ** The writes of an assignment *)

(** The dict after the assignments [d[t] = f(t)] for [t] in [l]. *)
Lemma foldl_insert_lookup {V} (f : string → V) (l : list string) (m : gmap string V) k :
  foldl (λ m t, <[t := f t]> m) m l !! k = if decide (k ∈ l) then Some (f k) else m !! k.
Proof.
  revert m. induction l as [|t l IH]; intros m; [done|]. cbn [foldl].
  - rewrite IH. destruct (decide (k ∈ l)) as [Hin|Hnin].
    + rewrite decide_True; [done|by right].
    + destruct (decide (k = t)) as [->|Hne].
      * rewrite lookup_insert_eq. rewrite decide_True; [done|by left].
      * rewrite lookup_insert_ne by done. rewrite decide_False; [done|].
        intros [->|?]%elem_of_cons; done.
Qed.

Lemma foldl_insert_gset_to_gmap {V} (u : V) (l : list string) (T : names) (m : gmap string V) :
  (∀ x, x ∈ l ↔ x ∈ T) →
  foldl (λ m t, <[t := u]> m) m l = gset_to_gmap u T ∪ m.
Proof.
  intros Hl. apply map_eq. intros k.
  rewrite (foldl_insert_lookup (λ _, u)), lookup_union, lookup_gset_to_gmap.
  destruct (decide (k ∈ l)) as [Hin|Hnin].
  - rewrite option_guard_True by by apply Hl. by destruct (m !! k).
  - rewrite option_guard_False by by rewrite <- Hl. by destruct (m !! k).
Qed.

Lemma set_global_deps_compose f g self :
  set_global_deps f (set_global_deps g self) = set_global_deps (f ∘ g) self.
Proof. by destruct self. Qed.

Lemma set_frame_deps_compose f g self :
  set_frame_deps f (set_frame_deps g self) = set_frame_deps (f ∘ g) self.
Proof. by destruct self. Qed.

Lemma set_frame_deps_ext f g self :
  f (frame_deps self) = g (frame_deps self) → set_frame_deps f self = set_frame_deps g self.
Proof. destruct self; unfold set_frame_deps; simpl. by intros ->. Qed.

Lemma set_global_deps_ext f g self :
  f (global_deps self) = g (global_deps self) → set_global_deps f self = set_global_deps g self.
Proof. destruct self; unfold set_global_deps; simpl. by intros ->. Qed.

Lemma set_global_deps_id self : set_global_deps (λ g, g) self = self.
Proof. by destruct self. Qed.

Lemma global_writes (u : names) l self :
  for_ l (λ tgt, global_deps_setitem tgt u) self
  = (Ok tt, set_global_deps (λ g, foldl (λ m t, <[t := u]> m) g l) self).
Proof.
  revert self. induction l as [|t l IH]; intros self.
  - simpl. unfold ret. by rewrite set_global_deps_id.
  - rewrite for_cons. unfold global_deps_setitem at 1, modify. rewrite IH.
    by rewrite set_global_deps_compose.
Qed.

Lemma frame_deps_setitem_eq fid tgt (u : names) self :
  frame_deps_setitem fid tgt u self
  = (Ok tt, set_frame_deps (λ fd, <[fid := <[tgt := u]> (dict_get fd fid ∅)]> fd) self).
Proof.
  unfold frame_deps_setitem, bind. rewrite frame_deps_getitem_eq. unfold modify.
  rewrite set_frame_deps_compose. f_equal. apply set_frame_deps_ext. simpl.
  unfold ensure. by rewrite insert_insert_eq.
Qed.

Lemma frame_writes fid (u : names) l self :
  l ≠ [] →
  for_ l (λ tgt, frame_deps_setitem fid tgt u) self
  = (Ok tt, set_frame_deps (λ fd,
       <[fid := foldl (λ m t, <[t := u]> m) (dict_get fd fid ∅) l]> fd) self).
Proof.
  revert self. induction l as [|t l IH]; intros self Hne; [done|].
  rewrite for_cons, frame_deps_setitem_eq.
  destruct l as [|t' l].
  - simpl. by unfold ret.
  - rewrite IH by done. rewrite set_frame_deps_compose. f_equal.
    apply set_frame_deps_ext. simpl.
    unfold dict_get at 1. rewrite lookup_insert_eq. simpl.
    by rewrite insert_insert_eq.
Qed.

Lemma touching_list loc glo (l : list string) (vs : names) :
  (∀ x, x ∈ l ↔ x ∈ vs) → touching loc glo l = touching_set loc glo vs.
Proof.
  intros Hl. unfold touching, touching_set. f_equal.
  apply eq_true_iff_eq. rewrite existsb_exists, bool_decide_eq_true.
  unfold py_in. setoid_rewrite bool_decide_eq_true. setoid_rewrite <- list_elem_of_In.
  setoid_rewrite Hl. split.
  - intros (x & ? & ?). set_solver.
  - intros Hne. apply set_choose_L in Hne as [x Hx]. exists x. set_solver.
Qed.

Lemma frame_scope_inv fr loc glo :
  frame_scope fr = Ok (loc, glo) → f_locals fr = Ok loc ∧ f_globals fr = Ok glo.
Proof.
  unfold frame_scope. destruct (f_locals fr), (f_globals fr); naive_solver.
Qed.

Lemma insert_over_touched (F : gmap string names → gmap string names) b fid self :
  set_frame_deps (λ fd, <[fid := F (dict_get fd fid ∅)]> fd) (touched b fid self)
  = set_frame_deps (λ fd, <[fid := F (dict_get fd fid ∅)]> fd) self.
Proof.
  destruct b; [|done]. unfold touched. rewrite set_frame_deps_compose.
  apply set_frame_deps_ext. simpl. rewrite dict_get_ensure. unfold ensure.
  by rewrite insert_insert_eq.
Qed.

Lemma set_deps_ok H fr loc glo targets rhs_names self :
  frame_scope fr = Ok (loc, glo) →
  let cleaned := List.filter (λ n, negb (_is_builtin H n fr)) rhs_names in
  _set_deps_for_assignment H fr targets rhs_names self
  = (Ok tt,
     store_after_assignment self (frame_id fr) loc glo targets
       (union_deps_of self (frame_id fr) loc glo (list_to_set cleaned))
       (touching loc glo cleaned)).
Proof.
  intros Hscope cleaned. destruct (frame_scope_inv _ _ _ Hscope) as [Hl Hg].
  unfold _set_deps_for_assignment. fold cleaned. unfold bind at 1.
  rewrite (union_ok fr loc glo Hscope). rewrite Hl, Hg. unfold bind, getattr. simpl.
  rewrite foldl_union_deps, (left_id_L ∅ (∪)). fold (union_deps_of self (frame_id fr) loc glo (list_to_set cleaned)).
  unfold store_after_assignment. destruct (py_is loc glo) eqn:Hmod.
  - unfold touching. rewrite Hmod, andb_false_r. simpl.
    rewrite global_writes. f_equal. apply set_global_deps_ext.
    apply foldl_insert_gset_to_gmap. intros x. apply elem_of_set_iter.
  - unfold truthy. case_bool_decide as Hne.
    + rewrite frame_writes by (by rewrite set_iter_nil).
      rewrite (insert_over_touched (λ inner, foldl _ inner _)). f_equal.
      apply set_frame_deps_ext. f_equal.
      apply foldl_insert_gset_to_gmap. intros x. apply elem_of_set_iter.
    + subst targets.
      by rewrite (proj2 (set_iter_nil H ∅) eq_refl).
Qed.

Lemma set_deps_raise H fr e targets rhs_names self :
  frame_scope fr = Raise e →
  _set_deps_for_assignment H fr targets rhs_names self = (Raise e, self).
Proof.
  intros Hscope. unfold _set_deps_for_assignment.
  destruct (List.filter _ rhs_names) as [|v vs].
  - unfold bind. simpl. unfold ret, getattr.
    unfold frame_scope in Hscope.
    destruct (f_locals fr); [destruct (f_globals fr)|]; naive_solver.
  - unfold bind at 1. rewrite for_acc_cons. unfold bind at 1.
    by rewrite (get_raise _ _ _ _ Hscope).
Qed.

(** ** The line event *)

Lemma append_loop (g : string → string) ds self :
  for_ ds (λ d, modify (set_records (λ rs, rs ++ [g d])%list)) self
  = (Ok tt, set_records (λ rs, rs ++ (g <$> ds))%list self).
Proof.
  revert self. induction ds as [|d ds IH]; intros self.
  - simpl. unfold ret. f_equal. destruct self; unfold set_records; simpl.
    by rewrite app_nil_r.
  - rewrite for_cons. unfold modify at 1. rewrite IH. f_equal.
    destruct self; unfold set_records; simpl. by rewrite <- app_assoc.
Qed.

Lemma emit_loop H (pre_deps : gmap string names) (f : string → names)
    (g : string → string → string) l self :
  (∀ v, v ∈ l → pre_deps !! v = Some (f v)) →
  for_ l (λ v, bind (dict_getitem pre_deps v) (λ ds,
      for_ (sorted H ds) (λ d, modify (set_records (λ rs, rs ++ [g v d])%list)))) self
  = (Ok tt, set_records (λ rs, rs ++ flat_map (λ v, g v <$> sorted_names (f v)) l)%list self).
Proof.
  revert self. induction l as [|v l IH]; intros self Hpre.
  - simpl. unfold ret. f_equal. destruct self; unfold set_records; simpl.
    by rewrite app_nil_r.
  - rewrite for_cons. unfold bind at 1, dict_getitem.
    rewrite (Hpre v) by left. unfold ret at 1.
    rewrite append_loop, sorted_canonical.
    rewrite IH by (intros; apply Hpre; by right). f_equal.
    destruct self; unfold set_records; simpl. by rewrite <- app_assoc.
Qed.

Lemma clean_rhs_list H fr (rhs : names) :
  list_to_set (List.filter (λ n, negb (_is_builtin H n fr)) (set_iter H rhs))
  = clean_rhs H fr rhs.
Proof.
  apply set_eq. intros x. unfold clean_rhs.
  rewrite elem_of_list_to_set, elem_of_filter, list_elem_of_In, filter_In,
    <- list_elem_of_In, elem_of_set_iter, negb_true_iff. tauto.
Qed.

Lemma union_deps_of_touched b fid self fid' loc glo clean :
  union_deps_of (touched b fid self) fid' loc glo clean
  = union_deps_of self fid' loc glo clean.
Proof.
  unfold union_deps_of. f_equal. f_equal. apply list_fmap_ext.
  intros _ v _. apply current_deps_touched.
Qed.

Lemma tracer_line_ok H fr loc glo self :
  frame_scope fr = Ok (loc, glo) →
  tracer_line H fr self = (Ok tt, tracer_line_post H fr loc glo self).
Proof.
  intros Hscope. unfold tracer_line, tracer_line_post. cbv zeta.
  unfold bind at 1, get_self at 1.
  unfold bind at 1. rewrite (snapshot_ok fr loc glo Hscope).
  set (line := f_lineno fr). set (fid := frame_id fr).
  set (assigned := dict_get (assigned_by_line self) line ∅).
  set (rhs := dict_get (rhs_by_line self) line ∅).
  set (emit := emit_vars_of self line).
  rewrite (touching_list loc glo _ emit) by (intros; apply elem_of_set_iter).
  set (pre := foldl _ ∅ _).
  assert (∀ v, v ∈ sorted H emit → pre !! v = Some (current_deps self fid loc glo v)) as Hpre.
  { intros v Hv. unfold pre.
    rewrite (foldl_insert_lookup (current_deps self fid loc glo)).
    rewrite decide_True; [done|].
    rewrite sorted_canonical, elem_of_sorted_names in Hv. by apply elem_of_set_iter. }
  assert (∀ self1,
    records self1 = records self → line_exec_count self1 = line_exec_count self →
    bind (line_exec_count_incr line) (λ _, bind get_self (λ self2,
      for_ (sorted H emit) (λ v, bind (dict_getitem pre v) (λ ds,
        for_ (sorted H ds) (λ d, modify (set_records (λ rs,
          rs ++ [fmt_record line (dict_get (line_exec_count self2) line 0) v d])%list))))))
      self1
    = (Ok tt, set_records (λ rs, rs ++ new_records self fr loc glo)%list
                (set_line_exec_count (λ c, <[line := dict_get c line 0 + 1]> c) self1)))
    as Htail.
  { intros self1 Hr Hc. unfold bind at 1, line_exec_count_incr. unfold modify at 1.
    unfold bind at 1, get_self. cbv beta iota.
    rewrite (emit_loop H pre (current_deps self fid loc glo)
               (fmt_record line _)) by done.
    f_equal. unfold new_records. fold line fid emit. rewrite sorted_canonical.
    destruct self1; simpl in *. unfold set_records; simpl. subst.
    unfold dict_get at 1. by rewrite lookup_insert_eq. }
  unfold store_post. fold line fid assigned rhs emit.
  destruct (truthy assigned) eqn:Hassigned.
  - unfold bind at 1. rewrite (set_deps_ok H fr loc glo _ _ _ Hscope).
    fold fid. rewrite clean_rhs_list, union_deps_of_touched.
    unfold store_after_assignment. rewrite Hassigned.
    destruct (py_is loc glo) eqn:Hmod.
    + unfold touching_set. rewrite Hmod, andb_false_r. simpl.
      by rewrite Htail by (by destruct self).
    + rewrite (insert_over_touched (λ inner, gset_to_gmap _ assigned ∪ inner)).
      by rewrite Htail by (by destruct self).
  - unfold bind at 1, ret at 1.
    by rewrite Htail by (by destruct (touching_set loc glo emit), self).
Qed.

Lemma tracer_line_raise H fr e self :
  frame_scope fr = Raise e →
  tracer_line H fr self
  = if bool_decide (emit_vars_of self (f_lineno fr) = ∅
                    ∧ dict_get (assigned_by_line self) (f_lineno fr) ∅ = ∅)
    then (Ok tt, set_line_exec_count
                   (λ c, <[f_lineno fr := dict_get c (f_lineno fr) 0 + 1]> c) self)
    else (Raise e, self).
Proof.
  intros Hscope. unfold tracer_line. cbv zeta. unfold bind at 1, get_self at 1.
  set (line := f_lineno fr).
  set (assigned := dict_get (assigned_by_line self) line ∅).
  set (emit := emit_vars_of self line).
  destruct (set_iter H emit) as [|v vs] eqn:Hemit.
  - apply set_iter_nil in Hemit as Hemit'.
    unfold bind at 1. simpl for_acc. unfold ret at 1.
    unfold truthy. case_bool_decide as Hassigned.
    + unfold bind at 1. rewrite (set_deps_raise _ _ _ _ _ _ Hscope).
      rewrite bool_decide_false; [done|]. intros [_ ?]. done.
    + rewrite bool_decide_true by done.
      unfold bind at 1, ret at 1. unfold bind at 1, line_exec_count_incr. unfold modify at 1.
      unfold bind at 1, get_self.
      unfold sorted. rewrite Hemit. done.
  - unfold bind at 1. rewrite for_acc_cons. unfold bind at 1.
    rewrite (get_raise _ _ _ _ Hscope).
    rewrite bool_decide_false; [done|]. intros [E _].
    apply (set_iter_nil H) in E. congruence.
Qed.

(** ** The hook and the run *)

Lemma tracer_eq H fr event self :
  tracer H fr event self = (Ok SelfTracer, tracer_post H fr event self).
Proof.
  unfold tracer, try_except, tracer_body, tracer_post.
  unfold bind at 1, get_self at 1.
  case_bool_decide as Hfile; [done|].
  case_bool_decide as Hev; [|done].
  unfold bind at 1.
  destruct (frame_scope fr) as [[loc glo]|e] eqn:Hscope.
  - by rewrite (tracer_line_ok H fr loc glo self Hscope).
  - rewrite (tracer_line_raise H fr e self Hscope). by case_bool_decide.
Qed.

Lemma run_events_eq H gtrace ftrace evs self :
  run_events H gtrace ftrace evs self = (Ok tt, events_post H gtrace ftrace evs self).
Proof.
  revert ftrace self. induction evs as [|[fr event] evs IH]; intros ftrace self; [done|].
  simpl. destruct (if bool_decide (event = "call") then gtrace else ftrace !! frame_id fr)
    as [[|name]|]; [|done..].
  by rewrite tracer_eq.
Qed.

Lemma run_path_eq H prog sys self :
  run_path H prog sys self = (outcome prog, events_post H (sys_trace sys) ∅ (events prog) self).
Proof. unfold run_path. by rewrite run_events_eq. Qed.

Lemma run_eq H prog sys self :
  let self' := events_post H (Some SelfTracer) ∅ (events prog) self in
  run H prog (sys, self) = (Returns (records self'), (run_sys H sys self, self')).
Proof.
  unfold run, try_finally, run_sys. simpl.
  destruct (bool_decide (os_path_dirname H (source_abspath self) ≠ "")
            && bool_decide (os_path_dirname H (source_abspath self) ∉ sys_path sys));
    rewrite run_path_eq; simpl; by destruct (outcome prog).
Qed.

Section simulation.
Context (H1 H2 : Host) (rho : positive → positive).
Hypothesis rho_inj : ∀ a b, rho a = rho b → a = b.

(** ** Lock-step runs *)

Lemma emit_vars_sim s1 s2 line :
  state_sim rho s1 s2 → emit_vars_of s1 line = emit_vars_of s2 line.
Proof. intros []. unfold emit_vars_of. congruence. Qed.

Section one_frame.
Context (s1 s2 : Analyzer) (fr1 fr2 : frame) (l1 g1 l2 g2 : pydict).
Hypothesis Hs : state_sim rho s1 s2.
Hypothesis Hid : frame_id fr2 = rho (frame_id fr1).
Hypothesis Hl : dict_keys l1 = dict_keys l2.
Hypothesis Hg : dict_keys g1 = dict_keys g2.
Hypothesis Hm : py_is l1 g1 = py_is l2 g2.

Lemma current_deps_sim v :
  current_deps s1 (frame_id fr1) l1 g1 v = current_deps s2 (frame_id fr2) l2 g2 v.
Proof.
  unfold current_deps, py_in. rewrite Hl, Hg, Hm, Hid, (sim_global _ _ _ Hs).
  assert (dict_get (frame_deps s1) (frame_id fr1) (∅ : gmap string names)
          = dict_get (frame_deps s2) (rho (frame_id fr1)) ∅) as ->; [|done].
  unfold dict_get. by rewrite (sim_frame_deps _ _ _ Hs).
Qed.

Lemma union_deps_of_sim clean :
  union_deps_of s1 (frame_id fr1) l1 g1 clean = union_deps_of s2 (frame_id fr2) l2 g2 clean.
Proof.
  unfold union_deps_of. f_equal. f_equal. apply list_fmap_ext.
  intros _ v _. apply current_deps_sim.
Qed.

Lemma new_records_sim :
  f_lineno fr1 = f_lineno fr2 →
  new_records s1 fr1 l1 g1 = new_records s2 fr2 l2 g2.
Proof.
  intros Hline. unfold new_records.
  rewrite Hline, (sim_count _ _ _ Hs), (emit_vars_sim _ _ _ Hs).
  apply flat_map_ext. intros v. by rewrite current_deps_sim.
Qed.

End one_frame.

Lemma clean_rhs_sim fr1 fr2 rhs :
  (∀ n, _is_builtin H1 n fr1 = _is_builtin H2 n fr2) →
  clean_rhs H1 fr1 rhs = clean_rhs H2 fr2 rhs.
Proof.
  intros Hb. apply set_eq. intros x. unfold clean_rhs.
  by rewrite !elem_of_filter, Hb.
Qed.

Lemma state_sim_insert s1 s2 fid (F : gmap string names → gmap string names) :
  state_sim rho s1 s2 →
  state_sim rho (set_frame_deps (λ fd, <[fid := F (dict_get fd fid ∅)]> fd) s1)
            (set_frame_deps (λ fd, <[rho fid := F (dict_get fd (rho fid) ∅)]> fd) s2).
Proof.
  intros Hs. destruct Hs as [? ? ? Hfd ? ? ?].
  split; try (by destruct s1, s2).
  intros fid'. destruct s1, s2; simpl in *.
  destruct (decide (fid = fid')) as [->|Hne].
  - rewrite !lookup_insert_eq. unfold dict_get. by rewrite Hfd.
  - rewrite !lookup_insert_ne; [done| |done]. intros E. by apply rho_inj in E.
Qed.

Lemma state_sim_touched b s1 s2 fid :
  state_sim rho s1 s2 → state_sim rho (touched b fid s1) (touched b (rho fid) s2).
Proof.
  intros Hs. destruct b; [|done]. apply (state_sim_insert s1 s2 fid (λ x, x) Hs).
Qed.

Lemma state_sim_global s1 s2 (F : gmap string names → gmap string names) :
  state_sim rho s1 s2 → state_sim rho (set_global_deps F s1) (set_global_deps F s2).
Proof.
  intros [? ? Hgl ? ? ? ?]. split; try (by destruct s1, s2).
  destruct s1, s2; simpl in *. by rewrite Hgl.
Qed.

Lemma state_sim_count s1 s2 (F : gmap nat nat → gmap nat nat) :
  state_sim rho s1 s2 → state_sim rho (set_line_exec_count F s1) (set_line_exec_count F s2).
Proof.
  intros [? Hc ? ? ? ? ?]. split; try (by destruct s1, s2).
  destruct s1, s2; simpl in *. by rewrite Hc.
Qed.

Lemma state_sim_records s1 s2 (F : list string → list string) :
  state_sim rho s1 s2 → state_sim rho (set_records F s1) (set_records F s2).
Proof.
  intros [Hr ? ? ? ? ? ?]. split; try (by destruct s1, s2).
  destruct s1, s2; simpl in *. by rewrite Hr.
Qed.

Lemma tracer_post_abspath H fr event self :
  source_abspath (tracer_post H fr event self) = source_abspath self.
Proof.
  unfold tracer_post, tracer_line_post, store_post, touched, count_only.
  repeat case_match; done.
Qed.

Lemma tracer_post_sim s1 s2 fr1 fr2 event :
  state_sim rho s1 s2 →
  frame_sim H1 H2 rho (source_abspath s1) (source_abspath s2) fr1 fr2 →
  state_sim rho (tracer_post H1 fr1 event s1) (tracer_post H2 fr2 event s2).
Proof.
  intros Hs [Hfile Hline Hid Hscope Hb]. unfold tracer_post.
  rewrite (bool_decide_ext (co_filename fr1 ≠ source_abspath s1)
             (co_filename fr2 ≠ source_abspath s2)) by (by rewrite Hfile).
  case_bool_decide; [done|]. case_bool_decide; [|done].
  rewrite <- Hline. rewrite <- (emit_vars_sim _ _ _ Hs), <- (sim_assigned _ _ _ Hs).
  unfold scope_sim in Hscope.
  destruct (frame_scope fr1) as [[l1 g1]|e1], (frame_scope fr2) as [[l2 g2]|e2];
    try done.
  - destruct Hscope as (Hl & Hg & Hm).
    unfold tracer_line_post. rewrite <- Hline.
    rewrite <- (new_records_sim s1 s2 fr1 fr2 l1 g1 l2 g2) by done.
    apply state_sim_records, state_sim_count.
    unfold store_post. rewrite <- Hline, Hid.
    rewrite <- (sim_assigned _ _ _ Hs), <- (sim_rhs _ _ _ Hs).
    rewrite <- (emit_vars_sim _ _ _ Hs), <- (clean_rhs_sim fr1 fr2) by done.
    rewrite <- Hid. rewrite <- (union_deps_of_sim s1 s2 fr1 fr2 l1 g1 l2 g2) by done.
    rewrite <- Hm, Hid.
    destruct (truthy _).
    + destruct (py_is l1 g1).
      * by apply state_sim_global.
      * by apply (state_sim_insert s1 s2 (frame_id fr1) (λ x, _ ∪ x)).
    + unfold touching_set. rewrite <- Hm, <- Hl. by apply state_sim_touched.
  - case_bool_decide; [|done]. unfold count_only. by apply state_sim_count.
Qed.

End simulation.

Section runs.
Context (H1 H2 : Host) (rho : positive → positive).
Hypothesis rho_inj : ∀ a b, rho a = rho b → a = b.

Lemma events_post_sim gtrace ft1 ft2 evs1 evs2 s1 s2 :
  state_sim rho s1 s2 →
  (∀ fid, ft1 !! fid = ft2 !! rho fid) →
  events_sim H1 H2 rho (source_abspath s1) (source_abspath s2) evs1 evs2 →
  state_sim rho (events_post H1 gtrace ft1 evs1 s1) (events_post H2 gtrace ft2 evs2 s2).
Proof.
  intros Hs Hft Hev. revert evs2 ft1 ft2 s1 s2 Hs Hft Hev.
  induction evs1 as [|[fr1 ev1] evs1 IH]; intros evs2 ft1 ft2 s1 s2 Hs Hft Hev.
  - apply Forall2_nil_inv_l in Hev as ->. done.
  - apply Forall2_cons_inv_l in Hev as ([fr2 ev2] & evs2' & [Hev Hfr] & Hrest & ->).
    simpl in Hev, Hfr. subst ev2. simpl.
    rewrite (sim_id _ _ _ _ _ _ _ Hfr), <- Hft.
    destruct (if bool_decide (ev1 = "call") then gtrace else ft1 !! frame_id fr1)
      as [[|name]|].
    + apply IH.
      * by apply tracer_post_sim.
      * intros fid. destruct (decide (frame_id fr1 = fid)) as [->|Hne].
        -- by rewrite !lookup_insert_eq.
        -- rewrite !lookup_insert_ne; [done| |done]. intros E. by apply rho_inj in E.
      * by rewrite !tracer_post_abspath.
    + by apply IH.
    + apply IH; [done| |done].
      case_bool_decide; [|done]. intros fid.
      destruct (decide (frame_id fr1 = fid)) as [->|Hne].
      * by rewrite !lookup_delete_eq.
      * rewrite !lookup_delete_ne; [done| |done]. intros E. by apply rho_inj in E.
Qed.

Lemma init_sim t1 t2 tree : state_sim rho (__init__ H1 t1 tree) (__init__ H2 t2 tree).
Proof. by split. Qed.

Lemma analysis_script_sim t1 t2 tree prog1 prog2 sys1 sys2 :
  events_sim H1 H2 rho (os_path_abspath H1 t1) (os_path_abspath H2 t2)
    (events prog1) (events prog2) →
  analysis_script H1 t1 tree prog1 sys1 = analysis_script H2 t2 tree prog2 sys2.
Proof.
  intros Hev. unfold analysis_script.
  rewrite (run_eq H1 prog1), (run_eq H2 prog2). cbv zeta.
  assert (∀ fid : positive, (∅ : gmap positive trace_fn) !! fid = (∅ : gmap positive trace_fn) !! rho fid) as Hft
    by (intros; by rewrite !lookup_empty).
  by rewrite (sim_records rho _ _
    (events_post_sim (Some SelfTracer) ∅ ∅ _ _ _ _ (init_sim t1 t2 tree) Hft Hev)).
Qed.

End runs.

(** ** Events of other files *)

Lemma tracer_post_other_file H fr event self :
  co_filename fr ≠ source_abspath self → tracer_post H fr event self = self.
Proof. intros Hne. unfold tracer_post. by rewrite bool_decide_true. Qed.

Lemma events_post_own H p called ft evs self :
  source_abspath self = p →
  (∀ fid, fid ∈ called → ft !! fid = Some SelfTracer) →
  well_traced called (own_events p evs) →
  events_post H (Some SelfTracer) ft evs self
  = foldl (λ s e, tracer_post H e.1 e.2 s) self (own_events p evs).
Proof.
  revert called ft self.
  induction evs as [|[fr event] evs IH]; intros called ft self Hp Hft Hwt; [done|].
  assert (∀ fid, fid ∈ called → <[frame_id fr := SelfTracer]> ft !! fid = Some SelfTracer)
    as Hins.
  { intros fid Hfid. destruct (decide (frame_id fr = fid)) as [->|Hne];
      [apply lookup_insert_eq|rewrite lookup_insert_ne by done; by apply Hft]. }
  simpl. simpl in Hwt.
  case_bool_decide as Hfile; simpl; simpl in Hwt.
  - case_bool_decide as Hcall.
    + apply (IH ({[frame_id fr]} ∪ called)); [by rewrite tracer_post_abspath| |done].
      intros fid [->%elem_of_singleton|Hin]%elem_of_union;
        [apply lookup_insert_eq|by apply Hins].
    + destruct Hwt as [Hin Hwt]. rewrite (Hft _ Hin).
      apply (IH called); [by rewrite tracer_post_abspath|done|done].
  - destruct (if bool_decide (event = "call") then Some SelfTracer else ft !! frame_id fr)
      as [[|name]|] eqn:Htarget.
    + rewrite tracer_post_other_file by congruence. by apply (IH called).
    + by apply (IH called).
    + case_bool_decide; [done|]. by apply (IH called).
Qed.

Lemma own_events_idemp p evs : own_events p (own_events p evs) = own_events p evs.
Proof.
  unfold own_events. induction evs as [|e evs IH]; [done|]. simpl.
  destruct (bool_decide (co_filename e.1 = p)) eqn:E; [|done].
  simpl. by rewrite E, IH.
Qed.

(** A run depends only on the events of the analyzed file, and not on the
    way the program ends. *)
Lemma run_own_events H prog sys self :
  well_traced ∅ (own_events (source_abspath self) (events prog)) →
  run H prog (sys, self)
  = run H {| events := own_events (source_abspath self) (events prog);
             outcome := Completed |} (sys, self).
Proof.
  intros Hwt. rewrite !run_eq. cbv zeta. simpl.
  rewrite (events_post_own H (source_abspath self) ∅ ∅ (events prog) self)
    by (done || set_solver).
  rewrite (events_post_own H (source_abspath self) ∅ ∅ (own_events _ _) self);
    rewrite ?own_events_idemp; (done || set_solver).
Qed.

Lemma rename_to_one_inj fid a b : rename_to_one fid a = rename_to_one fid b → a = b.
Proof. unfold rename_to_one. repeat case_decide; subst; try done; lia. Qed.

Lemma rename_to_one_eq fid : rename_to_one fid fid = 1%positive.
Proof. unfold rename_to_one. by rewrite decide_True. Qed.

(** ** Facts about the store entries an assignment writes *)

Lemma list_to_set_cleaned H fr (rhs_names : list string) :
  list_to_set (List.filter (λ n, negb (_is_builtin H n fr)) rhs_names)
  = clean_rhs H fr (list_to_set rhs_names).
Proof.
  apply set_eq. intros x. unfold clean_rhs.
  rewrite elem_of_list_to_set, elem_of_filter, list_elem_of_In, filter_In,
    <- list_elem_of_In, elem_of_list_to_set, negb_true_iff. tauto.
Qed.

Lemma scope_entry_written self fid loc glo targets u touch tgt :
  tgt ∈ targets →
  scope_entry (store_after_assignment self fid loc glo targets u touch) fid loc glo tgt
  = Some u.
Proof.
  intros Hin. unfold scope_entry, store_after_assignment.
  destruct (py_is loc glo).
  - destruct self; simpl. rewrite lookup_union, lookup_gset_to_gmap.
    rewrite option_guard_True by done. by destruct (_ !! tgt).
  - unfold truthy. rewrite bool_decide_true by set_solver.
    destruct self; simpl. unfold dict_get at 1. rewrite lookup_insert_eq. simpl.
    rewrite lookup_union, lookup_gset_to_gmap.
    rewrite option_guard_True by done. by destruct (_ !! tgt).
Qed.

Lemma scope_entry_kept self fid loc glo targets u touch name :
  name ∉ targets →
  scope_entry (store_after_assignment self fid loc glo targets u touch) fid loc glo name
  = scope_entry self fid loc glo name.
Proof.
  intros Hin. unfold scope_entry, store_after_assignment.
  destruct (py_is loc glo).
  - destruct self; simpl. rewrite lookup_union, lookup_gset_to_gmap.
    rewrite option_guard_False by done. by destruct (_ !! name).
  - destruct (truthy targets).
    + destruct self; simpl. unfold dict_get at 1. rewrite lookup_insert_eq. simpl.
      rewrite lookup_union, lookup_gset_to_gmap.
      rewrite option_guard_False by done. by destruct (_ !! name).
    + destruct touch; [|done]. destruct self; simpl. by rewrite dict_get_ensure.
Qed.

Lemma current_deps_entry self fid loc glo loc' glo' name :
  py_in name loc' = true → py_is loc' glo' = py_is loc glo →
  current_deps self fid loc' glo' name = default ∅ (scope_entry self fid loc glo name).
Proof.
  intros Hin Hm. unfold current_deps, scope_entry. rewrite Hin, Hm.
  by destruct (py_is loc glo).
Qed.

Lemma get_value fr loc glo n self :
  frame_scope fr = Ok (loc, glo) →
  (_get_current_deps_for fr n self).1 = Ok (current_deps self (frame_id fr) loc glo n).
Proof. intros Hscope. by rewrite (get_ok _ _ _ _ _ Hscope). Qed.

Lemma sorted_names_empty : sorted_names ∅ = [].
Proof. unfold sorted_names. by rewrite elements_empty. Qed.

(** ** C1: the propagator *)

(** C1. With the attribute reads of the frame succeeding,
    [_set_deps_for_assignment] removes the builtin names from the rhs names
    ([cleanRhs]), forms [union] from every clean name and the dependency set
    [_get_current_deps_for] returns for it, and stores that one set as the
    entry of every assigned name; entries of other names stay, and a later
    read of an assigned name that is bound then returns [union]. *)
Theorem propagate_postcondition (H : Host) (fr : frame) (loc glo : pydict)
    (targets : names) (rhs_names : list string) (self : Analyzer) :
  frame_scope fr = Ok (loc, glo) →
  let fid := frame_id fr in
  let cleanRhs : names :=
    filter (λ n, _is_builtin H n fr = false) (list_to_set rhs_names) in
  let union : names :=
    cleanRhs ∪ ⋃ (current_deps self fid loc glo <$> elements cleanRhs) in
  (∀ n, (_get_current_deps_for fr n self).1 = Ok (current_deps self fid loc glo n))
  ∧ ∃ self',
      _set_deps_for_assignment H fr targets rhs_names self = (Ok tt, self')
      ∧ (∀ name, name ∈ targets → scope_entry self' fid loc glo name = Some union)
      ∧ (∀ name, name ∉ targets →
           scope_entry self' fid loc glo name = scope_entry self fid loc glo name)
      ∧ (∀ name loc' glo', name ∈ targets →
           py_in name loc' = true → py_is loc' glo' = py_is loc glo →
           current_deps self' fid loc' glo' name = union).
Proof.
  intros Hscope fid cleanRhs union. split.
  - intros n. by apply get_value.
  - eexists. split; [apply (set_deps_ok H fr loc glo targets rhs_names self Hscope)|].
    rewrite list_to_set_cleaned. fold fid. 
    change (union_deps_of self fid loc glo (clean_rhs H fr (list_to_set rhs_names)))
      with union.
    split; [|split].
    + intros name Hin. by apply scope_entry_written.
    + intros name Hin. by apply scope_entry_kept.
    + intros name loc' glo' Hin Hbound Hm.
      rewrite (current_deps_entry _ fid loc glo loc' glo' name Hbound Hm).
      by rewrite scope_entry_written.
Qed.

Lemma propagate_postcondition_witness :
  ∃ self',
    _set_deps_for_assignment host0 (module_frame "/tmp/a.py" 3 {["a"; "b"]})
      {["c"]} ["b"; "a"; "print"]
      (analyzer_with "/tmp/a.py" treeA ∅ {["a" := ∅; "b" := {["a"]}]})
    = (Ok tt, self')
    ∧ scope_entry self' 1 (PyDict 2 (run_globals ∪ {["a"; "b"]}))
        (PyDict 2 (run_globals ∪ {["a"; "b"]})) "c" = Some {["a"; "b"]}.
Proof.
  destruct (propagate_postcondition host0 (module_frame "/tmp/a.py" 3 {["a"; "b"]})
              (PyDict 2 (run_globals ∪ {["a"; "b"]})) (PyDict 2 (run_globals ∪ {["a"; "b"]}))
              {["c"]} ["b"; "a"; "print"]
              (analyzer_with "/tmp/a.py" treeA ∅ {["a" := ∅; "b" := {["a"]}]})
              eq_refl) as (_ & self' & Hrun & Hin & _).
  exists self'. split; [exact Hrun|].
  etransitivity; [apply (Hin "c"); by apply elem_of_singleton|].
  vm_compute. reflexivity.
Defined.

(** ** C4: reads are reported from the state before the assignment *)

Lemma tracer_line_event H fr loc glo self :
  frame_scope fr = Ok (loc, glo) → co_filename fr = source_abspath self →
  tracer H fr "line" self = (Ok SelfTracer, tracer_line_post H fr loc glo self).
Proof.
  intros Hscope Hfile. rewrite tracer_eq. unfold tracer_post.
  rewrite bool_decide_false by (by intros ?). rewrite bool_decide_true by done.
  by rewrite Hscope.
Qed.

Lemma records_tracer_line_post H fr loc glo self :
  records (tracer_line_post H fr loc glo self)
  = (records self ++ new_records self fr loc glo)%list.
Proof.
  unfold tracer_line_post, count_only, store_post, touched.
  repeat case_match; by destruct self.
Qed.

(** C4. On a line event for a line that both reads and assigns [v], the
    hook returns normally and appends, for each emitted name in sorted
    order, one record per element of [pre_deps], the dependency set
    [_get_current_deps_for] returns for that name in [self] as it is when
    the event begins, before [_set_deps_for_assignment] runs; [v] is among
    the emitted names, so every dependency [v] had before the line appears
    in a record of this occurrence. *)
Theorem read_before_write (H : Host) (fr : frame) (loc glo : pydict)
    (self : Analyzer) (v : string) :
  frame_scope fr = Ok (loc, glo) →
  co_filename fr = source_abspath self →
  let line := f_lineno fr in
  let ecount := dict_get (line_exec_count self) line 0 + 1 in
  let pre_deps := current_deps self (frame_id fr) loc glo in
  v ∈ dict_get (assigned_by_line self) line ∅ →
  v ∈ dict_get (used_by_line self) line ∅ ∪ dict_get (rhs_by_line self) line ∅ →
  (∀ w, (_get_current_deps_for fr w self).1 = Ok (pre_deps w))
  ∧ ∃ self',
      tracer H fr "line" self = (Ok SelfTracer, self')
      ∧ records self'
        = (records self
           ++ flat_map (λ w, fmt_record line ecount w <$> sorted_names (pre_deps w))
                (sorted_names (emit_vars_of self line)))%list
      ∧ v ∈ sorted_names (emit_vars_of self line)
      ∧ ∀ d, d ∈ pre_deps v → fmt_record line ecount v d ∈ records self'.
Proof.
  intros Hscope Hfile line ecount pre_deps Hassigned Hread.
  split; [intros w; by apply get_value|].
  exists (tracer_line_post H fr loc glo self).
  assert (v ∈ sorted_names (emit_vars_of self line)) as Hv.
  { apply elem_of_sorted_names. unfold emit_vars_of. fold line. set_solver. }
  split; [by apply tracer_line_event|].
  rewrite records_tracer_line_post. split; [done|]. split; [done|].
  intros d Hd. apply elem_of_app. right. unfold new_records.
  apply list_elem_of_In, in_flat_map. exists v. split; [by apply list_elem_of_In|].
  apply list_elem_of_In, list_elem_of_fmap. exists d. split; [done|].
  by apply elem_of_sorted_names.
Qed.

Lemma read_before_write_witness :
  ∃ self',
    tracer host0 (module_frame "/tmp/s.py" 3 {["s"; "x"]}) "line" analyzerS
    = (Ok SelfTracer, self')
    ∧ fmt_record 3 1 "s" "a" ∈ records self'.
Proof.
  destruct (read_before_write host0 (module_frame "/tmp/s.py" 3 {["s"; "x"]})
              (PyDict 2 (run_globals ∪ {["s"; "x"]})) (PyDict 2 (run_globals ∪ {["s"; "x"]}))
              analyzerS "s" eq_refl eq_refl)
    as (_ & self' & Hrun & _ & _ & Hin).
  - vm_compute. reflexivity.
  - vm_compute. reflexivity.
  - exists self'. split; [exact Hrun|]. apply Hin. vm_compute. reflexivity.
Defined.

(** The same event in full: the record of [s] names [a], the only
    dependency [s] had before the line, while the set stored for [s] by
    the line is [{a, s, x}]. *)
Example self_update_reports_prior_deps :
  let self' := (tracer host0 (module_frame "/tmp/s.py" 3 {["s"; "x"]}) "line" analyzerS).2 in
  records self' = ["3,1,s,a"]
  ∧ global_deps self' !! "s" = Some {["a"; "s"; "x"]}.
Proof. vm_compute. split; reflexivity. Qed.

(** ** C5: how a read and a write pick their store *)

(** C5, as amended. A read is resolved by the bindings of the invocation,
    not by which dependency store has an entry: for a name bound in the
    invocation's locals it returns the entry of the global dependency store
    at module level and the entry of the invocation's own dependency store
    otherwise (the empty set when that store has no entry, with no fall
    back to the global one); for a name bound only in the globals it
    returns the entry of the global dependency store; for any other name
    the empty set. A write at module level goes to the global dependency
    store and leaves the per-invocation stores alone; a write in any other
    invocation goes to that invocation's own store and leaves the global
    store alone. *)
Theorem scope_resolution (H : Host) (fr : frame) (loc glo : pydict)
    (name : string) (targets : names) (rhs_names : list string) (self : Analyzer) :
  frame_scope fr = Ok (loc, glo) →
  let fid := frame_id fr in
  (_get_current_deps_for fr name self).1
  = Ok (if bool_decide (name ∈ dict_keys loc) then
          if py_is loc glo then dict_get (global_deps self) name ∅
          else dict_get (dict_get (frame_deps self) fid ∅) name ∅
        else if bool_decide (name ∈ dict_keys glo)
             then dict_get (global_deps self) name ∅
             else ∅)
  ∧ ∃ self' union,
      _set_deps_for_assignment H fr targets rhs_names self = (Ok tt, self')
      ∧ (py_is loc glo = true →
           frame_deps self' = frame_deps self
           ∧ ∀ tgt, tgt ∈ targets → global_deps self' !! tgt = Some union)
      ∧ (py_is loc glo = false →
           global_deps self' = global_deps self
           ∧ ∀ tgt, tgt ∈ targets →
               dict_get (frame_deps self') fid ∅ !! tgt = Some union).
Proof.
  intros Hscope fid. split; [by apply get_value|].
  eexists. eexists.
  split; [apply (set_deps_ok H fr loc glo targets rhs_names self Hscope)|].
  split.
  - intros Hm. split.
    + unfold store_after_assignment. rewrite Hm. by destruct self.
    + intros tgt Hin.
      pose proof (scope_entry_written self fid loc glo targets
                    (union_deps_of self fid loc glo
                       (list_to_set (List.filter (λ n, negb (_is_builtin H n fr)) rhs_names)))
                    (touching loc glo (List.filter (λ n, negb (_is_builtin H n fr)) rhs_names))
                    tgt Hin) as He.
      unfold scope_entry in He. by rewrite Hm in He.
  - intros Hm. split.
    + unfold store_after_assignment, touched. rewrite Hm.
      repeat case_match; by destruct self.
    + intros tgt Hin.
      pose proof (scope_entry_written self fid loc glo targets
                    (union_deps_of self fid loc glo
                       (list_to_set (List.filter (λ n, negb (_is_builtin H n fr)) rhs_names)))
                    (touching loc glo (List.filter (λ n, negb (_is_builtin H n fr)) rhs_names))
                    tgt Hin) as He.
      unfold scope_entry in He. by rewrite Hm in He.
Qed.

Lemma scope_resolution_witness :
  (_get_current_deps_for
     (call_frame 7 "/tmp/f.py" 4 {["a"]} {["a"; "f"]}) "a"
     (analyzer_with "/tmp/f.py" [] ∅ {["a" := {["z"]}]})).1
  = Ok ∅.
Proof.
  exact (proj1 (scope_resolution host0
                  (call_frame 7 "/tmp/f.py" 4 {["a"]} {["a"; "f"]})
                  (PyDict 3 {["a"]}) (PyDict 2 (run_globals ∪ {["a"; "f"]}))
                  "a" ∅ []
                  (analyzer_with "/tmp/f.py" [] ∅ {["a" := {["z"]}]})
                  eq_refl)).
Defined.

(** In a call of [f(a)] made while the global [a] depends on [z], the
    parameter [a] is bound in the locals and has no entry in the store of
    the call: the read returns the empty set, where the lookup chain over
    the stores gives the global entry [{z}]. *)
Lemma resolution_not_by_store :
  frame_scope (call_frame 7 "/tmp/f.py" 4 {["a"]} {["a"; "f"]})
  = Ok (PyDict 3 {["a"]}, PyDict 2 (run_globals ∪ {["a"; "f"]}))
  ∧ (_get_current_deps_for
       (call_frame 7 "/tmp/f.py" 4 {["a"]} {["a"; "f"]}) "a"
       (analyzer_with "/tmp/f.py" [] ∅ {["a" := {["z"]}]})).1
    ≠ Ok (resolve_by_store (analyzer_with "/tmp/f.py" [] ∅ {["a" := {["z"]}]}) 7
            (py_is (PyDict 3 {["a"]}) (PyDict 2 (run_globals ∪ {["a"; "f"]}))) "a").
Proof.
  split; [reflexivity|]. vm_compute. intros E. discriminate E.
Qed.

(** ** C6: builtin names *)

Lemma elem_of_union_deps_of self fid loc glo clean n :
  n ∈ union_deps_of self fid loc glo clean
  ↔ n ∈ clean ∨ ∃ m, m ∈ clean ∧ n ∈ current_deps self fid loc glo m.
Proof.
  unfold union_deps_of. rewrite elem_of_union, elem_of_union_list.
  setoid_rewrite list_elem_of_fmap. setoid_rewrite elem_of_elements.
  naive_solver.
Qed.

(** C6, as amended. A builtin name among the rhs names is excluded as a
    dependency source: it is not added to the union and its own dependency
    set is not read. The assignment does what it does with the builtin
    names removed from the rhs names, and the stored union is exactly the
    rhs names that are not builtins together with their current dependency
    sets. So a builtin name is in the stored union only if it is already in
    the current dependency set of an rhs name that is not a builtin.
    Assigned names are not filtered: every assigned name, builtin or not,
    gets the union as its entry. *)
Theorem builtin_exclusion (H : Host) (fr : frame) (loc glo : pydict)
    (targets : names) (rhs_names : list string) (self : Analyzer) :
  frame_scope fr = Ok (loc, glo) →
  let fid := frame_id fr in
  let cleaned := List.filter (λ n, negb (_is_builtin H n fr)) rhs_names in
  (∀ m, (_get_current_deps_for fr m self).1 = Ok (current_deps self fid loc glo m))
  ∧ _set_deps_for_assignment H fr targets rhs_names self
    = _set_deps_for_assignment H fr targets cleaned self
  ∧ ∃ self' union,
      _set_deps_for_assignment H fr targets rhs_names self = (Ok tt, self')
      ∧ (∀ n, n ∈ union
              ↔ n ∈ cleaned ∨ ∃ m, m ∈ cleaned ∧ n ∈ current_deps self fid loc glo m)
      ∧ (∀ tgt, tgt ∈ targets → scope_entry self' fid loc glo tgt = Some union)
      ∧ (∀ n, _is_builtin H n fr = true → n ∈ union →
           ∃ m, m ∈ rhs_names ∧ _is_builtin H m fr = false
                ∧ n ∈ current_deps self fid loc glo m).
Proof.
  intros Hscope fid cleaned. split; [intros m; by apply get_value|].
  assert (List.filter (λ n, negb (_is_builtin H n fr)) cleaned = cleaned) as Hidem.
  { unfold cleaned. induction rhs_names as [|a l IH]; [done|]. cbn [List.filter].
    destruct (negb (_is_builtin H a fr)) eqn:E; [|done]. cbn [List.filter].
    by rewrite E, IH. }
  split.
  { rewrite (set_deps_ok H fr loc glo targets rhs_names self Hscope).
    rewrite (set_deps_ok H fr loc glo targets cleaned self Hscope). cbv zeta.
    by rewrite Hidem. }
  eexists. eexists.
  split; [apply (set_deps_ok H fr loc glo targets rhs_names self Hscope)|].
  split; [|split].
  - intros n. rewrite elem_of_union_deps_of. setoid_rewrite elem_of_list_to_set. done.
  - intros tgt Hin. by apply scope_entry_written.
  - intros n Hb. subst cleaned. cbv zeta.
    rewrite list_to_set_cleaned, elem_of_union_deps_of.
    unfold clean_rhs. setoid_rewrite elem_of_filter.
    setoid_rewrite elem_of_list_to_set.
    intros [[Hn _]|(m & [Hm Hin] & Hdep)]; [congruence|]. by exists m.
Qed.

(** The line [max = y = x + len] when the stores hold [{a}] for [x] and
    [{q}] for [len]. *)
Lemma builtin_exclusion_witness :
  let fr := module_frame "/tmp/m.py" 2 {["x"]} in
  let loc := PyDict 2 (run_globals ∪ {["x"]}) in
  let self := analyzer_with "/tmp/m.py" [] ∅ {["x" := {["a"]}; "len" := {["q"]}]} in
  let cleaned := List.filter (λ n, negb (_is_builtin host0 n fr)) ["x"; "len"] in
  (∀ m, (_get_current_deps_for fr m self).1 = Ok (current_deps self 1 loc loc m))
  ∧ _set_deps_for_assignment host0 fr {["max"; "y"]} ["x"; "len"] self
    = _set_deps_for_assignment host0 fr {["max"; "y"]} cleaned self
  ∧ ∃ self' union,
      _set_deps_for_assignment host0 fr {["max"; "y"]} ["x"; "len"] self = (Ok tt, self')
      ∧ (∀ n, n ∈ union
              ↔ n ∈ cleaned ∨ ∃ m, m ∈ cleaned ∧ n ∈ current_deps self 1 loc loc m)
      ∧ (∀ tgt, tgt ∈ ({["max"; "y"]} : names) →
                scope_entry self' 1 loc loc tgt = Some union)
      ∧ (∀ n, _is_builtin host0 n fr = true → n ∈ union →
           ∃ m, m ∈ ["x"; "len"] ∧ _is_builtin host0 m fr = false
                ∧ n ∈ current_deps self 1 loc loc m).
Proof.
  exact (builtin_exclusion host0 (module_frame "/tmp/m.py" 2 {["x"]})
           (PyDict 2 (run_globals ∪ {["x"]})) (PyDict 2 (run_globals ∪ {["x"]}))
           {["max"; "y"]} ["x"; "len"]
           (analyzer_with "/tmp/m.py" [] ∅ {["x" := {["a"]}; "len" := {["q"]}]}) eq_refl).
Defined.

(** On that line the set [{q}] stored for the builtin [len] is not read,
    and both targets, the builtin [max] too, get the entry [{x, a}]. *)
Example builtin_rhs_name_is_not_read :
  let fr := module_frame "/tmp/m.py" 2 {["x"]} in
  let self := analyzer_with "/tmp/m.py" [] ∅ {["x" := {["a"]}; "len" := {["q"]}]} in
  global_deps (_set_deps_for_assignment host0 fr {["max"; "y"]} ["x"; "len"] self).2
  = {["x" := {["a"]}; "len" := {["q"]}; "max" := {["x"; "a"]}; "y" := {["x"; "a"]}]}.
Proof. vm_compute. reflexivity. Qed.

(** Both halves of the rule fail as the specification words them. As a
    target: the line [max = x] of a program that uses [max] as a variable
    creates an entry for the builtin name [max]. As a source: on line 4,
    [z = y + foo], of the program [treeBF] the name [foo] is a builtin, and
    it is in the set stored for [z], because it is in the set that line 2
    stored for [y]. *)
Lemma builtin_not_excluded :
  (frame_scope (module_frame "/tmp/m.py" 2 {["x"]})
   = Ok (PyDict 2 (run_globals ∪ {["x"]}), PyDict 2 (run_globals ∪ {["x"]}))
   ∧ _is_builtin host0 "max" (module_frame "/tmp/m.py" 2 {["x"]}) = true
   ∧ ¬ builtin_not_target host0 (module_frame "/tmp/m.py" 2 {["x"]})
         (PyDict 2 (run_globals ∪ {["x"]})) (PyDict 2 (run_globals ∪ {["x"]}))
         {["max"]} ["x"] (analyzer_with "/tmp/m.py" [] ∅ {["x" := ∅]}))
  ∧ (frame_scope
       (module_frame_with {["print"; "len"; "max"; "foo"]} "/tmp/bf.py" 4 {["foo"; "y"]})
     = Ok (PyDict 2 (run_globals ∪ {["foo"; "y"]}), PyDict 2 (run_globals ∪ {["foo"; "y"]}))
     ∧ _is_builtin host0 "foo"
         (module_frame_with {["print"; "len"; "max"; "foo"]} "/tmp/bf.py" 4 {["foo"; "y"]})
       = true
     ∧ ¬ builtin_not_source host0
           (module_frame_with {["print"; "len"; "max"; "foo"]} "/tmp/bf.py" 4 {["foo"; "y"]})
           (PyDict 2 (run_globals ∪ {["foo"; "y"]})) (PyDict 2 (run_globals ∪ {["foo"; "y"]}))
           {["z"]} ["y"; "foo"]
           (analyzer_with "/tmp/bf.py" treeBF ∅ {["foo" := ∅; "y" := {["foo"]}]})).
Proof.
  split.
  - split; [reflexivity|]. split; [reflexivity|]. intros Hclaim.
    pose proof (set_deps_ok host0 (module_frame "/tmp/m.py" 2 {["x"]})
                  (PyDict 2 (run_globals ∪ {["x"]})) (PyDict 2 (run_globals ∪ {["x"]}))
                  {["max"]} ["x"] (analyzer_with "/tmp/m.py" [] ∅ {["x" := ∅]}) eq_refl)
      as Hrun.
    specialize (Hclaim _ Hrun "max" eq_refl).
    vm_compute in Hclaim. discriminate Hclaim.
  - split; [reflexivity|]. split; [reflexivity|]. intros Hclaim.
    pose proof (set_deps_ok host0
                  (module_frame_with {["print"; "len"; "max"; "foo"]} "/tmp/bf.py" 4
                     {["foo"; "y"]})
                  (PyDict 2 (run_globals ∪ {["foo"; "y"]}))
                  (PyDict 2 (run_globals ∪ {["foo"; "y"]}))
                  {["z"]} ["y"; "foo"]
                  (analyzer_with "/tmp/bf.py" treeBF ∅ {["foo" := ∅; "y" := {["foo"]}]})
                  eq_refl) as Hrun.
    apply (Hclaim _ Hrun "foo" eq_refl "z" {["y"; "foo"]}).
    + set_solver.
    + vm_compute. reflexivity.
    + set_solver.
Qed.

(** The stores of the second case are the ones a run of [treeBF] reaches:
    after the run the entry of [z] holds [foo], and line 4 has emitted the
    record that [y] depends on [foo]. *)
Example builtin_reaches_the_store :
  let self' := (run host0 {| events := eventsBF "/tmp/bf.py"; outcome := Completed |}
                  (sys0, __init__ host0 "/tmp/bf.py" treeBF)).2.2 in
  global_deps self' = {["foo" := ∅; "y" := {["foo"]}; "z" := {["y"; "foo"]}]}
  ∧ records self' = ["4,1,y,foo"].
Proof. vm_compute. split; reflexivity. Qed.

(** ** C7: lines without names *)

(** C7, as amended. On a line event for a line of the analyzed file that
    has no used, assigned or rhs entry, the hook returns normally, appends
    no record and leaves both dependency stores as they are; it adds one
    to that line's execution counter and leaves every other counter as it
    is. *)
Theorem unclassified_line (H : Host) (fr : frame) (self : Analyzer) :
  co_filename fr = source_abspath self →
  used_by_line self !! f_lineno fr = None →
  assigned_by_line self !! f_lineno fr = None →
  rhs_by_line self !! f_lineno fr = None →
  ∃ self',
    tracer H fr "line" self = (Ok SelfTracer, self')
    ∧ records self' = records self
    ∧ frame_deps self' = frame_deps self
    ∧ global_deps self' = global_deps self
    ∧ line_exec_count self' !! f_lineno fr
      = Some (dict_get (line_exec_count self) (f_lineno fr) 0 + 1)
    ∧ ∀ other, other ≠ f_lineno fr →
        line_exec_count self' !! other = line_exec_count self !! other.
Proof.
  intros Hfile Hused Hassigned Hrhs.
  assert (emit_vars_of self (f_lineno fr) = ∅) as Hemit.
  { unfold emit_vars_of, dict_get. rewrite Hused, Hassigned, Hrhs. set_solver. }
  assert (dict_get (assigned_by_line self) (f_lineno fr) ∅ = (∅ : names)) as Hnone.
  { unfold dict_get. by rewrite Hassigned. }
  assert (tracer_post H fr "line" self = count_only (f_lineno fr) self) as Hpost.
  { unfold tracer_post. rewrite bool_decide_false by (by intros ?).
    rewrite bool_decide_true by done.
    destruct (frame_scope fr) as [[loc glo]|e].
    - unfold tracer_line_post, new_records, store_post.
      rewrite Hemit, Hnone, sorted_names_empty. simpl.
      unfold truthy. rewrite bool_decide_false by (by intros ?).
      unfold touching_set. rewrite bool_decide_false by set_solver. simpl.
      destruct self; unfold set_records, count_only, set_line_exec_count; simpl.
      by rewrite app_nil_r.
    - by rewrite bool_decide_true. }
  exists (count_only (f_lineno fr) self).
  rewrite tracer_eq, Hpost. split; [done|].
  destruct self as [? ? lec ? ? ? ? ? ?]; simpl. repeat split; try done.
  - apply lookup_insert_eq.
  - intros other Hne. by apply lookup_insert_ne.
Qed.

Lemma unclassified_line_witness :
  ∃ self',
    tracer host0 (module_frame "/tmp/p.py" 1 ∅) "line" (__init__ host0 "/tmp/p.py" [Pass 1])
    = (Ok SelfTracer, self')
    ∧ line_exec_count self' !! 1 = Some 1.
Proof.
  destruct (unclassified_line host0 (module_frame "/tmp/p.py" 1 ∅)
              (__init__ host0 "/tmp/p.py" [Pass 1]) eq_refl eq_refl eq_refl eq_refl)
    as (self' & Hrun & _ & _ & _ & Hcount & _).
  exists self'. split; [exact Hrun|exact Hcount].
Defined.

(** The one-line program [pass]: its line has no classification entry, and
    the line event changes the execution counter of that line. *)
Lemma unclassified_line_is_counted :
  co_filename (module_frame "/tmp/p.py" 1 ∅)
  = source_abspath (__init__ host0 "/tmp/p.py" [Pass 1])
  ∧ used_by_line (__init__ host0 "/tmp/p.py" [Pass 1]) !! 1 = None
  ∧ assigned_by_line (__init__ host0 "/tmp/p.py" [Pass 1]) !! 1 = None
  ∧ rhs_by_line (__init__ host0 "/tmp/p.py" [Pass 1]) !! 1 = None
  ∧ ¬ hook_does_nothing host0 (module_frame "/tmp/p.py" 1 ∅)
        (__init__ host0 "/tmp/p.py" [Pass 1]).
Proof.
  repeat (split; [reflexivity|]).
  intros (_ & _ & _ & Hcount).
  apply (f_equal (λ c : gmap nat nat, c !! 1)) in Hcount.
  vm_compute in Hcount. discriminate Hcount.
Qed.

(** ** C8: exceptions inside the hook *)

Lemma tracer_body_raise H fr event e s self :
  tracer_body H fr event self = (Raise e, s) → s = self.
Proof.
  unfold tracer_body. unfold bind at 1, get_self at 1.
  case_bool_decide; [by intros [=]|].
  case_bool_decide; [|by intros [=]].
  unfold bind at 1.
  destruct (frame_scope fr) as [[loc glo]|e'] eqn:Hscope.
  - rewrite (tracer_line_ok H fr loc glo self Hscope). by intros [=].
  - rewrite (tracer_line_raise H fr e' self Hscope).
    case_bool_decide; [by intros [=]|]. by intros [= _ ->].
Qed.

(** C8. Whatever frame and event the hook is called with, it returns
    normally and returns [self.tracer], so the interpreter keeps tracing;
    if an exception is raised inside its [try] block, the handler is
    reached with [self] exactly as it was when the event began, so that
    occurrence adds no record (and changes neither a store nor a counter);
    and a run of the analyzed program under the hook ends the way the
    program itself ends. *)
Theorem hook_error_recovery (H : Host) (fr : frame) (event : string) (self : Analyzer) :
  (∃ self', tracer H fr event self = (Ok SelfTracer, self'))
  ∧ (∀ e s, tracer_body H fr event self = (Raise e, s) →
       s = self ∧ tracer H fr event self = (Ok SelfTracer, self))
  ∧ (∀ prog sys, (run_path H prog sys self).1 = outcome prog).
Proof.
  split; [|split].
  - eexists. apply tracer_eq.
  - intros e s Hbody. pose proof (tracer_body_raise _ _ _ _ _ _ Hbody) as ->.
    split; [done|]. unfold tracer, try_except. by rewrite Hbody.
  - intros prog sys. by rewrite run_path_eq.
Qed.

Lemma hook_error_recovery_witness :
  tracer host0 (broken_frame "/tmp/a.py" 2) "line" (__init__ host0 "/tmp/a.py" treeA)
  = (Ok SelfTracer, __init__ host0 "/tmp/a.py" treeA).
Proof.
  exact (proj2 (proj1 (proj2 (hook_error_recovery host0 (broken_frame "/tmp/a.py" 2)
                                "line" (__init__ host0 "/tmp/a.py" treeA)))
                  (OtherError "RuntimeError") (__init__ host0 "/tmp/a.py" treeA) eq_refl)).
Defined.

(** The [try] block does raise when the frame's attributes cannot be read
    on a line that has names. *)
Example tracer_body_can_raise :
  tracer_body host0 (broken_frame "/tmp/a.py" 2) "line" (__init__ host0 "/tmp/a.py" treeA)
  = (Raise (OtherError "RuntimeError"), __init__ host0 "/tmp/a.py" treeA).
Proof. vm_compute. reflexivity. Qed.

(** ** C10: what Analyzer.run returns *)

(** C10. [run] always ends by returning [self.records]: the value returned
    is the record list of [self] after the hook has handled every event the
    program reached, whether the program completed or an exception escaped
    it (the result is the same as for a program that reached the same
    events and completed); nothing but the list is returned; and
    [sys.gettrace()] is afterwards what it was before the call. *)
Theorem run_returns_records (H : Host) (prog : behaviour) (sys : sys_state)
    (self : Analyzer) :
  ∃ sys' self',
    run H prog (sys, self) = (Returns (records self'), (sys', self'))
    ∧ self' = (run_events H (Some SelfTracer) ∅ (events prog) self).2
    ∧ sys_trace sys' = sys_trace sys
    ∧ run H prog (sys, self)
      = run H {| events := events prog; outcome := Completed |} (sys, self).
Proof.
  exists (run_sys H sys self), (events_post H (Some SelfTracer) ∅ (events prog) self).
  split; [apply run_eq|]. split; [by rewrite run_events_eq|]. split; [done|].
  by rewrite !run_eq.
Qed.

(** Scenario B stopped by an exception in the first run of its loop body:
    the record written so far is returned, and no exception reaches the
    caller. *)
Example run_after_failure :
  (run host0 {| events := take 4 (eventsB 1 2 "/tmp/b.py");
                outcome := Uncaught "ZeroDivisionError" |}
     ({| sys_trace := Some (ForeignTracer "debugger"); sys_path := [] |},
      __init__ host0 "/tmp/b.py" treeB)).1
  = Returns ["3,1,x,a"].
Proof. vm_compute. reflexivity. Qed.

(** ** C9, C2, C3: runs that show the same behaviour give the same result *)

Lemma run_sim H1 H2 rho t1 t2 tree prog1 prog2 sys1 sys2 :
  (∀ a b, rho a = rho b → a = b) →
  events_sim H1 H2 rho (os_path_abspath H1 t1) (os_path_abspath H2 t2)
    (events prog1) (events prog2) →
  state_sim rho (run H1 prog1 (sys1, __init__ H1 t1 tree)).2.2
                (run H2 prog2 (sys2, __init__ H2 t2 tree)).2.2.
Proof.
  intros Hinj Hev. rewrite (run_eq H1 prog1), (run_eq H2 prog2). cbv zeta. simpl.
  apply events_post_sim; [done|apply init_sim| |done].
  intros fid. by rewrite !lookup_empty.
Qed.

Lemma module_frame_at_sim H1 H2 rho fid did did' p1 p2 line bound :
  frame_sim H1 H2 rho p1 p2
    (module_frame_at fid did p1 line bound)
    (module_frame_at (rho fid) did' p2 line bound).
Proof.
  split; try done.
  simpl. unfold py_is. simpl. by rewrite !bool_decide_true.
Qed.

Lemma eventsA_sim H1 H2 rho fid did did' p1 p2 :
  events_sim H1 H2 rho p1 p2 (eventsA fid did p1) (eventsA (rho fid) did' p2).
Proof. repeat (constructor; [split; [done|apply module_frame_at_sim]|]). constructor. Qed.

Lemma eventsB_sim H1 H2 rho fid did did' p1 p2 :
  events_sim H1 H2 rho p1 p2 (eventsB fid did p1) (eventsB (rho fid) did' p2).
Proof. repeat (constructor; [split; [done|apply module_frame_at_sim]|]). constructor. Qed.

Lemma well_traced_eventsA fid did p : well_traced ∅ (eventsA fid did p).
Proof. simpl. repeat split; set_solver. Qed.

Lemma well_traced_eventsB fid did p : well_traced ∅ (eventsB fid did p).
Proof. simpl. repeat split; set_solver. Qed.

(** A run whose events in the analyzed file are [evs] is, for the analyzer,
    the run of [evs] alone on the host [host0] with the module frame
    renamed to 1. *)
Lemma run_to_host0 H temp_file tree prog sys evs evs0 fid :
  own_events (os_path_abspath H temp_file) (events prog) = evs →
  well_traced ∅ evs →
  events_sim H host0 (rename_to_one fid) (os_path_abspath H temp_file) "/tmp/scenario.py"
    evs evs0 →
  state_sim (rename_to_one fid)
    (run H prog (sys, __init__ H temp_file tree)).2.2
    (run host0 {| events := evs0; outcome := Completed |}
       (sys0, __init__ host0 "/tmp/scenario.py" tree)).2.2.
Proof.
  intros Hown Hwt Hsim.
  rewrite run_own_events by (simpl; by rewrite Hown). simpl source_abspath. rewrite Hown.
  by apply (run_sim H host0 (rename_to_one fid) temp_file "/tmp/scenario.py" tree
              {| events := evs; outcome := Completed |}
              {| events := evs0; outcome := Completed |} sys sys0
              (rename_to_one_inj fid)).
Qed.

Lemma analysis_script_records H temp_file tree prog sys :
  analysis_script H temp_file tree prog sys
  = match result_list (records (run H prog (sys, __init__ H temp_file tree)).2.2) with
    | Ok l => Returns l
    | Raise e => Throw (exception_cls e)
    end.
Proof. unfold analysis_script. by rewrite run_eq. Qed.



(** The correspondence of frame identities matters: the store of a call is
    keyed by [id(frame)] and is never cleared, so a later call whose frame
    gets the identity of an earlier one reads the entries that one left
    behind. *)
Example frame_identity_is_observed :
  analysis_script host0 "/tmp/fg.py" treeFG
    {| events := eventsFG 7 "/tmp/fg.py"; outcome := Completed |} sys0
  = Returns [ {| line := 4; execution := 1; variable := "t"; dependency := "a" |} ]
  ∧ analysis_script host0 "/tmp/fg.py" treeFG
      {| events := eventsFG 8 "/tmp/fg.py"; outcome := Completed |} sys0
    = Returns [].
Proof. split; vm_compute; reflexivity. Qed.


(** What the static pass records for the two scenarios. *)
Example classification_A :
  let self := __init__ host0 "/tmp/a.py" treeA in
  used_by_line self = {[ 2 := {["a"]}; 3 := {["a"; "b"]} ]}
  ∧ assigned_by_line self = {[ 1 := {["a"]}; 2 := {["b"]}; 3 := {["c"]} ]}
  ∧ rhs_by_line self = {[ 1 := ∅; 2 := {["a"]}; 3 := {["a"; "b"]} ]}.
Proof. vm_compute. repeat split; reflexivity. Qed.

Example classification_B :
  let self := __init__ host0 "/tmp/b.py" treeB in
  used_by_line self = {[ 2 := {["a"]}; 3 := {["x"]} ]}
  ∧ assigned_by_line self = {[ 1 := {["a"]}; 2 := {["x"]}; 3 := {["y"]} ]}
  ∧ rhs_by_line self = {[ 1 := ∅; 2 := {["a"]}; 3 := {["x"]} ]}.
Proof. vm_compute. repeat split; reflexivity. Qed.

(** C2. Scenario A. Take any run of the three-line program: any host, any
    identity of the module frame, any events of other files in between,
    any ending. If the events in the analyzed file are those of the three
    lines, the script returns exactly one record, [{line: 3, execution: 1,
    variable: "b", dependency: "a"}]; so line 2 emits nothing and nothing
    is emitted for [c]. At the end [a] has the empty dependency set, which
    is why line 2 emits nothing, and [c] has [{a, b}], which no later line
    reads. *)
Theorem scenario_A (H : Host) (temp_file : string) (sys : sys_state)
    (prog : behaviour) (fid did : positive) :
  own_events (os_path_abspath H temp_file) (events prog)
  = eventsA fid did (os_path_abspath H temp_file) →
  analysis_script H temp_file treeA prog sys
  = Returns [ {| line := 3; execution := 1; variable := "b"; dependency := "a" |} ]
  ∧ global_deps (run H prog (sys, __init__ H temp_file treeA)).2.2
    = {[ "a" := ∅; "b" := {["a"]}; "c" := {["a"; "b"]} ]}.
Proof.
  intros Hown.
  pose proof (eventsA_sim H host0 (rename_to_one fid) fid did 2
                (os_path_abspath H temp_file) "/tmp/scenario.py") as Hev.
  rewrite rename_to_one_eq in Hev.
  pose proof (run_to_host0 H temp_file treeA prog sys _ _ fid Hown
                (well_traced_eventsA _ _ _) Hev) as Hsim.
  rewrite analysis_script_records, (sim_records _ _ _ Hsim), (sim_global _ _ _ Hsim).
  vm_compute. split; reflexivity.
Qed.

Lemma scenario_A_witness :
  analysis_script host_rev "/tmp/a.py" treeA (progA_full "/private/tmp/a.py") sys0
  = Returns [ {| line := 3; execution := 1; variable := "b"; dependency := "a" |} ].
Proof.
  exact (proj1 (scenario_A host_rev "/tmp/a.py" sys0 (progA_full "/private/tmp/a.py")
                  1 2 eq_refl)).
Defined.

(** C3. Scenario B. Take any run of the program: any host, any identity of
    the module frame, any events of other files in between, any ending. If
    the events in the analyzed file are those of the loop run over a
    two-element list, the script returns exactly two records, both for
    line 3 and variable [x] with dependency [a], with execution counts 1
    and 2 in this order; no record is for the loop header on line 2, which
    is reached three times, and line 3 is reached twice. *)
Theorem scenario_B (H : Host) (temp_file : string) (sys : sys_state)
    (prog : behaviour) (fid did : positive) :
  own_events (os_path_abspath H temp_file) (events prog)
  = eventsB fid did (os_path_abspath H temp_file) →
  analysis_script H temp_file treeB prog sys
  = Returns [ {| line := 3; execution := 1; variable := "x"; dependency := "a" |};
              {| line := 3; execution := 2; variable := "x"; dependency := "a" |} ]
  ∧ line_exec_count (run H prog (sys, __init__ H temp_file treeB)).2.2
    = {[ 1 := 1; 2 := 3; 3 := 2 ]}.
Proof.
  intros Hown.
  pose proof (eventsB_sim H host0 (rename_to_one fid) fid did 2
                (os_path_abspath H temp_file) "/tmp/scenario.py") as Hev.
  rewrite rename_to_one_eq in Hev.
  pose proof (run_to_host0 H temp_file treeB prog sys _ _ fid Hown
                (well_traced_eventsB _ _ _) Hev) as Hsim.
  rewrite analysis_script_records, (sim_records _ _ _ Hsim), (sim_count _ _ _ Hsim).
  vm_compute. split; reflexivity.
Qed.

Lemma scenario_B_witness :
  analysis_script host_rev "/tmp/b.py" treeB (progB_full "/private/tmp/b.py") sys0
  = Returns [ {| line := 3; execution := 1; variable := "x"; dependency := "a" |};
              {| line := 3; execution := 2; variable := "x"; dependency := "a" |} ].
Proof.
  exact (proj1 (scenario_B host_rev "/tmp/b.py" sys0 (progB_full "/private/tmp/b.py")
                  1 2 eq_refl)).
Defined.

(** Scenario B event by event on [host0]: the record list after each prefix
    of the events. The three visits of the loop header (events 3, 5
    and 7) add nothing. *)
Example scenario_B_stepwise :
  (λ k, records (run host0 {| events := take k (eventsB 1 2 "/tmp/b.py");
                              outcome := Completed |}
                   (sys0, __init__ host0 "/tmp/b.py" treeB)).2.2)
    <$> [2; 3; 4; 5; 6; 7]
  = [ []; []; ["3,1,x,a"]; ["3,1,x,a"]; ["3,1,x,a"; "3,2,x,a"];
      ["3,1,x,a"; "3,2,x,a"] ].
Proof. vm_compute. reflexivity. Qed.

(** * More properties of the program *)

(** ** The static pass *)

Lemma expr_nested_ind (P : expr → Prop) :
  (∀ l id ctx, P (Name l id ctx)) →
  (∀ l, P (Constant l)) →
  (∀ l a b, P a → P b → P (BinOp l a b)) →
  (∀ l f args, P f → Forall P args → P (Call l f args)) →
  (∀ l elts ctx, Forall P elts → P (ListE l elts ctx)) →
  (∀ l elts ctx, Forall P elts → P (TupleE l elts ctx)) →
  (∀ l v s ctx, P v → P s → P (Subscript l v s ctx)) →
  (∀ l v attr ctx, P v → P (Attribute l v attr ctx)) →
  ∀ e, P e.
Proof.
  intros HName HConst HBin HCall HList HTuple HSub HAttr.
  fix IH 1. intros [l id ctx|l|l a b|l f args|l elts ctx|l elts ctx|l v s ctx|l v attr ctx].
  - apply HName.
  - apply HConst.
  - apply HBin; apply IH.
  - apply HCall; [apply IH|]. induction args as [|a args IHargs]; constructor;
      [apply IH|apply IHargs].
  - apply HList. induction elts as [|a elts IHelts]; constructor; [apply IH|apply IHelts].
  - apply HTuple. induction elts as [|a elts IHelts]; constructor; [apply IH|apply IHelts].
  - apply HSub; apply IH.
  - apply HAttr; apply IH.
Qed.

Lemma stmt_nested_ind (P : stmt → Prop) :
  (∀ l targets value, P (Assign l targets value)) →
  (∀ l target annotation value, P (AnnAssign l target annotation value)) →
  (∀ l target value, P (AugAssign l target value)) →
  (∀ l target iter body orelse,
     Forall P body → Forall P orelse → P (For l target iter body orelse)) →
  (∀ l items body, Forall P body → P (With l items body)) →
  (∀ l test body orelse, Forall P body → Forall P orelse → P (If l test body orelse)) →
  (∀ l test body orelse, Forall P body → Forall P orelse → P (While l test body orelse)) →
  (∀ l name params body, Forall P body → P (FunctionDef l name params body)) →
  (∀ l value, P (Return l value)) →
  (∀ l value, P (ExprStmt l value)) →
  (∀ l, P (Pass l)) →
  ∀ s, P s.
Proof.
  intros HAssign HAnn HAug HFor HWith HIf HWhile HDef HRet HExpr HPass.
  fix IH 1.
  assert (∀ body, Forall P body) as Hbody.
  { intros body. induction body as [|s body IHbody]; constructor; [apply IH|apply IHbody]. }
  intros [l ts v|l t a v|l t v|l t i b o|l items b|l t b o|l t b o|l n ps b|l v|l v|l].
  - apply HAssign.
  - apply HAnn.
  - apply HAug.
  - apply HFor; apply Hbody.
  - apply HWith; apply Hbody.
  - apply HIf; apply Hbody.
  - apply HWhile; apply Hbody.
  - apply HDef; apply Hbody.
  - apply HRet.
  - apply HExpr.
  - apply HPass.
Qed.

Lemma elem_of_flat_map {A B} (f : A → list B) (l : list A) (y : B) :
  y ∈ flat_map f l ↔ ∃ a, a ∈ l ∧ y ∈ f a.
Proof.
  rewrite list_elem_of_In, in_flat_map. setoid_rewrite list_elem_of_In. done.
Qed.

Lemma dict_get_ior d l s l' :
  dict_get (LineVarCollector.ior d l s) l' ∅
  = dict_get d l' ∅ ∪ (if decide (l = l') then s else ∅).
Proof.
  unfold LineVarCollector.ior. unfold dict_get at 1.
  destruct (decide (l = l')) as [->|Hne].
  - by rewrite lookup_insert_eq.
  - rewrite lookup_insert_ne by done. unfold dict_get. set_solver.
Qed.

Lemma adds_id : adds (λ c, c) (λ _ _, False) (λ _ _, False) (λ _ _, False).
Proof. intros c. naive_solver. Qed.

Lemma adds_ext f QU QA QR QU' QA' QR' :
  adds f QU QA QR →
  (∀ l x, QU l x ↔ QU' l x) → (∀ l x, QA l x ↔ QA' l x) → (∀ l x, QR l x ↔ QR' l x) →
  adds f QU' QA' QR'.
Proof.
  intros Hf HU HA HR c. destruct (Hf c) as (H1 & H2 & H3 & H4).
  split; [|split; [|split]]; [| | |done].
  - intros l x. rewrite H1, HU. done.
  - intros l x. rewrite H2, HA. done.
  - intros l x. rewrite H3, HR. done.
Qed.

Lemma adds_compose f g QU QA QR QU' QA' QR' :
  adds f QU QA QR → adds g QU' QA' QR' →
  adds (λ c, g (f c)) (λ l x, QU l x ∨ QU' l x) (λ l x, QA l x ∨ QA' l x)
    (λ l x, QR l x ∨ QR' l x).
Proof.
  intros Hf Hg c. destruct (Hf c) as (F1 & F2 & F3 & F4).
  destruct (Hg (f c)) as (G1 & G2 & G3 & G4).
  split; [|split; [|split]].
  - intros l x. rewrite G1, F1. tauto.
  - intros l x. rewrite G2, F2. tauto.
  - intros l x. rewrite G3, F3. tauto.
  - by rewrite G4.
Qed.

Lemma adds_fold {A} (F : A → LineVarCollector.t → LineVarCollector.t)
    (QU QA QR : A → nat → string → Prop) (xs : list A) :
  Forall (λ a, adds (F a) (QU a) (QA a) (QR a)) xs →
  adds (fold_left (λ c a, F a c) xs)
    (λ l x, ∃ a, a ∈ xs ∧ QU a l x) (λ l x, ∃ a, a ∈ xs ∧ QA a l x)
    (λ l x, ∃ a, a ∈ xs ∧ QR a l x).
Proof.
  induction 1 as [|a xs Ha _ IH].
  - eapply adds_ext; [apply adds_id|..]; intros l x; split; try done;
      intros (a & Ha & _); by apply not_elem_of_nil in Ha.
  - simpl. eapply adds_ext; [apply (adds_compose _ _ _ _ _ _ _ _ Ha IH)|..];
      intros l x; simpl; setoid_rewrite elem_of_cons; naive_solver.
Qed.

Lemma adds_ior_used line s :
  adds (LineVarCollector.ior_used line s) (λ l x, l = line ∧ x ∈ s)
    (λ _ _, False) (λ _ _, False).
Proof.
  intros c. simpl. split; [|naive_solver].
  intros l x. rewrite dict_get_ior. case_decide; set_solver.
Qed.

Lemma adds_ior_assigned line s :
  adds (LineVarCollector.ior_assigned line s) (λ _ _, False)
    (λ l x, l = line ∧ x ∈ s) (λ _ _, False).
Proof.
  intros c. simpl. split; [naive_solver|]. split; [|naive_solver].
  intros l x. rewrite dict_get_ior. case_decide; set_solver.
Qed.

Lemma adds_ior_rhs line s :
  adds (LineVarCollector.ior_rhs line s) (λ _ _, False) (λ _ _, False)
    (λ l x, l = line ∧ x ∈ s).
Proof.
  intros c. simpl. split; [naive_solver|]. split; [naive_solver|]. split; [|done].
  intros l x. rewrite dict_get_ior. case_decide; set_solver.
Qed.

Lemma adds_visit_expr e :
  adds (LineVarCollector.visit_expr e)
    (λ l x, Name l x Load ∈ walk e) (λ l x, Name l x Store ∈ walk e) (λ _ _, False).
Proof.
  induction e as [line id ctx|line|line a b IHa IHb|line f args IHf IHargs
                 |line elts ctx IH|line elts ctx IH|line v s ctx IHv IHs
                 |line v attr ctx IHv] using expr_nested_ind.
  - destruct ctx; simpl.
    + eapply adds_ext; [apply adds_ior_used|..]; intros l x; simpl;
        rewrite ?list_elem_of_singleton, ?elem_of_singleton; naive_solver.
    + eapply adds_ext; [apply adds_ior_assigned|..]; intros l x; simpl;
        rewrite ?list_elem_of_singleton, ?elem_of_singleton; naive_solver.
    + eapply adds_ext; [apply adds_id|..]; intros l x; simpl;
        rewrite ?list_elem_of_singleton; naive_solver.
  - eapply adds_ext; [apply adds_id|..]; intros l x; simpl;
      rewrite ?list_elem_of_singleton; naive_solver.
  - eapply adds_ext; [apply (adds_compose _ _ _ _ _ _ _ _ IHa IHb)|..];
      intros l x; simpl; rewrite ?elem_of_cons, ?elem_of_app; naive_solver.
  - eapply adds_ext;
      [apply (adds_compose _ _ _ _ _ _ _ _ IHf (adds_fold _ _ _ _ _ IHargs))|..];
      intros l x; simpl; rewrite ?elem_of_cons, ?elem_of_app, ?elem_of_flat_map;
      naive_solver.
  - eapply adds_ext; [apply (adds_fold _ _ _ _ _ IH)|..];
      intros l x; simpl; rewrite ?elem_of_cons, ?elem_of_flat_map; naive_solver.
  - eapply adds_ext; [apply (adds_fold _ _ _ _ _ IH)|..];
      intros l x; simpl; rewrite ?elem_of_cons, ?elem_of_flat_map; naive_solver.
  - eapply adds_ext; [apply (adds_compose _ _ _ _ _ _ _ _ IHv IHs)|..];
      intros l x; simpl; rewrite ?elem_of_cons, ?elem_of_app; naive_solver.
  - eapply adds_ext; [apply IHv|..];
      intros l x; simpl; rewrite ?elem_of_cons; naive_solver.
Qed.

Lemma union_list_map {A} (f : A → names) (xs : list A) :
  ⋃ (List.map f xs) = ⋃ (f <$> xs).
Proof. induction xs as [|a xs IH]; simpl; [done|by rewrite IH]. Qed.

Lemma elem_of_union_list_fmap {A} (f : A → names) (xs : list A) (x : string) :
  x ∈ ⋃ (f <$> xs) ↔ ∃ a, a ∈ xs ∧ x ∈ f a.
Proof.
  rewrite elem_of_union_list. setoid_rewrite list_elem_of_fmap. naive_solver.
Qed.

Lemma adds_visit_opt_expr e :
  adds (LineVarCollector.visit_opt_expr e)
    (λ l x, Name l x Load ∈ flat_map walk (option_list e))
    (λ l x, Name l x Store ∈ flat_map walk (option_list e)) (λ _ _, False).
Proof.
  destruct e as [e|]; simpl.
  - eapply adds_ext; [apply adds_visit_expr|..]; intros l x; simpl;
      rewrite ?app_nil_r; done.
  - eapply adds_ext; [apply adds_id|..]; intros l x; simpl;
      rewrite ?elem_of_nil; done.
Qed.

Lemma adds_visit_exprs es :
  adds (fold_left (λ c a, LineVarCollector.visit_expr a c) es)
    (λ l x, Name l x Load ∈ flat_map walk es)
    (λ l x, Name l x Store ∈ flat_map walk es) (λ _ _, False).
Proof.
  eapply adds_ext.
  - apply (adds_fold LineVarCollector.visit_expr
             (λ e l x, Name l x Load ∈ walk e) (λ e l x, Name l x Store ∈ walk e)
             (λ _ _ _, False)).
    apply Forall_forall. intros e _. apply adds_visit_expr.
  - intros l x. by rewrite elem_of_flat_map.
  - intros l x. by rewrite elem_of_flat_map.
  - intros l x. naive_solver.
Qed.

Lemma adds_Assign_head line targets value :
  adds (LineVarCollector.visit_Assign_head line targets value) (λ _ _, False)
    (λ l x, l = line ∧ x ∈ binds (Assign line targets value))
    (λ l x, l = line ∧ x ∈ reads (Assign line targets value)).
Proof.
  unfold LineVarCollector.visit_Assign_head. cbv zeta. simpl binds. simpl reads.
  rewrite union_list_map. unfold truthy. case_bool_decide as Hne.
  - eapply adds_ext;
      [apply (adds_compose _ _ _ _ _ _ _ _ (adds_ior_assigned _ _) (adds_ior_rhs _ _))|..];
      intros l x; simpl; naive_solver.
  - rewrite Hne.
    eapply adds_ext; [apply adds_ior_rhs|..]; intros l x; simpl; set_solver.
Qed.

Lemma adds_AnnAssign_head line target annotation value :
  adds (LineVarCollector.visit_AnnAssign_head line target value) (λ _ _, False)
    (λ l x, l = line ∧ x ∈ binds (AnnAssign line target annotation value))
    (λ l x, l = line ∧ x ∈ reads (AnnAssign line target annotation value)).
Proof.
  destruct value as [v|]; simpl.
  - eapply adds_ext;
      [apply (adds_compose _ _ _ _ _ _ _ _ (adds_ior_assigned _ _) (adds_ior_rhs _ _))|..];
      intros l x; simpl; naive_solver.
  - eapply adds_ext; [apply adds_id|..]; intros l x; simpl; set_solver.
Qed.

Lemma adds_AugAssign_head line target value :
  adds (LineVarCollector.visit_AugAssign_head line target value) (λ _ _, False)
    (λ l x, l = line ∧ x ∈ binds (AugAssign line target value))
    (λ l x, l = line ∧ x ∈ reads (AugAssign line target value)).
Proof.
  unfold LineVarCollector.visit_AugAssign_head. cbv zeta.
  eapply adds_ext;
    [apply (adds_compose _ _ _ _ _ _ _ _
              (adds_compose _ _ _ _ _ _ _ _ (adds_ior_assigned _ _) (adds_ior_rhs _ _))
              (adds_ior_rhs _ _))|..];
    intros l x; simpl; set_solver.
Qed.

Lemma adds_For_head line target iter body orelse :
  adds (LineVarCollector.visit_For_head line target iter) (λ _ _, False)
    (λ l x, l = line ∧ x ∈ binds (For line target iter body orelse))
    (λ l x, l = line ∧ x ∈ reads (For line target iter body orelse)).
Proof.
  unfold LineVarCollector.visit_For_head.
  eapply adds_ext;
    [apply (adds_compose _ _ _ _ _ _ _ _ (adds_ior_assigned _ _) (adds_ior_rhs _ _))|..];
    intros l x; simpl; naive_solver.
Qed.

Lemma adds_With_head line items body :
  adds (LineVarCollector.visit_With_head line items) (λ _ _, False)
    (λ l x, l = line ∧ x ∈ binds (With line items body))
    (λ l x, l = line ∧ x ∈ reads (With line items body)).
Proof.
  unfold LineVarCollector.visit_With_head. simpl binds. simpl reads.
  eapply adds_ext.
  - apply (adds_fold
             (λ item c,
                LineVarCollector.ior_rhs line (LineVarCollector._value_names item.1)
                  match item.2 with
                  | Some optional_vars =>
                      LineVarCollector.ior_assigned line
                        (LineVarCollector._targets_names optional_vars) c
                  | None => c
                  end)
             (λ _ _ _, False)
             (λ item l x,
                l = line ∧ x ∈ from_option LineVarCollector._targets_names ∅ item.2)
             (λ item l x, l = line ∧ x ∈ LineVarCollector._value_names item.1)).
    apply Forall_forall. intros [e [o|]] _; simpl.
    + eapply adds_ext;
        [apply (adds_compose _ _ _ _ _ _ _ _ (adds_ior_assigned _ _) (adds_ior_rhs _ _))|..];
        intros l x; simpl; naive_solver.
    + eapply adds_ext; [apply adds_ior_rhs|..]; intros l x; simpl; set_solver.
  - intros l x. naive_solver.
  - intros l x. rewrite elem_of_union_list_fmap. naive_solver.
  - intros l x. rewrite elem_of_union_list_fmap. naive_solver.
Qed.

Lemma adds_visit_body body :
  Forall stmt_adds body →
  adds (fold_left (λ c s, LineVarCollector.visit_stmt s c) body)
    (λ l x, Name l x Load ∈ flat_map walk (flat_map stmt_exprs body))
    (λ l x, Name l x Store ∈ flat_map walk (flat_map stmt_exprs body)
            ∨ ∃ s', s' ∈ flat_map sub_stmts body ∧ stmt_lineno s' = l ∧ x ∈ binds s')
    (λ l x, ∃ s', s' ∈ flat_map sub_stmts body ∧ stmt_lineno s' = l ∧ x ∈ reads s').
Proof.
  intros Hbody. eapply adds_ext.
  - apply (adds_fold LineVarCollector.visit_stmt _ _ _ _ Hbody).
  - intros l x. simpl. repeat setoid_rewrite elem_of_flat_map. naive_solver.
  - intros l x. simpl. repeat setoid_rewrite elem_of_flat_map. naive_solver.
  - intros l x. simpl. repeat setoid_rewrite elem_of_flat_map. naive_solver.
Qed.

Lemma ex_elem_of_cons {A} (P Q : A → Prop) (a : A) :
  (∃ a', (a' = a ∨ Q a') ∧ P a') ↔ P a ∨ ∃ a', Q a' ∧ P a'.
Proof. naive_solver. Qed.

Lemma ex_elem_of_nil {A} (P : A → Prop) : (∃ a', False ∧ P a') ↔ False.
Proof. naive_solver. Qed.

Local Ltac mem_solver :=
  intros ? ?; cbn [stmt_exprs sub_stmts flat_map app option_list];
  rewrite ?flat_map_app, ?app_nil_r;
  repeat (setoid_rewrite elem_of_app || setoid_rewrite elem_of_cons
          || setoid_rewrite elem_of_nil);
  repeat (setoid_rewrite ex_elem_of_cons || setoid_rewrite ex_elem_of_nil);
  cbn [stmt_lineno binds reads]; rewrite ?elem_of_empty;
  naive_solver.

Lemma elem_of_items_nodes (items : list (expr * option expr)) (n : expr) :
  n ∈ flat_map walk (flat_map (λ item, item.1 :: option_list item.2) items)
  ↔ ∃ item, item ∈ items ∧ n ∈ (walk item.1 ++ flat_map walk (option_list item.2))%list.
Proof.
  repeat setoid_rewrite elem_of_flat_map. split.
  - intros (e & (item & Hin & He) & Hx). exists item. split; [done|].
    apply elem_of_app. apply elem_of_cons in He as [->|He]; [by left|right].
    apply elem_of_flat_map. eauto.
  - intros (item & Hin & Hx). apply elem_of_app in Hx as [Hx|Hx].
    + exists item.1. split; [|done]. exists item. split; [done|].
      apply elem_of_cons. by left.
    + apply elem_of_flat_map in Hx as (e & He & Hx). exists e. split; [|done].
      exists item. split; [done|]. apply elem_of_cons. by right.
Qed.

Lemma adds_visit_items (items : list (expr * option expr)) :
  adds (fold_left (λ c item,
          LineVarCollector.visit_opt_expr item.2 (LineVarCollector.visit_expr item.1 c))
          items)
    (λ l x, Name l x Load
            ∈ flat_map walk (flat_map (λ item, item.1 :: option_list item.2) items))
    (λ l x, Name l x Store
            ∈ flat_map walk (flat_map (λ item, item.1 :: option_list item.2) items))
    (λ _ _, False).
Proof.
  eapply adds_ext.
  - apply (adds_fold
             (λ item c, LineVarCollector.visit_opt_expr item.2
                          (LineVarCollector.visit_expr item.1 c))
             (λ item l x,
                Name l x Load ∈ (walk item.1 ++ flat_map walk (option_list item.2))%list)
             (λ item l x,
                Name l x Store ∈ (walk item.1 ++ flat_map walk (option_list item.2))%list)
             (λ _ _ _, False)).
    apply Forall_forall. intros [e o] _. cbn [fst snd].
    eapply adds_ext;
      [apply (adds_compose _ _ _ _ _ _ _ _ (adds_visit_expr e) (adds_visit_opt_expr o))|..];
      intros l x; simpl; rewrite ?elem_of_app; naive_solver.
  - intros l x. by rewrite elem_of_items_nodes.
  - intros l x. by rewrite elem_of_items_nodes.
  - intros l x. naive_solver.
Qed.

Lemma adds_visit_stmt s : stmt_adds s.
Proof.
  induction s as [line targets value|line target annotation value|line target value
                 |line target iter body orelse IHbody IHorelse
                 |line items body IHbody
                 |line test body orelse IHbody IHorelse
                 |line test body orelse IHbody IHorelse
                 |line name params body IHbody
                 |line value|line value|line] using stmt_nested_ind;
    unfold stmt_adds; cbn [LineVarCollector.visit_stmt]; cbv zeta.
  - eapply adds_ext;
      [apply (adds_compose _ _ _ _ _ _ _ _ (adds_Assign_head line targets value)
                (adds_compose _ _ _ _ _ _ _ _ (adds_visit_exprs targets)
                   (adds_visit_expr value)))|..]; mem_solver.
  - eapply adds_ext;
      [apply (adds_compose _ _ _ _ _ _ _ _
                (adds_AnnAssign_head line target annotation value)
                (adds_compose _ _ _ _ _ _ _ _
                   (adds_compose _ _ _ _ _ _ _ _ (adds_visit_expr target)
                      (adds_visit_expr annotation))
                   (adds_visit_opt_expr value)))|..]; mem_solver.
  - eapply adds_ext;
      [apply (adds_compose _ _ _ _ _ _ _ _ (adds_AugAssign_head line target value)
                (adds_compose _ _ _ _ _ _ _ _ (adds_visit_expr target)
                   (adds_visit_expr value)))|..]; mem_solver.
  - eapply adds_ext;
      [apply (adds_compose _ _ _ _ _ _ _ _
                (adds_For_head line target iter body orelse)
                (adds_compose _ _ _ _ _ _ _ _
                   (adds_compose _ _ _ _ _ _ _ _
                      (adds_compose _ _ _ _ _ _ _ _ (adds_visit_expr target)
                         (adds_visit_expr iter))
                      (adds_visit_body body IHbody))
                   (adds_visit_body orelse IHorelse)))|..]; mem_solver.
  - eapply adds_ext;
      [apply (adds_compose _ _ _ _ _ _ _ _ (adds_With_head line items body)
                (adds_compose _ _ _ _ _ _ _ _ (adds_visit_items items)
                   (adds_visit_body body IHbody)))|..]; mem_solver.
  - eapply adds_ext;
      [apply (adds_compose _ _ _ _ _ _ _ _
                (adds_compose _ _ _ _ _ _ _ _ (adds_visit_expr test)
                   (adds_visit_body body IHbody))
                (adds_visit_body orelse IHorelse))|..]; mem_solver.
  - eapply adds_ext;
      [apply (adds_compose _ _ _ _ _ _ _ _
                (adds_compose _ _ _ _ _ _ _ _ (adds_visit_expr test)
                   (adds_visit_body body IHbody))
                (adds_visit_body orelse IHorelse))|..]; mem_solver.
  - eapply adds_ext; [apply (adds_visit_body body IHbody)|..]; mem_solver.
  - eapply adds_ext; [apply (adds_visit_opt_expr value)|..]; mem_solver.
  - eapply adds_ext; [apply (adds_visit_expr value)|..]; mem_solver.
  - eapply adds_ext; [apply adds_id|..]; mem_solver.
Qed.

Lemma adds_visit tree :
  adds (LineVarCollector.visit tree)
    (λ l x, Name l x Load ∈ tree_nodes tree)
    (λ l x, Name l x Store ∈ tree_nodes tree
            ∨ ∃ s, s ∈ flat_map sub_stmts tree ∧ stmt_lineno s = l ∧ x ∈ binds s)
    (λ l x, ∃ s, s ∈ flat_map sub_stmts tree ∧ stmt_lineno s = l ∧ x ∈ reads s).
Proof.
  apply adds_visit_body, Forall_forall. intros s _. apply adds_visit_stmt.
Qed.

Lemma elem_of_names_in ctx_types node x :
  x ∈ LineVarCollector._names_in ctx_types node
  ↔ ∃ l ctx, Name l x ctx ∈ walk node ∧ ctx_types ctx = true.
Proof.
  induction node as [line id ctx|line|line a b IHa IHb|line f args IHf IHargs
                    |line elts ctx IH|line elts ctx IH|line v s ctx IHv IHs
                    |line v attr ctx IHv] using expr_nested_ind;
    cbn [LineVarCollector._names_in walk].
  - setoid_rewrite list_elem_of_singleton. destruct (ctx_types ctx) eqn:E.
    + rewrite elem_of_singleton. split.
      * intros ->. by exists line, ctx.
      * by intros (l & c & [= _ -> _] & _).
    + rewrite elem_of_empty. split; [done|].
      intros (l & c & [= _ _ ->] & Hc). congruence.
  - rewrite elem_of_empty. setoid_rewrite list_elem_of_singleton. naive_solver.
  - rewrite elem_of_union, IHa, IHb. setoid_rewrite elem_of_cons.
    setoid_rewrite elem_of_app. naive_solver.
  - rewrite elem_of_union, IHf, union_list_map, elem_of_union_list_fmap.
    setoid_rewrite elem_of_cons. setoid_rewrite elem_of_app.
    setoid_rewrite elem_of_flat_map. rewrite Forall_forall in IHargs.
    split.
    + intros [(l & ctx & Hin & Hc)|(a & Ha & Hx)]; [naive_solver|].
      apply IHargs in Hx as (l & ctx & Hin & Hc); naive_solver.
    + intros (l & ctx & [?|[Hin|(a & Ha & Hin)]] & Hc); [done|naive_solver|].
      right. exists a. split; [done|]. apply IHargs; naive_solver.
  - rewrite union_list_map, elem_of_union_list_fmap.
    setoid_rewrite elem_of_cons. setoid_rewrite elem_of_flat_map.
    rewrite Forall_forall in IH. split.
    + intros (a & Ha & Hx). apply IH in Hx as (l & c & Hin & Hc); naive_solver.
    + intros (l & c & [?|(a & Ha & Hin)] & Hc); [done|].
      exists a. split; [done|]. apply IH; naive_solver.
  - rewrite union_list_map, elem_of_union_list_fmap.
    setoid_rewrite elem_of_cons. setoid_rewrite elem_of_flat_map.
    rewrite Forall_forall in IH. split.
    + intros (a & Ha & Hx). apply IH in Hx as (l & c & Hin & Hc); naive_solver.
    + intros (l & c & [?|(a & Ha & Hin)] & Hc); [done|].
      exists a. split; [done|]. apply IH; naive_solver.
  - rewrite elem_of_union, IHv, IHs. setoid_rewrite elem_of_cons.
    setoid_rewrite elem_of_app. naive_solver.
  - rewrite IHv. setoid_rewrite elem_of_cons. naive_solver.
Qed.

Lemma fold_left_insert_lookup {V} (f : nat → V) (ls : list nat) (m : gmap nat V) k :
  fold_left (λ all line, <[line := f line]> all) ls m !! k
  = if decide (k ∈ ls) then Some (f k) else m !! k.
Proof.
  revert m. induction ls as [|l ls IH]; intros m; cbn [fold_left].
  - destruct (decide (k ∈ [])) as [Hin|]; [by apply not_elem_of_nil in Hin|done].
  - rewrite IH. destruct (decide (k ∈ ls)) as [Hin|Hnin].
    + rewrite decide_True by (apply elem_of_cons; by right). done.
    + destruct (decide (k = l)) as [->|Hne].
      * rewrite lookup_insert_eq. rewrite decide_True by (apply elem_of_cons; by left). done.
      * rewrite lookup_insert_ne by done.
        rewrite decide_False; [done|]. rewrite elem_of_cons. naive_solver.
Qed.

Lemma init_used H source_path tree l x :
  x ∈ dict_get (used_by_line (__init__ H source_path tree)) l ∅
  ↔ Name l x Load ∈ tree_nodes tree.
Proof.
  cbn [__init__ used_by_line LineVarCollector.finalize LineVarCollector.used_by_line].
  destruct (adds_visit tree LineVarCollector.init) as (HU & _).
  rewrite HU. cbn. unfold dict_get. rewrite lookup_empty. set_solver.
Qed.

Lemma init_assigned H source_path tree l x :
  x ∈ dict_get (assigned_by_line (__init__ H source_path tree)) l ∅
  ↔ Name l x Store ∈ tree_nodes tree
    ∨ ∃ s, s ∈ flat_map sub_stmts tree ∧ stmt_lineno s = l ∧ x ∈ binds s.
Proof.
  cbn [__init__ assigned_by_line LineVarCollector.finalize
       LineVarCollector.assigned_by_line].
  destruct (adds_visit tree LineVarCollector.init) as (_ & HA & _).
  rewrite HA. cbn. unfold dict_get at 1. rewrite lookup_empty. set_solver.
Qed.

Lemma init_rhs H source_path tree l x :
  x ∈ dict_get (rhs_by_line (__init__ H source_path tree)) l ∅
  ↔ ∃ s, s ∈ flat_map sub_stmts tree ∧ stmt_lineno s = l ∧ x ∈ reads s.
Proof.
  cbn [__init__ rhs_by_line LineVarCollector.finalize LineVarCollector.rhs_by_line].
  destruct (adds_visit tree LineVarCollector.init) as (_ & _ & HR & _).
  rewrite HR. cbn. unfold dict_get at 1. rewrite lookup_empty. set_solver.
Qed.

(** ** The static pass *)

(** X1. [_names_in(node, ctx_types)] is the set of the ids of the [Name]
    nodes that [ast.walk(node)] reaches and whose context is one of
    [ctx_types]: nothing else is collected and no such node is missed. *)
Theorem names_in_walk (ctx_types : expr_context → bool) (node : expr) (x : string) :
  x ∈ LineVarCollector._names_in ctx_types node
  ↔ ∃ l ctx, Name l x ctx ∈ walk node ∧ ctx_types ctx = true.
Proof. apply elem_of_names_in. Qed.

(** X2. After [Analyzer.__init__], a name is in [used_by_line] at a line
    exactly when the tree has a [Name] node of that id in [Load] context
    whose [lineno] is that line. *)
Theorem used_by_line_spec (H : Host) (source_path : string) (tree : list stmt)
    (l : nat) (x : string) :
  x ∈ dict_get (used_by_line (__init__ H source_path tree)) l ∅
  ↔ Name l x Load ∈ tree_nodes tree.
Proof. apply init_used. Qed.

(** X3. After [Analyzer.__init__], a name is in [assigned_by_line] at a line
    exactly when the tree has a [Name] node of that id in [Store] context
    on that line, or a binding statement (assignment, annotated assignment
    with a value, augmented assignment, [for], [with]) whose own [lineno] is
    that line binds it. So the target of a statement that spans several
    lines is assigned on the line of the statement and on its own line. *)
Theorem assigned_by_line_spec (H : Host) (source_path : string) (tree : list stmt)
    (l : nat) (x : string) :
  x ∈ dict_get (assigned_by_line (__init__ H source_path tree)) l ∅
  ↔ Name l x Store ∈ tree_nodes tree
    ∨ ∃ s, s ∈ flat_map sub_stmts tree ∧ stmt_lineno s = l ∧ x ∈ binds s.
Proof. apply init_assigned. Qed.

(** X4. After [Analyzer.__init__], a name is in [rhs_by_line] at a line
    exactly when a binding statement whose [lineno] is that line reads it:
    it occurs in [Load] context in the value (the iterable of a [for], a
    context expression of a [with]), or anywhere in the target of an
    augmented assignment. A statement of another kind (a call, a
    condition, a [return]) adds nothing to [rhs_by_line]. *)
Theorem rhs_by_line_spec (H : Host) (source_path : string) (tree : list stmt)
    (l : nat) (x : string) :
  x ∈ dict_get (rhs_by_line (__init__ H source_path tree)) l ∅
  ↔ ∃ s, s ∈ flat_map sub_stmts tree ∧ stmt_lineno s = l ∧ x ∈ reads s.
Proof. apply init_rhs. Qed.

(** X5. [finalize]: [vars_by_line] has an entry for exactly the lines that
    have one in [used_by_line] or [assigned_by_line], and the entry is the
    union of the two sets of the line. *)
Theorem vars_by_line_spec (H : Host) (source_path : string) (tree : list stmt) (l : nat) :
  let self := __init__ H source_path tree in
  vars_by_line self !! l
  = if decide (l ∈ dom (used_by_line self) ∪ dom (assigned_by_line self))
    then Some (dict_get (used_by_line self) l ∅ ∪ dict_get (assigned_by_line self) l ∅)
    else None.
Proof.
  cbv zeta.
  cbn [__init__ vars_by_line used_by_line assigned_by_line LineVarCollector.finalize
       LineVarCollector.used_by_line LineVarCollector.assigned_by_line
       LineVarCollector.all_vars_by_line].
  set (c := LineVarCollector.visit tree LineVarCollector.init).
  rewrite (fold_left_insert_lookup
             (λ line, dict_get (LineVarCollector.used_by_line c) line ∅
                      ∪ dict_get (LineVarCollector.assigned_by_line c) line ∅)).
  destruct (adds_visit tree LineVarCollector.init) as (_ & _ & _ & Hall).
  fold c in Hall. rewrite Hall. cbn [LineVarCollector.init LineVarCollector.all_vars_by_line].
  rewrite lookup_empty.
  destruct (decide (l ∈ elements (dom (LineVarCollector.used_by_line c)
                                  ∪ dom (LineVarCollector.assigned_by_line c))))
    as [Hin|Hnin]; rewrite elem_of_elements in *.
  - by rewrite decide_True.
  - by rewrite decide_False.
Qed.

(** X6. The target of an augmented assignment is read: every name the
    target of an [AugAssign] stores is among the names the hook emits
    records for on the line of the statement. *)
Theorem aug_assign_target_emitted (H : Host) (source_path : string) (tree : list stmt)
    (line : nat) (target value : expr) (x : string) :
  AugAssign line target value ∈ flat_map sub_stmts tree →
  x ∈ LineVarCollector._targets_names target →
  x ∈ emit_vars_of (__init__ H source_path tree) line.
Proof.
  intros Hs Hx. unfold emit_vars_of. apply elem_of_union. right.
  apply elem_of_intersection. split.
  - apply init_assigned. right. by exists (AugAssign line target value).
  - apply init_rhs. exists (AugAssign line target value).
    split; [done|]. split; [done|]. cbn [reads]. apply elem_of_union. right.
    apply elem_of_names_in. apply elem_of_names_in in Hx as (l & ctx & Hin & _).
    by exists l, ctx.
Qed.

Lemma aug_assign_target_emitted_witness :
  "s" ∈ emit_vars_of
          (__init__ host0 "/tmp/s.py"
             [AugAssign 2 (Name 2 "s" Store) (Name 2 "x" Load)]) 2.
Proof.
  apply (aug_assign_target_emitted host0 "/tmp/s.py" _ 2 (Name 2 "s" Store)
           (Name 2 "x" Load) "s").
  - simpl. apply elem_of_cons. by left.
  - vm_compute. reflexivity.
Defined.

(** ** Invariants of a run *)

Lemma same_tables_refl a : same_tables a a.
Proof. by repeat split. Qed.

Lemma same_tables_trans a b c : same_tables a b → same_tables b c → same_tables a c.
Proof. unfold same_tables. intros (?&?&?&?&?) (?&?&?&?&?). repeat split; congruence. Qed.

Lemma store_post_fields H fr loc glo self :
  same_tables self (store_post H fr loc glo self)
  ∧ records (store_post H fr loc glo self) = records self
  ∧ line_exec_count (store_post H fr loc glo self) = line_exec_count self.
Proof.
  unfold store_post, touched. cbv zeta. repeat case_match; by destruct self.
Qed.

Lemma tracer_line_post_tables H fr loc glo self :
  same_tables self (tracer_line_post H fr loc glo self).
Proof.
  destruct (store_post_fields H fr loc glo self) as (Ht & _).
  eapply same_tables_trans; [exact Ht|].
  unfold tracer_line_post, count_only. by destruct (store_post H fr loc glo self).
Qed.

Lemma tracer_post_tables H fr event self : same_tables self (tracer_post H fr event self).
Proof.
  unfold tracer_post. repeat case_match; try apply same_tables_refl.
  - apply tracer_line_post_tables.
  - unfold count_only. by destruct self.
Qed.

Lemma events_post_tables H gtrace ftrace evs self :
  same_tables self (events_post H gtrace ftrace evs self).
Proof.
  revert ftrace self. induction evs as [|[fr event] evs IH]; intros ftrace self;
    [apply same_tables_refl|].
  cbn [events_post]. cbv zeta. repeat case_match; try apply IH.
  all: eapply same_tables_trans; [apply tracer_post_tables|apply IH].
Qed.

Lemma emit_vars_same a b line : same_tables a b → emit_vars_of a line = emit_vars_of b line.
Proof. intros (?&?&?&?&?). unfold emit_vars_of. congruence. Qed.

Lemma current_deps_within G self fid loc glo v d :
  stores_within G self → d ∈ current_deps self fid loc glo v → G d.
Proof.
  intros [Hg Hf]. unfold current_deps, dict_get.
  assert (∀ k, d ∈ default ∅ (global_deps self !! k) → G d) as Hg'.
  { intros k. destruct (global_deps self !! k) eqn:E; cbn; [by eapply Hg|set_solver]. }
  destruct (py_in v loc); [destruct (py_is loc glo); [apply Hg'|]
                          |destruct (py_in v glo); [apply Hg'|set_solver]].
  destruct (frame_deps self !! fid) as [inner|] eqn:E; cbn.
  - destruct (inner !! v) eqn:E'; cbn; [by eapply Hf|set_solver].
  - rewrite lookup_empty. set_solver.
Qed.

Lemma stores_within_fields G a b :
  global_deps a = global_deps b → frame_deps a = frame_deps b →
  stores_within G a → stores_within G b.
Proof. unfold stores_within. by intros <- <-. Qed.

Lemma stores_within_touched G b fid self :
  stores_within G self → stores_within G (touched b fid self).
Proof.
  intros [Hg Hf]. destruct b; [|done]. split; [by destruct self|].
  intros fid' inner k s d. destruct self as [? ? ? fd ? ? ? ? ?]. cbn.
  unfold ensure, dict_get. destruct (decide (fid = fid')) as [->|Hne].
  - rewrite lookup_insert_eq. intros [= <-]. cbn in Hf.
    destruct (fd !! fid') as [inner|] eqn:E; cbn; [by eapply Hf|].
    by rewrite lookup_empty.
  - rewrite lookup_insert_ne by done. apply Hf.
Qed.

Lemma store_post_within G H fr loc glo self :
  stores_within G self →
  (∀ d, d ∈ clean_rhs H fr (dict_get (rhs_by_line self) (f_lineno fr) ∅) → G d) →
  stores_within G (store_post H fr loc glo self).
Proof.
  intros Hin Hclean. unfold store_post. cbv zeta.
  set (u := union_deps_of _ _ _ _ _).
  assert (∀ d, d ∈ u → G d) as Hu.
  { intros d [Hd|(m & Hm & Hd)]%elem_of_union_deps_of; [by apply Hclean|].
    by eapply current_deps_within. }
  destruct Hin as [Hg Hf].
  case_match; [|by apply stores_within_touched].
  case_match.
  - split; [|by destruct self].
    destruct self as [? ? ? fd gd ? ? ? ?]. cbn in *. intros k s d Hk Hd.
    apply lookup_union_Some_raw in Hk as [Hk|[_ Hk]]; [|by eapply Hg].
    apply lookup_gset_to_gmap_Some in Hk as [_ <-]. by apply Hu.
  - split; [by destruct self|].
    destruct self as [? ? ? fd gd ? ? ? ?]. cbn in *. intros fid inner k s d.
    destruct (decide (frame_id fr = fid)) as [<-|Hne].
    + rewrite lookup_insert_eq. intros [= <-] Hk Hd.
      apply lookup_union_Some_raw in Hk as [Hk|[_ Hk]].
      * apply lookup_gset_to_gmap_Some in Hk as [_ <-]. by apply Hu.
      * unfold dict_get in Hk. destruct (fd !! frame_id fr) as [inner|] eqn:E; cbn in Hk;
          [by eapply Hf|by rewrite lookup_empty in Hk].
    + rewrite lookup_insert_ne by done. apply Hf.
Qed.

Lemma tracer_line_post_fields H fr loc glo self :
  global_deps (tracer_line_post H fr loc glo self) = global_deps (store_post H fr loc glo self)
  ∧ frame_deps (tracer_line_post H fr loc glo self) = frame_deps (store_post H fr loc glo self)
  ∧ line_exec_count (tracer_line_post H fr loc glo self)
    = <[f_lineno fr := dict_get (line_exec_count self) (f_lineno fr) 0 + 1]>
        (line_exec_count self).
Proof.
  destruct (store_post_fields H fr loc glo self) as (_ & _ & Hc).
  unfold tracer_line_post, count_only.
  destruct (store_post H fr loc glo self); cbn in *. by rewrite Hc.
Qed.

Lemma record_ok_mono G a b r :
  same_tables a b →
  (∀ l, (dict_get (line_exec_count a) l 0 ≤ dict_get (line_exec_count b) l 0)%nat) →
  record_ok G a r → record_ok G b r.
Proof.
  intros Ht Hc (l & k & v & d & -> & Hk & Hv & Hd). exists l, k, v, d.
  split; [done|]. split; [specialize (Hc l); lia|]. split; [|done].
  by rewrite <- (emit_vars_same a b).
Qed.

Lemma dict_get_count_incr (c : gmap nat nat) line l :
  (dict_get c l 0 ≤ dict_get (<[line := dict_get c line 0 + 1]> c) l 0)%nat.
Proof.
  unfold dict_get. destruct (decide (line = l)) as [->|Hne].
  - rewrite lookup_insert_eq. cbn. lia.
  - by rewrite lookup_insert_ne.
Qed.

Lemma elem_of_new_records self fr loc glo r :
  r ∈ new_records self fr loc glo
  ↔ ∃ v d, r = fmt_record (f_lineno fr) (dict_get (line_exec_count self) (f_lineno fr) 0 + 1) v d
           ∧ v ∈ emit_vars_of self (f_lineno fr)
           ∧ d ∈ current_deps self (frame_id fr) loc glo v.
Proof.
  unfold new_records. cbv zeta. rewrite elem_of_flat_map.
  setoid_rewrite list_elem_of_fmap. setoid_rewrite elem_of_sorted_names. naive_solver.
Qed.

Lemma tracer_post_inv G H fr event self0 self :
  run_inv G self0 self →
  (event = "line" → co_filename fr = source_abspath self →
   ∀ d, d ∈ clean_rhs H fr (dict_get (rhs_by_line self) (f_lineno fr) ∅) → G d) →
  run_inv G self0 (tracer_post H fr event self).
Proof.
  intros (Ht & Hs & Hr) Hclean.
  split; [eapply same_tables_trans; [exact Ht|apply tracer_post_tables]|].
  unfold tracer_post.
  case_bool_decide as Hfile; [done|].
  case_bool_decide as Hev; [|done]. specialize (Hclean Hev Hfile).
  destruct (frame_scope fr) as [[loc glo]|e] eqn:Hscope.
  - destruct (tracer_line_post_fields H fr loc glo self) as (Hg & Hf & Hc).
    split.
    + eapply stores_within_fields; [symmetry; exact Hg|symmetry; exact Hf|].
      by apply store_post_within.
    + rewrite records_tracer_line_post. apply Forall_app. split.
      * eapply Forall_impl; [exact Hr|]. intros r. apply record_ok_mono.
        -- apply tracer_line_post_tables.
        -- intros l. rewrite Hc. apply dict_get_count_incr.
      * apply Forall_forall. intros r (v & d & -> & Hv & Hd)%elem_of_new_records.
        exists (f_lineno fr), (dict_get (line_exec_count self) (f_lineno fr) 0 + 1), v, d.
        split; [done|]. split.
        -- rewrite Hc. unfold dict_get at 3. rewrite lookup_insert_eq. cbn. lia.
        -- split; [|by eapply current_deps_within].
           by rewrite <- (emit_vars_same self) by apply tracer_line_post_tables.
  - case_bool_decide; [|done]. split.
    + eapply stores_within_fields; [| |exact Hs]; unfold count_only; by destruct self.
    + assert (records (count_only (f_lineno fr) self) = records self) as ->
        by (unfold count_only; by destruct self).
      eapply Forall_impl; [exact Hr|]. intros r. apply record_ok_mono.
      * unfold count_only. by destruct self.
      * intros l. unfold count_only. destruct self; cbn. apply dict_get_count_incr.
Qed.

Lemma events_post_inv G H gtrace ftrace evs self0 self :
  run_inv G self0 self →
  (∀ fr, (fr, "line") ∈ evs → co_filename fr = source_abspath self0 →
   ∀ d, d ∈ clean_rhs H fr (dict_get (rhs_by_line self0) (f_lineno fr) ∅) → G d) →
  run_inv G self0 (events_post H gtrace ftrace evs self).
Proof.
  revert ftrace self. induction evs as [|[fr event] evs IH]; intros ftrace self Hinv Hclean;
    [done|].
  assert (∀ fr0, (fr0, "line") ∈ evs → co_filename fr0 = source_abspath self0 →
          ∀ d, d ∈ clean_rhs H fr0 (dict_get (rhs_by_line self0) (f_lineno fr0) ∅) → G d)
    as Hclean'.
  { intros fr0 Hin. apply Hclean. apply elem_of_cons. by right. }
  cbn [events_post]. cbv zeta. repeat case_match; try by apply IH.
  all: apply IH; [|done]; apply tracer_post_inv; [done|].
  all: intros -> Hfile; destruct Hinv as ((Hp & _ & _ & Hrhs & _) & _);
    rewrite <- Hrhs; apply Hclean; [apply elem_of_cons; by left|congruence].
Qed.

Lemma init_inv G H source_path tree :
  run_inv G (__init__ H source_path tree) (__init__ H source_path tree).
Proof.
  split; [apply same_tables_refl|]. split; [|by constructor].
  split; cbn; intros *; by rewrite lookup_empty.
Qed.

Lemma elem_of_clean_rhs H fr rhs d :
  d ∈ clean_rhs H fr rhs ↔ d ∈ rhs ∧ _is_builtin H d fr = false.
Proof. unfold clean_rhs. rewrite elem_of_filter. naive_solver. Qed.

Lemma grows_refl a : grows a a.
Proof.
  split; [exists []; by rewrite app_nil_r|]. split; [done|]. split; [done|].
  intros fid inner Hin. by exists inner.
Qed.

Lemma grows_trans a b c : grows a b → grows b c → grows a c.
Proof.
  intros ([n1 H1] & Hc1 & Hg1 & Hf1) ([n2 H2] & Hc2 & Hg2 & Hf2).
  split; [exists (n1 ++ n2)%list; by rewrite H2, H1, app_assoc|].
  split; [intros l; specialize (Hc1 l); specialize (Hc2 l); lia|].
  split; [set_solver|].
  intros fid inner Hin. destruct (Hf1 _ _ Hin) as (inner1 & Hin1 & Hd1).
  destruct (Hf2 _ _ Hin1) as (inner2 & Hin2 & Hd2). exists inner2. set_solver.
Qed.

Lemma grows_touched b fid self : grows self (touched b fid self).
Proof.
  destruct b; [|apply grows_refl]. destruct self as [? rs ? fd ? ? ? ? ?].
  split; [exists []; cbn; by rewrite app_nil_r|]. split; [done|]. split; [done|].
  cbn. intros fid' inner Hin. exists inner. split; [|done].
  unfold ensure, dict_get. destruct (decide (fid = fid')) as [->|Hne].
  - by rewrite lookup_insert_eq, Hin.
  - by rewrite lookup_insert_ne.
Qed.

Lemma grows_store_post H fr loc glo self : grows self (store_post H fr loc glo self).
Proof.
  unfold store_post. cbv zeta. case_match; [|apply grows_touched].
  destruct self as [? rs ? fd gd ? ? ? ?]. case_match; cbn.
  - split; [exists []; cbn; by rewrite app_nil_r|]. split; [done|].
    split; [cbn; rewrite dom_union; set_solver|]. cbn. intros fid inner Hin. by exists inner.
  - split; [exists []; cbn; by rewrite app_nil_r|]. split; [done|]. split; [done|].
    cbn. intros fid inner Hin. destruct (decide (frame_id fr = fid)) as [<-|Hne].
    + rewrite lookup_insert_eq. eexists. split; [done|].
      unfold dict_get. rewrite Hin. cbn. rewrite dom_union. set_solver.
    + rewrite lookup_insert_ne by done. by exists inner.
Qed.

Lemma grows_count_only line self : grows self (count_only line self).
Proof.
  destruct self as [? rs cnt ? ? ? ? ? ?]. unfold count_only.
  split; [exists []; cbn; by rewrite app_nil_r|].
  split; [intros l; cbn; apply dict_get_count_incr|]. split; [done|].
  cbn. intros fid inner Hin. by exists inner.
Qed.

Lemma grows_set_records new self : grows self (set_records (λ rs, rs ++ new)%list self).
Proof.
  destruct self as [? rs cnt ? ? ? ? ? ?].
  split; [by exists new|]. split; [done|]. split; [done|].
  cbn. intros fid inner Hin. by exists inner.
Qed.

Lemma grows_tracer_post H fr event self : grows self (tracer_post H fr event self).
Proof.
  unfold tracer_post. repeat case_match; try apply grows_refl.
  - unfold tracer_line_post.
    eapply grows_trans; [apply grows_store_post|].
    eapply grows_trans; [apply grows_count_only|].
    apply (grows_set_records (new_records self fr _ _)).
  - apply grows_count_only.
Qed.

Lemma grows_events_post H gtrace ftrace evs self :
  grows self (events_post H gtrace ftrace evs self).
Proof.
  revert ftrace self. induction evs as [|[fr event] evs IH]; intros ftrace self;
    [apply grows_refl|].
  cbn [events_post]. cbv zeta. repeat case_match; try apply IH.
  all: eapply grows_trans; [apply grows_tracer_post|apply IH].
Qed.

(** *** The execution counters *)

Lemma reached_cons p l e evs :
  reached p l (e :: evs)
  = (if bool_decide (co_filename e.1 = p ∧ e.2 = "line" ∧ f_lineno e.1 = l) then 1 else 0)
    + reached p l evs.
Proof. unfold reached. cbn [List.filter]. by case_bool_decide. Qed.

Lemma reached_own_events p l evs : reached p l (own_events p evs) = reached p l evs.
Proof.
  induction evs as [|e evs IH]; [done|]. unfold own_events in *. cbn [List.filter].
  rewrite (reached_cons p l e evs). case_bool_decide as Hfile.
  - by rewrite reached_cons, IH.
  - rewrite IH. rewrite bool_decide_false by naive_solver. done.
Qed.

Lemma count_tracer_line_post H fr loc glo self l :
  dict_get (line_exec_count (tracer_line_post H fr loc glo self)) l 0
  = dict_get (line_exec_count self) l 0 + (if bool_decide (f_lineno fr = l) then 1 else 0).
Proof.
  destruct (tracer_line_post_fields H fr loc glo self) as (_ & _ & ->).
  unfold dict_get. case_bool_decide as Hl.
  - subst l. rewrite lookup_insert_eq. done.
  - rewrite lookup_insert_ne by done. lia.
Qed.

Lemma count_count_only line self l :
  dict_get (line_exec_count (count_only line self)) l 0
  = dict_get (line_exec_count self) l 0 + (if bool_decide (line = l) then 1 else 0).
Proof.
  destruct self as [? rs cnt ? ? ? ? ? ?]. unfold count_only. cbn.
  unfold dict_get. case_bool_decide as Hl.
  - subst l. rewrite lookup_insert_eq. done.
  - rewrite lookup_insert_ne by done. lia.
Qed.

Lemma count_tracer_post_le H fr event self l :
  (dict_get (line_exec_count (tracer_post H fr event self)) l 0
   ≤ dict_get (line_exec_count self) l 0
     + (if bool_decide (co_filename fr = source_abspath self ∧ event = "line"
                        ∧ f_lineno fr = l) then 1 else 0))%nat.
Proof.
  unfold tracer_post. case_bool_decide as Hfile; [lia|].
  case_bool_decide as Hev; [|lia].
  assert ((if bool_decide (co_filename fr = source_abspath self ∧ event = "line"
                           ∧ f_lineno fr = l) then 1 else 0)
          = (if bool_decide (f_lineno fr = l) then 1 else 0)) as ->.
  { repeat case_bool_decide; naive_solver. }
  destruct (frame_scope fr) as [[loc glo]|e].
  - by rewrite count_tracer_line_post.
  - case_bool_decide; [by rewrite count_count_only|lia].
Qed.

Lemma count_events_post_le H gtrace ftrace evs self l :
  (dict_get (line_exec_count (events_post H gtrace ftrace evs self)) l 0
   ≤ dict_get (line_exec_count self) l 0 + reached (source_abspath self) l evs)%nat.
Proof.
  revert ftrace self. induction evs as [|[fr event] evs IH]; intros ftrace self;
    [cbn; lia|].
  rewrite reached_cons. cbn [events_post fst snd]. cbv zeta.
  pose proof (count_tracer_post_le H fr event self l) as Hle.
  set (n := if bool_decide (_ ∧ _) then 1 else 0) in *. clearbody n.
  repeat case_match; try (etrans; [apply IH|lia]).
  all: etrans; [apply IH|]; rewrite tracer_post_abspath; lia.
Qed.

Lemma count_foldl_own H p oe self l :
  source_abspath self = p →
  (∀ e, e ∈ oe → co_filename e.1 = p) →
  (∀ fr, (fr, "line") ∈ oe → ∃ loc glo, frame_scope fr = Ok (loc, glo)) →
  dict_get (line_exec_count (foldl (λ s e, tracer_post H e.1 e.2 s) self oe)) l 0
  = dict_get (line_exec_count self) l 0 + reached p l oe.
Proof.
  revert self. induction oe as [|[fr event] oe IH]; intros self Hp Hown Hread;
    [cbn; lia|].
  cbn [foldl fst snd]. rewrite IH.
  - rewrite reached_cons. cbn [fst snd].
    assert (co_filename fr = p) as Hfile by (apply (Hown (fr, event)), elem_of_cons; by left).
    unfold tracer_post. rewrite bool_decide_false by (rewrite Hp; naive_solver).
    case_bool_decide as Hev.
    + subst event. destruct (Hread fr) as (loc & glo & ->); [apply elem_of_cons; by left|].
      rewrite count_tracer_line_post. repeat case_bool_decide; naive_solver lia.
    + rewrite bool_decide_false by naive_solver. lia.
  - by rewrite tracer_post_abspath.
  - intros e He. apply Hown, elem_of_cons. by right.
  - intros fr' Hin. apply Hread, elem_of_cons. by right.
Qed.

Lemma elem_of_own_events p evs e :
  e ∈ own_events p evs ↔ e ∈ evs ∧ co_filename e.1 = p.
Proof.
  unfold own_events. rewrite list_elem_of_In, filter_In, <- list_elem_of_In.
  by rewrite bool_decide_eq_true.
Qed.

(** ** The hook and the run *)

(** X7. The hook acts on line events of the analyzed file only: for an
    event of a frame of another file, and for any event other than "line",
    it returns itself and leaves the analyzer as it was. *)
Theorem tracer_ignores (H : Host) (fr : frame) (event : string) (self : Analyzer) :
  co_filename fr ≠ source_abspath self ∨ event ≠ "line" →
  tracer H fr event self = (Ok SelfTracer, self).
Proof.
  intros Hor. rewrite tracer_eq. f_equal. unfold tracer_post.
  case_bool_decide; [done|]. case_bool_decide; [|done]. by destruct Hor.
Qed.

Lemma tracer_ignores_witness :
  tracer host0 (module_frame "/tmp/a.py" 3 {["a"; "b"]}) "return"
    (__init__ host0 "/tmp/a.py" treeA)
  = (Ok SelfTracer, __init__ host0 "/tmp/a.py" treeA).
Proof. apply tracer_ignores. right. done. Defined.

(** X8. Every record [Analyzer.run] returns, when started on a fresh
    analyzer, is [f"{line},{ecount},{v},{d}"] where [ecount] is between 1
    and the final counter of the line, [v] is a name the hook emits on that
    line, and [d] is a name that a binding statement of the program reads
    and that is not a builtin in the frame of some line event of the
    analyzed file: a builtin never shows up as a dependency unless some
    frame does not see it as one. *)
Theorem records_are_sound (H : Host) (source_path : string) (tree : list stmt)
    (prog : behaviour) (sys : sys_state) (rs : list string)
    (st : sys_state * Analyzer) (r : string) :
  run H prog (sys, __init__ H source_path tree) = (Returns rs, st) →
  r ∈ rs →
  ∃ l k v d,
    r = fmt_record l k v d
    ∧ (1 ≤ k ≤ dict_get (line_exec_count st.2) l 0)%nat
    ∧ v ∈ emit_vars_of (__init__ H source_path tree) l
    ∧ clean_rhs_name H (__init__ H source_path tree) (events prog) d.
Proof.
  rewrite run_eq. cbv zeta. intros [= <- <-] Hr. cbn [snd].
  set (self0 := __init__ H source_path tree) in *.
  set (G := clean_rhs_name H self0 (events prog)).
  destruct (events_post_inv G H (Some SelfTracer) ∅ (events prog) self0 self0)
    as (Ht & _ & Hrs).
  - apply init_inv.
  - intros fr Hin Hfile d [Hd Hb]%elem_of_clean_rhs. by exists fr.
  - rewrite Forall_forall in Hrs. destruct (Hrs r Hr) as (l & k & v & d & -> & Hk & Hv & Hd).
    exists l, k, v, d. split; [done|]. split; [done|]. split; [|done].
    by rewrite (emit_vars_same self0 _ l Ht).
Qed.

Lemma records_are_sound_witness :
  ∃ l k v d,
    "3,1,b,a" = fmt_record l k v d
    ∧ (1 ≤ k ≤ dict_get (line_exec_count
                           (run host0 (progA "/tmp/a.py")
                              (sys0, __init__ host0 "/tmp/a.py" treeA)).2.2) l 0)%nat
    ∧ v ∈ emit_vars_of (__init__ host0 "/tmp/a.py" treeA) l
    ∧ clean_rhs_name host0 (__init__ host0 "/tmp/a.py" treeA)
        (events (progA "/tmp/a.py")) d.
Proof.
  apply (records_are_sound host0 "/tmp/a.py" treeA (progA "/tmp/a.py") sys0 ["3,1,b,a"]).
  - vm_compute. reflexivity.
  - apply elem_of_cons. by left.
Defined.

(** X9. A run only adds: the records the analyzer had are a prefix of those
    it has afterwards, no execution counter decreases, no entry of the
    global store or of the store of an invocation is removed, and the
    classification tables and the path are as before. In particular the
    stores of invocations that have returned are kept. *)
Theorem run_only_adds (H : Host) (prog : behaviour) (sys : sys_state) (self : Analyzer) :
  let self' := (run H prog (sys, self)).2.2 in
  grows self self' ∧ same_tables self self'.
Proof.
  cbv zeta. rewrite run_eq. cbv zeta. cbn [snd].
  split; [apply grows_events_post|apply events_post_tables].
Qed.

(** X10. The counter of a line never exceeds the number of line events of
    the analyzed file at that line: the hook counts an event at most once. *)
Theorem line_exec_count_at_most_reached (H : Host) (prog : behaviour) (sys : sys_state)
    (self : Analyzer) (l : nat) :
  (dict_get (line_exec_count (run H prog (sys, self)).2.2) l 0
   ≤ dict_get (line_exec_count self) l 0
     + reached (source_abspath self) l (events prog))%nat.
Proof. rewrite run_eq. cbv zeta. cbn [snd]. apply count_events_post_le. Qed.

(** X11. When every frame of the analyzed file is entered with a "call"
    event before its other events and the scopes of its frames can be read,
    the counter of a line after the run is its value before plus the number
    of line events of the analyzed file at that line. *)
Theorem line_exec_count_is_reached (H : Host) (prog : behaviour) (sys : sys_state)
    (self : Analyzer) (l : nat) :
  well_traced ∅ (own_events (source_abspath self) (events prog)) →
  (∀ fr, (fr, "line") ∈ events prog → co_filename fr = source_abspath self →
         ∃ loc glo, frame_scope fr = Ok (loc, glo)) →
  dict_get (line_exec_count (run H prog (sys, self)).2.2) l 0
  = dict_get (line_exec_count self) l 0 + reached (source_abspath self) l (events prog).
Proof.
  intros Hwt Hread. rewrite run_eq. cbv zeta. cbn [snd].
  rewrite (events_post_own H (source_abspath self) ∅ ∅ (events prog) self)
    by (done || set_solver).
  rewrite (count_foldl_own H (source_abspath self)); [by rewrite reached_own_events|done|..].
  - by intros e [_ ?]%elem_of_own_events.
  - intros fr [Hin Hfile]%elem_of_own_events. by apply Hread.
Qed.

Lemma line_exec_count_is_reached_witness :
  dict_get (line_exec_count
              (run host0 (progB "/tmp/b.py") (sys0, __init__ host0 "/tmp/b.py" treeB)).2.2)
    2 0
  = dict_get (line_exec_count (__init__ host0 "/tmp/b.py" treeB)) 2 0
    + reached (source_abspath (__init__ host0 "/tmp/b.py" treeB)) 2
        (events (progB "/tmp/b.py")).
Proof.
  apply line_exec_count_is_reached.
  - simpl. repeat split; set_solver.
  - intros fr Hin _. unfold progB, eventsB in Hin. cbn [events] in Hin.
    repeat (apply elem_of_cons in Hin as [Heq|Hin];
            [first [discriminate Heq|injection Heq as ->; by eexists _, _]|]).
    by apply elem_of_nil in Hin.
Defined.

(** ** Record strings *)

Lemma string_app_cons (x : ascii) (a b : string) : String x a +:+ b = String x (a +:+ b).
Proof. reflexivity. Qed.

Lemma string_app_nil_l (b : string) : "" +:+ b = b.
Proof. reflexivity. Qed.

Lemma string_app_assoc (a b c : string) : (a +:+ b) +:+ c = a +:+ (b +:+ c).
Proof.
  induction a as [|x a IH]; [done|]. by rewrite !string_app_cons, IH.
Qed.

Lemma string_app_nil_r (a : string) : a +:+ "" = a.
Proof. induction a as [|x a IH]; [done|]. by rewrite string_app_cons, IH. Qed.

Lemma digit_value_pretty_N_char (d : N) :
  (d < 10)%N → digit_value (pretty_N_char d) = Some (N.to_nat d).
Proof.
  intros Hd.
  destruct d as [|p]; [done|].
  do 4 (destruct p as [p|p|]; try done; try lia).
Qed.

Lemma comma_free_pretty_N_char (d : N) :
  negb (bool_decide (pretty_N_char d = ","%char)) = true.
Proof.
  destruct d as [|p]; [done|].
  do 4 (destruct p as [p|p|]; try done).
Qed.

Lemma pretty_N_go_spec (x : N) :
  ∃ (p : string) (k : nat),
    (∀ s, pretty_N_go x s = p +:+ s)
    ∧ comma_free p = true
    ∧ (∀ acc s, digits_value acc (p +:+ s) = digits_value (acc * k + N.to_nat x) s)
    ∧ ((0 < x)%N → p ≠ EmptyString).
Proof.
  induction (N.lt_wf_0 x) as [x _ IH].
  destruct (decide (0 < x)%N) as [Hpos|Hz].
  - destruct (IH (x `div` 10)%N) as (p & k & Hp & Hfree & Hval & _).
    { by apply N.div_lt. }
    exists (p +:+ String (pretty_N_char (x `mod` 10)) EmptyString), (10 * k).
    assert ((x `mod` 10 < 10)%N) as Hmod by (by apply N.mod_lt).
    split; [|split; [|split]].
    + intros s. rewrite pretty_N_go_step, Hp by done. by rewrite string_app_assoc.
    + clear -Hfree. induction p as [|c p IHp].
      * rewrite string_app_nil_l. cbn. by rewrite comma_free_pretty_N_char.
      * rewrite string_app_cons. cbn in *.
        apply andb_true_iff in Hfree as [-> Hfree]. cbn. by apply IHp.
    + intros acc s. rewrite string_app_assoc, Hval.
      rewrite string_app_cons, string_app_nil_l. cbn [digits_value].
      rewrite digit_value_pretty_N_char by done. f_equal.
      pose proof (N.div_mod x 10 ltac:(done)) as Hdm.
      assert (N.to_nat x = 10 * N.to_nat (x `div` 10) + N.to_nat (x `mod` 10)) as -> by lia.
      lia.
    + intros _. destruct p; discriminate.
  - assert (x = 0%N) as -> by lia. exists EmptyString, 1. split; [|split; [|split]].
    + intros s. by rewrite pretty_N_go_0.
    + done.
    + intros acc s. rewrite string_app_nil_l. f_equal. lia.
    + lia.
Qed.

Lemma pretty_nat_spec (n : nat) :
  comma_free (pretty n) = true ∧ int (pretty n) = Ok n.
Proof.
  unfold pretty, pretty_nat, pretty, pretty_N. case_decide as Hz.
  - split; [done|]. assert (n = 0) as -> by lia. done.
  - destruct (pretty_N_go_spec (N.of_nat n)) as (p & k & Hp & Hfree & Hval & Hne).
    rewrite Hp. pose proof (string_app_nil_r p) as Hnil.
    rewrite Hnil. split; [done|]. unfold int.
    destruct p as [|c p]; [by destruct Hne; [lia|]|].
    specialize (Hval 0 ""). rewrite Hnil in Hval. rewrite Hval. cbn.
    by rewrite Nat2N.id.
Qed.

Lemma split_comma_free (s : string) : comma_free s = true → split_comma s = [s].
Proof.
  induction s as [|c s IH]; [done|]. cbn. intros [Hc Hs]%andb_true_iff.
  apply negb_true_iff in Hc. rewrite Hc, (IH Hs). done.
Qed.

Lemma split_comma_app (a rest : string) :
  comma_free a = true → split_comma (a +:+ String ","%char rest) = a :: split_comma rest.
Proof.
  induction a as [|c a IH].
  - intros _. rewrite string_app_nil_l. done.
  - rewrite string_app_cons. cbn. intros [Hc Ha]%andb_true_iff.
    apply negb_true_iff in Hc. rewrite Hc, (IH Ha). done.
Qed.

Lemma split_comma_fmt_record l k v d :
  comma_free v = true → comma_free d = true →
  split_comma (fmt_record l k v d) = [pretty l; pretty k; v; d].
Proof.
  intros Hv Hd. unfold fmt_record.
  rewrite !(string_app_cons ","%char), !string_app_nil_l.
  rewrite !split_comma_app, split_comma_free; try done; apply pretty_nat_spec.
Qed.

Lemma result_list_cons l k v d rs :
  comma_free v = true → comma_free d = true →
  result_list (fmt_record l k v d :: rs)
  = match result_list rs with
    | Ok rest => Ok ({| line := l; execution := k; variable := v; dependency := d |} :: rest)
    | Raise err => Raise err
    end.
Proof.
  intros Hv Hd. cbn [result_list]. rewrite split_comma_fmt_record by done.
  by rewrite !(proj2 (pretty_nat_spec _)).
Qed.

Lemma result_list_total (P : nat → nat → string → string → Prop) (rs : list string) :
  Forall (λ r, ∃ l k v d, r = fmt_record l k v d
                          ∧ comma_free v = true ∧ comma_free d = true ∧ P l k v d) rs →
  ∃ recs, result_list rs = Ok recs ∧ rs = record_string <$> recs
          ∧ Forall (λ rec, P (line rec) (execution rec) (variable rec) (dependency rec))
              recs.
Proof.
  induction 1 as [|r rs (l & k & v & d & -> & Hv & Hd & HP) _ (recs & IH & -> & HPs)].
  - by exists [].
  - exists ({| line := l; execution := k; variable := v; dependency := d |} :: recs).
    rewrite result_list_cons, IH by done. split; [done|]. split; [done|].
    by constructor.
Qed.

Lemma sub_stmts_exprs s s' e :
  s' ∈ sub_stmts s → e ∈ stmt_exprs s' → e ∈ stmt_exprs s.
Proof.
  revert s' e.
  induction s as [line targets value|line target annotation value|line target value
                 |line target iter body orelse IHbody IHorelse
                 |line items body IHbody
                 |line test body orelse IHbody IHorelse
                 |line test body orelse IHbody IHorelse
                 |line name params body IHbody
                 |line value|line value|line] using stmt_nested_ind;
    intros s' e; cbn [sub_stmts stmt_exprs];
    rewrite ?Forall_forall in *;
    (intros [->|Hin]%elem_of_cons; [done|]);
    try (by apply elem_of_nil in Hin); intros He.
  - rewrite !elem_of_cons, elem_of_app, !elem_of_flat_map.
    apply elem_of_app in Hin as [(b & Hb & Hin)%elem_of_flat_map
                                |(b & Hb & Hin)%elem_of_flat_map]; naive_solver.
  - rewrite elem_of_app, !elem_of_flat_map.
    apply elem_of_flat_map in Hin as (b & Hb & Hin). naive_solver.
  - rewrite !elem_of_cons, elem_of_app, !elem_of_flat_map.
    apply elem_of_app in Hin as [(b & Hb & Hin)%elem_of_flat_map
                                |(b & Hb & Hin)%elem_of_flat_map]; naive_solver.
  - rewrite !elem_of_cons, elem_of_app, !elem_of_flat_map.
    apply elem_of_app in Hin as [(b & Hb & Hin)%elem_of_flat_map
                                |(b & Hb & Hin)%elem_of_flat_map]; naive_solver.
  - rewrite !elem_of_flat_map.
    apply elem_of_flat_map in Hin as (b & Hb & Hin). naive_solver.
Qed.

Lemma tree_exprs_nodes tree s e n :
  s ∈ flat_map sub_stmts tree → e ∈ stmt_exprs s → n ∈ walk e → n ∈ tree_nodes tree.
Proof.
  intros (t & Ht & Hs)%elem_of_flat_map He Hn. unfold tree_nodes.
  apply elem_of_flat_map. exists e. split; [|done].
  apply elem_of_flat_map. exists t. split; [done|]. by eapply sub_stmts_exprs.
Qed.

Lemma reads_exprs s x :
  x ∈ reads s → ∃ e l ctx, e ∈ stmt_exprs s ∧ Name l x ctx ∈ walk e.
Proof.
  destruct s as [line targets value|line target annotation [value|]|line target value
                |line target iter body orelse|line items body| | | | | |];
    cbn [reads stmt_exprs]; try (by intros ?%elem_of_empty).
  - intros (l & ctx & Hin & _)%elem_of_names_in. exists value, l, ctx.
    split; [|done]. apply elem_of_app. right. by apply list_elem_of_singleton.
  - intros (l & ctx & Hin & _)%elem_of_names_in. exists value, l, ctx.
    split; [|done]. rewrite !elem_of_cons. cbn. rewrite list_elem_of_singleton. tauto.
  - intros [(l & ctx & Hin & _)%elem_of_names_in
           |(l & ctx & Hin & _)%elem_of_names_in]%elem_of_union.
    + exists value, l, ctx. split; [|done]. rewrite !elem_of_cons. tauto.
    + exists target, l, ctx. split; [|done]. rewrite !elem_of_cons. tauto.
  - intros (l & ctx & Hin & _)%elem_of_names_in. exists iter, l, ctx.
    split; [|done]. rewrite !elem_of_cons. tauto.
  - intros (item & Hitem & (l & ctx & Hin & _)%elem_of_names_in)%elem_of_union_list_fmap.
    exists item.1, l, ctx. split; [|done]. apply elem_of_app. left.
    apply elem_of_flat_map. exists item. split; [done|]. apply elem_of_cons. by left.
Qed.

Lemma rhs_name_in_tree H source_path tree l x :
  x ∈ dict_get (rhs_by_line (__init__ H source_path tree)) l ∅ →
  ∃ l' ctx, Name l' x ctx ∈ tree_nodes tree.
Proof.
  intros (s & Hs & _ & (e & l' & ctx & He & Hn)%reads_exprs)%init_rhs.
  exists l', ctx. by eapply tree_exprs_nodes.
Qed.

Lemma emit_name_in_tree H source_path tree l x :
  x ∈ emit_vars_of (__init__ H source_path tree) l →
  ∃ l' ctx, Name l' x ctx ∈ tree_nodes tree.
Proof.
  unfold emit_vars_of. intros [Hu|[_ Hr]%elem_of_intersection]%elem_of_union.
  - apply init_used in Hu. by exists l, Load.
  - by eapply rhs_name_in_tree.
Qed.

(** ** From the records to the script's value *)

(** X12. Reading back a record string: for names without a comma,
    [split(",")] gives the four fields of [f"{line},{ecount},{v},{d}"],
    [int] reads back the line and the execution index, and the loop appends
    exactly the [DataFlowRecord] the string was made from. *)
Theorem record_round_trip (l k : nat) (v d : string) (rs : list string) :
  comma_free v = true → comma_free d = true →
  result_list (fmt_record l k v d :: rs)
  = match result_list rs with
    | Ok rest => Ok ({| line := l; execution := k; variable := v; dependency := d |} :: rest)
    | Raise err => Raise err
    end.
Proof. apply result_list_cons. Qed.

Lemma record_round_trip_witness :
  result_list (fmt_record 12 3 "total" "x_1" :: [])
  = Ok [{| line := 12; execution := 3; variable := "total"; dependency := "x_1" |}].
Proof. apply (record_round_trip 12 3 "total" "x_1" []); reflexivity. Defined.

(** X13. The conversion keeps every record: when no name of the program
    contains a comma (no Python identifier does), the loop that fills
    [result_list] from the strings [Analyzer.run] returned, for a fresh
    analyzer and every behaviour of the program, never raises and appends
    one [DataFlowRecord] per string, in the same order and with the same
    four fields. The test [len(parts) == 4] drops nothing and [int] never
    raises. *)
Theorem conversion_keeps_every_record (H : Host) (temp_file : string) (tree : list stmt)
    (prog : behaviour) (sys : sys_state) (rs : list string)
    (st : sys_state * Analyzer) :
  (∀ l x ctx, Name l x ctx ∈ tree_nodes tree → comma_free x = true) →
  run H prog (sys, __init__ H temp_file tree) = (Returns rs, st) →
  ∃ recs, result_list rs = Ok recs ∧ rs = record_string <$> recs.
Proof.
  intros Hfree. rewrite run_eq. cbv zeta. intros [= <- _].
  set (self0 := __init__ H temp_file tree).
  set (G := λ d, ∃ l, d ∈ dict_get (rhs_by_line self0) l ∅).
  destruct (events_post_inv G H (Some SelfTracer) ∅ (events prog) self0 self0)
    as (Ht & _ & Hrs).
  { apply init_inv. }
  { intros fr Hin Hfile d [Hd Hb]%elem_of_clean_rhs. by exists (f_lineno fr). }
  destruct (result_list_total (λ _ _ _ _, True)
              (records (events_post H (Some SelfTracer) ∅ (events prog) self0)))
    as (recs & Hok & Hrecs & _).
  - eapply Forall_impl; [exact Hrs|]. intros r (l & k & v & d & -> & _ & Hv & [l' Hd]).
    exists l, k, v, d. split; [done|].
    rewrite <- (emit_vars_same self0 _ l Ht) in Hv.
    apply emit_name_in_tree in Hv as (lv & cv & Hv).
    apply rhs_name_in_tree in Hd as (ld & cd & Hd). eauto.
  - by exists recs.
Qed.

Lemma conversion_keeps_every_record_witness :
  ∃ recs, result_list ["3,1,x,a"; "3,2,x,a"] = Ok recs
          ∧ ["3,1,x,a"; "3,2,x,a"] = record_string <$> recs.
Proof.
  apply (conversion_keeps_every_record host0 "/tmp/b.py" treeB (progB "/tmp/b.py") sys0
           ["3,1,x,a"; "3,2,x,a"]
           (run host0 (progB "/tmp/b.py") (sys0, __init__ host0 "/tmp/b.py" treeB)).2).
  - intros l x ctx Hin. unfold tree_nodes in Hin. cbn in Hin.
    repeat (apply elem_of_cons in Hin as [Heq|Hin];
            [first [discriminate Heq|by injection Heq as _ -> _]|]).
    by apply elem_of_nil in Hin.
  - vm_compute. reflexivity.
Defined.

(** X14. What the script returns is sound, field by field: when no name of
    the program contains a comma, every [DataFlowRecord] of the script's
    value has as [variable] a name the hook emits on the record's line, as
    [execution] an index between 1 and the number of line events of the
    analyzed file at that line, and as [dependency] a name that a binding
    statement reads and that is not a builtin in the frame of some line
    event of the analyzed file. *)
Theorem script_records_sound (H : Host) (temp_file : string) (tree : list stmt)
    (prog : behaviour) (sys : sys_state) (recs : list DataFlowRecord)
    (rec : DataFlowRecord) :
  (∀ l x ctx, Name l x ctx ∈ tree_nodes tree → comma_free x = true) →
  analysis_script H temp_file tree prog sys = Returns recs →
  rec ∈ recs →
  variable rec ∈ emit_vars_of (__init__ H temp_file tree) (line rec)
  ∧ (1 ≤ execution rec
     ≤ reached (os_path_abspath H temp_file) (line rec) (events prog))%nat
  ∧ clean_rhs_name H (__init__ H temp_file tree) (events prog) (dependency rec).
Proof.
  intros Hfree. rewrite analysis_script_records, run_eq. cbv zeta. cbn [fst snd].
  set (self0 := __init__ H temp_file tree).
  set (G := clean_rhs_name H self0 (events prog)).
  destruct (events_post_inv G H (Some SelfTracer) ∅ (events prog) self0 self0)
    as (Ht & _ & Hrs).
  { apply init_inv. }
  { intros fr Hin Hfile d [Hd Hb]%elem_of_clean_rhs. by exists fr. }
  destruct (result_list_total
              (λ l k v d, v ∈ emit_vars_of self0 l
                          ∧ (1 ≤ k ≤ reached (os_path_abspath H temp_file) l
                                       (events prog))%nat
                          ∧ G d)
              (records (events_post H (Some SelfTracer) ∅ (events prog) self0)))
    as (recs' & -> & _ & Hrecs).
  - eapply Forall_impl; [exact Hrs|]. intros r (l & k & v & d & -> & Hk & Hv & Hd).
    exists l, k, v, d. split; [done|].
    rewrite <- (emit_vars_same self0 _ l Ht) in Hv.
    pose proof Hv as (lv & cv & Hv')%emit_name_in_tree.
    pose proof Hd as (fr & _ & _ & (ld & cd & Hd')%rhs_name_in_tree & _).
    split; [eauto|]. split; [eauto|]. split; [done|]. split; [|done].
    pose proof (count_events_post_le H (Some SelfTracer) ∅ (events prog) self0 l) as Hle.
    change (dict_get (line_exec_count self0) l 0) with 0 in Hle.
    change (source_abspath self0) with (os_path_abspath H temp_file) in Hle. lia.
  - intros [= <-] Hrec. rewrite Forall_forall in Hrecs. by apply Hrecs.
Qed.

Lemma script_records_sound_witness :
  let rec := {| line := 3; execution := 1; variable := "b"; dependency := "a" |} in
  variable rec ∈ emit_vars_of (__init__ host0 "/tmp/a.py" treeA) (line rec)
  ∧ (1 ≤ execution rec
     ≤ reached (os_path_abspath host0 "/tmp/a.py") (line rec)
         (events (progA "/tmp/a.py")))%nat
  ∧ clean_rhs_name host0 (__init__ host0 "/tmp/a.py" treeA) (events (progA "/tmp/a.py"))
      (dependency rec).
Proof.
  apply (script_records_sound host0 "/tmp/a.py" treeA (progA "/tmp/a.py") sys0
           [{| line := 3; execution := 1; variable := "b"; dependency := "a" |}]).
  - intros l x ctx Hin. unfold tree_nodes in Hin. cbn in Hin.
    repeat (apply elem_of_cons in Hin as [Heq|Hin];
            [first [discriminate Heq|by injection Heq as _ -> _]|]).
    by apply elem_of_nil in Hin.
  - vm_compute. reflexivity.
  - apply elem_of_cons. by left.
Defined.

Lemma run_setup_in_run H prog sys self :
  run H prog (sys, self)
  = try_finally
      (λ '(sys, self),
         match run_path H prog (run_setup H self sys) self with
         | (Completed, self') => (Normal, (run_setup H self sys, self'))
         | (Uncaught cls, self') => (Throw cls, (run_setup H self sys, self'))
         end)
      (λ '(sys', self), (Returns (records self), (settrace (sys_trace sys) sys', self)))
      (sys, self).
Proof. reflexivity. Qed.

(** X15. What [Analyzer.run] does to [sys] before the analyzed program
    starts: the hook is the trace function; [sys.path] is as before, or has
    the directory of the analyzed file put in front; that directory is in
    the path unless it is the empty string; a path without duplicates stays
    without duplicates; and the same statements run again on the state
    they produced change nothing, so the directory is inserted at most
    once. *)
Theorem run_setup_sys_path (H : Host) (self : Analyzer) (sys : sys_state) :
  let dir := os_path_dirname H (source_abspath self) in
  let sys1 := run_setup H self sys in
  sys_trace sys1 = Some SelfTracer
  ∧ (sys_path sys1 = sys_path sys ∨ sys_path sys1 = dir :: sys_path sys)
  ∧ (dir ≠ "" → dir ∈ sys_path sys1)
  ∧ (NoDup (sys_path sys) → NoDup (sys_path sys1))
  ∧ run_setup H self sys1 = sys1.
Proof.
  cbv zeta. unfold run_setup. cbn.
  set (dir := os_path_dirname H (source_abspath self)).
  split; [by destruct (_ && _)|]. split; [|split; [|split]].
  - destruct (_ && _); [by right|by left].
  - intros Hdir. rewrite (bool_decide_true (dir ≠ "")) by done. cbn.
    case_bool_decide as Hin; [apply elem_of_cons; by left|done].
  - intros Hnd. destruct (bool_decide (dir ≠ "")); cbn; [|done].
    case_bool_decide; [by apply NoDup_cons|done].
  - repeat case_bool_decide; cbn; try done.
    all: repeat case_bool_decide; cbn; try done; set_solver.
Qed.

Lemma run_setup_sys_path_witness :
  let dir := os_path_dirname host0 (source_abspath (__init__ host0 "/tmp/a.py" treeA)) in
  let sys1 := run_setup host0 (__init__ host0 "/tmp/a.py" treeA) sys0 in
  sys_trace sys1 = Some SelfTracer
  ∧ (sys_path sys1 = sys_path sys0 ∨ sys_path sys1 = dir :: sys_path sys0)
  ∧ (dir ≠ "" → dir ∈ sys_path sys1)
  ∧ (NoDup (sys_path sys0) → NoDup (sys_path sys1))
  ∧ run_setup host0 (__init__ host0 "/tmp/a.py" treeA) sys1 = sys1.
Proof. apply run_setup_sys_path. Defined.

(** X16. The script's value depends only on the events of the analyzed
    file: two behaviours of the program that show the same events of the
    file, each frame entered by a "call" event, give the same value,
    whatever events of other files lie between them, however the program
    ends, and whatever [sys] holds when the script starts. *)
Theorem script_sees_own_events_only (H : Host) (temp_file : string) (tree : list stmt)
    (prog prog' : behaviour) (sys sys' : sys_state) :
  well_traced ∅ (own_events (os_path_abspath H temp_file) (events prog)) →
  own_events (os_path_abspath H temp_file) (events prog')
  = own_events (os_path_abspath H temp_file) (events prog) →
  analysis_script H temp_file tree prog sys = analysis_script H temp_file tree prog' sys'.
Proof.
  intros Hwt Heq. rewrite !analysis_script_records, !run_eq. cbv zeta. cbn [snd].
  rewrite (events_post_own H (os_path_abspath H temp_file) ∅ ∅ (events prog))
    by (done || set_solver).
  rewrite (events_post_own H (os_path_abspath H temp_file) ∅ ∅ (events prog'))
    by (rewrite ?Heq; done || set_solver).
  by rewrite Heq.
Qed.

Lemma script_sees_own_events_only_witness :
  analysis_script host0 "/tmp/a.py" treeA (progA "/tmp/a.py") sys0
  = analysis_script host0 "/tmp/a.py" treeA
      {| events := events (progA_full "/tmp/a.py"); outcome := Uncaught "SystemExit" |}
      {| sys_trace := Some (ForeignTracer "debugger"); sys_path := ["/usr/lib"] |}.
Proof.
  apply script_sees_own_events_only.
  - simpl. repeat split; set_solver.
  - reflexivity.
Defined.

(** ** The views over the results *)

Lemma computeChangedVars_fold rows (changed : gset string) (prev : gmap string string) k :
  k ∈ (fold_left computeChangedVars_step rows (changed, Some prev)).1
  ↔ k ∈ changed
    ∨ ∃ i m1 m2, (prev :: (TraceRow.vars <$> rows)) !! i = Some m1
                 ∧ (TraceRow.vars <$> rows) !! i = Some m2
                 ∧ k ∈ dom m2 ∧ m1 !! k ≠ m2 !! k.
Proof.
  revert changed prev. induction rows as [|r rows IH]; intros changed prev.
  - cbn. split; [by left|]. intros [?|(i & m1 & m2 & _ & Hm & _)]; [done|].
    by rewrite lookup_nil in Hm.
  - cbn [fold_left]. unfold computeChangedVars_step at 2. cbn [fst snd].
    rewrite IH. rewrite elem_of_union, elem_of_filter. split.
    + intros [[Hk|[Hne Hdom]]|(i & m1 & m2 & H1 & H2 & Hdom & Hne)].
      * by left.
      * right. exists 0, prev, (TraceRow.vars r). repeat split; try done.
        destruct Hne as [Hnone|Hne]; [|done]. rewrite Hnone.
        apply elem_of_dom in Hdom as [v Hv]. by rewrite Hv.
      * right. by exists (S i), m1, m2.
    + intros [Hk|(i & m1 & m2 & H1 & H2 & Hdom & Hne)]; [by left; left|].
      destruct i as [|i].
      * cbn in H1, H2. simplify_eq. left. right. split; [by right|done].
      * right. by exists i, m1, m2.
Qed.

Lemma computeChangedVars_spec rows k :
  k ∈ computeChangedVars rows
  ↔ ∃ i r1 r2, rows !! i = Some r1 ∧ rows !! S i = Some r2
               ∧ k ∈ dom (TraceRow.vars r2)
               ∧ TraceRow.vars r1 !! k ≠ TraceRow.vars r2 !! k.
Proof.
  unfold computeChangedVars. destruct rows as [|r rows].
  - cbn. split; [by intros ?%elem_of_empty|]. intros (i & r1 & r2 & H1 & _).
    by rewrite lookup_nil in H1.
  - cbn [fold_left]. unfold computeChangedVars_step at 2. cbn [fst snd].
    rewrite computeChangedVars_fold. split.
    + intros [?%elem_of_empty|(i & m1 & m2 & H1 & H2 & Hdom & Hne)]; [done|].
      apply list_lookup_fmap_Some in H2 as (r2 & -> & H2).
      assert (∃ r1, (r :: rows) !! i = Some r1 ∧ m1 = TraceRow.vars r1) as (r1 & Hr1 & ->).
      { destruct i as [|i]; [cbn in H1; simplify_eq; by exists r|].
        change ((TraceRow.vars <$> rows) !! i = Some m1) in H1.
        apply list_lookup_fmap_Some in H1 as (r1 & -> & ?). by exists r1. }
      by exists i, r1, r2.
    + intros (i & r1 & r2 & H1 & H2 & Hdom & Hne). right.
      exists i, (TraceRow.vars r1), (TraceRow.vars r2).
      change (rows !! i = Some r2) in H2.
      split; [|split; [by rewrite list_lookup_fmap, H2|done]].
      destruct i as [|i]; [cbn in H1; by simplify_eq|].
      change (rows !! i = Some r1) in H1.
      change ((TraceRow.vars <$> rows) !! i = Some (TraceRow.vars r1)).
      by rewrite list_lookup_fmap, H1.
Qed.

Lemma indexOf_from_spec (i : Z) (l : list string) (x : string) :
  ((x ∉ l) ∧ indexOf_from i l x = (-1)%Z)
  ∨ (∃ n, l !! n = Some x ∧ (∀ m, (m < n)%nat → l !! m ≠ Some x)
          ∧ indexOf_from i l x = (i + Z.of_nat n)%Z).
Proof.
  revert i. induction l as [|y l IH]; intros i; cbn [indexOf_from].
  - left. split; [apply not_elem_of_nil|done].
  - case_bool_decide as Hy.
    + right. exists 0. subst y. split; [done|]. split; [lia|]. lia.
    + destruct (IH (i + 1)%Z) as [[Hnin ->]|(n & Hn & Hmin & ->)].
      * left. split; [|done]. rewrite elem_of_cons. naive_solver.
      * right. exists (S n). split; [done|]. split; [|lia].
        intros [|m] Hm; cbn; [congruence|apply Hmin; lia].
Qed.

Lemma indexOf_NoDup (l : list string) (n : nat) (x : string) :
  NoDup l → l !! n = Some x → indexOf l x = Z.of_nat n.
Proof.
  intros Hnd Hn. unfold indexOf.
  destruct (indexOf_from_spec 0 l x) as [[Hnin _]|(m & Hm & _ & ->)].
  - destruct Hnin. by eapply list_elem_of_lookup_2.
  - by rewrite (NoDup_lookup l n m x Hnd Hn Hm).
Qed.

Lemma indexOf_elem_of (l : list string) (x : string) :
  x ∈ l → ∃ n, l !! n = Some x ∧ indexOf l x = Z.of_nat n.
Proof.
  intros Hin. unfold indexOf.
  destruct (indexOf_from_spec 0 l x) as [[Hnin _]|(m & Hm & _ & ->)]; [done|].
  exists m. split; [done|lia].
Qed.

Lemma indexOf_not_elem_of (l : list string) (x : string) :
  x ∉ l → indexOf l x = (-1)%Z.
Proof.
  intros Hnin. unfold indexOf.
  destruct (indexOf_from_spec 0 l x) as [[_ ->]|(m & Hm & _ & _)]; [done|].
  destruct Hnin. by eapply list_elem_of_lookup_2.
Qed.

Lemma VARIABLE_SHAPES_length : length VARIABLE_SHAPES = 35.
Proof. reflexivity. Qed.

Lemma VARIABLE_SHAPES_NoDup : NoDup VARIABLE_SHAPES.
Proof. apply (bool_decide_unpack (NoDup VARIABLE_SHAPES)). vm_compute. reflexivity. Qed.

Section ProjectionBox_lemmas.
Context (js_sort : list string → list string).
Context (js_sort_perm : ∀ l, js_sort l ≡ₚ l).
Context (box : Box.t) (dataFlowResults : option (list DataFlowRecord)).

Lemma elem_of_allVars v :
  v ∈ allVars js_sort box ↔ ∃ r, r ∈ Box.rows box ∧ v ∈ dom (TraceRow.vars r).
Proof.
  unfold allVars. rewrite js_sort_perm, elem_of_elements, elem_of_union_list.
  setoid_rewrite list_elem_of_fmap. naive_solver.
Qed.

Lemma elem_of_shapeDomain v :
  v ∈ shapeDomain js_sort box dataFlowResults
  ↔ v ∈ allVars js_sort box ∨ v ∈ depVarsForThisLine box dataFlowResults.
Proof.
  unfold shapeDomain. rewrite js_sort_perm, elem_of_elements, elem_of_union,
    elem_of_list_to_set. done.
Qed.

Lemma shapeDomain_NoDup : NoDup (shapeDomain js_sort box dataFlowResults).
Proof. unfold shapeDomain. rewrite js_sort_perm. apply NoDup_elements. Qed.

Lemma getDependencies_subseteq v e :
  getDependencies box dataFlowResults v e ⊆ depVarsForThisLine box dataFlowResults.
Proof.
  unfold getDependencies, depVarsForThisLine. destruct dataFlowResults as [rs|]; [|done].
  intros d. rewrite !elem_of_list_to_set, !list_elem_of_fmap.
  intros (r & -> & Hr). exists r. split; [done|].
  apply list_elem_of_In, filter_In in Hr as [Hin Hc]. apply list_elem_of_In, filter_In.
  split; [done|]. by apply andb_true_iff in Hc as [[? _]%andb_true_iff _].
Qed.

Lemma getVariableShape_index v n :
  shapeDomain js_sort box dataFlowResults !! n = Some v →
  getVariableShape js_sort box dataFlowResults v = VARIABLE_SHAPES !! (n `mod` 35).
Proof.
  intros Hn. unfold getVariableShape. cbv zeta.
  rewrite (indexOf_NoDup _ n v shapeDomain_NoDup Hn).
  rewrite bool_decide_true by lia. rewrite VARIABLE_SHAPES_length. f_equal.
  rewrite <- (Nat2Z.inj_mod n 35). apply Nat2Z.id.
Qed.

End ProjectionBox_lemmas.

Lemma grouped_push_keys grouped r :
  (grouped_push grouped r).*1
  = if decide (TraceRow.line r ∈ grouped.*1) then grouped.*1
    else (grouped.*1 ++ [TraceRow.line r])%list.
Proof.
  induction grouped as [|[l rs] grouped IH]; cbn [grouped_push].
  - by rewrite decide_False by apply not_elem_of_nil.
  - case_bool_decide as Hl; rewrite !fmap_cons; cbn [fst].
    + subst l. by rewrite decide_True by (apply elem_of_cons; by left).
    + rewrite IH.
      destruct (decide (TraceRow.line r ∈ grouped.*1)) as [Hin|Hnin].
      * by rewrite decide_True by (apply elem_of_cons; by right).
      * rewrite decide_False; [done|]. rewrite elem_of_cons. naive_solver.
Qed.

Lemma elem_of_grouped_push grouped r l rs' :
  NoDup grouped.*1 →
  (l, rs') ∈ grouped_push grouped r
  ↔ (l ≠ TraceRow.line r ∧ (l, rs') ∈ grouped)
    ∨ (l = TraceRow.line r
       ∧ ((∃ rs, (l, rs) ∈ grouped ∧ rs' = (rs ++ [r])%list)
          ∨ ((l ∉ grouped.*1) ∧ rs' = [r]))).
Proof.
  induction grouped as [|[l0 rs0] grouped IH]; intros Hnd; cbn [grouped_push].
  - rewrite list_elem_of_singleton. split.
    + intros [= -> ->]. right. split; [done|]. right. split; [apply not_elem_of_nil|done].
    + intros [[_ Hin]|[Hl [(rs & Hin & _)|[_ Hrs]]]].
      * by apply elem_of_nil in Hin.
      * by apply elem_of_nil in Hin.
      * by rewrite Hl, Hrs.
  - rewrite fmap_cons in *. cbn [fst] in *. apply NoDup_cons in Hnd as [Hl0 Hnd].
    assert (∀ rs, (l0, rs) ∈ grouped → False) as Hfresh.
    { intros rs Hin. apply Hl0. apply list_elem_of_fmap. by exists (l0, rs). }
    case_bool_decide as Hl.
    + subst l0. repeat setoid_rewrite elem_of_cons. split.
      * intros [Heq|Hin].
        -- simplify_eq. right. split; [done|]. left. exists rs0. split; [by left|done].
        -- left. split; [|by right]. intros ->. by eapply Hfresh.
      * intros [[Hne [Heq|Hin]]|[Hl' [(rs & [Heq|Hin] & Hrs)|[Hnin Hrs]]]].
        -- by simplify_eq.
        -- by right.
        -- simplify_eq. by left.
        -- subst l. exfalso. by eapply Hfresh.
        -- destruct Hnin. subst l. by left.
    + rewrite elem_of_cons, (IH Hnd). repeat setoid_rewrite elem_of_cons. split.
      * intros [Heq|[[Hne Hin]|[Hl' [(rs & Hin & Hrs)|[Hnin Hrs]]]]].
        -- simplify_eq. left. split; [done|by left].
        -- left. split; [done|by right].
        -- right. split; [done|]. left. exists rs. split; [by right|done].
        -- right. split; [done|]. right. split; [|done].
           intros [?|?]; [congruence|done].
      * intros [[Hne [Heq|Hin]]|[Hl' [(rs & [Heq|Hin] & Hrs)|[Hnin Hrs]]]].
        -- by left.
        -- right. left. done.
        -- simplify_eq.
        -- right. right. split; [done|]. left. by exists rs.
        -- right. right. split; [done|]. right. split; [|done].
           intros Hin. apply Hnin. by right.
Qed.

Lemma rows_at_app l seen r :
  rows_at l (seen ++ [r])
  = (rows_at l seen ++ if bool_decide (TraceRow.line r = l) then [r] else [])%list.
Proof. unfold rows_at. rewrite List.filter_app. cbn. by case_bool_decide. Qed.

Lemma elem_of_rows_at l rows r :
  r ∈ rows_at l rows ↔ r ∈ rows ∧ TraceRow.line r = l.
Proof.
  unfold rows_at. rewrite list_elem_of_In, filter_In, <- list_elem_of_In.
  by rewrite bool_decide_eq_true.
Qed.

Lemma grouped_push_inv grouped seen r :
  grouped_inv grouped seen → grouped_inv (grouped_push grouped r) (seen ++ [r]).
Proof.
  intros (Hnd & Hrows & Hseen). split; [|split].
  - rewrite grouped_push_keys. case_decide as Hin; [done|].
    apply NoDup_app. split; [done|]. split; [|apply NoDup_singleton].
    intros l Hl ->%list_elem_of_singleton. done.
  - intros l rs' Hpush.
    apply (elem_of_grouped_push _ _ _ _ Hnd) in Hpush
      as [[Hne Hin]|[-> [(rs & Hin & ->)|[Hnin ->]]]]; rewrite rows_at_app.
    + destruct (Hrows _ _ Hin) as [-> Hnil]. rewrite bool_decide_false by done.
      by rewrite app_nil_r.
    + destruct (Hrows _ _ Hin) as [-> Hnil]. rewrite bool_decide_true by done.
      split; [done|]. by intros [? _]%app_eq_nil.
    + rewrite bool_decide_true by done. split; [|done].
      destruct (rows_at (TraceRow.line r) seen) as [|r' rest] eqn:E; [done|].
      assert (r' ∈ rows_at (TraceRow.line r) seen) as [Hr' Hl]%elem_of_rows_at
        by (rewrite E; by left).
      destruct Hnin. rewrite <- Hl. by apply Hseen.
  - intros r' [Hr'|Hr']%elem_of_app; [|apply list_elem_of_singleton in Hr' as ->];
      rewrite grouped_push_keys; case_decide; try done.
    + by apply Hseen.
    + apply elem_of_app. left. by apply Hseen.
    + apply elem_of_app. right. by apply list_elem_of_singleton.
Qed.

Lemma grouped_fold_inv rows grouped seen :
  grouped_inv grouped seen →
  grouped_inv (fold_left grouped_push rows grouped) (seen ++ rows).
Proof.
  revert grouped seen. induction rows as [|r rows IH]; intros grouped seen Hinv.
  - by rewrite app_nil_r.
  - cbn [fold_left]. rewrite (cons_middle r seen rows), app_assoc.
    apply IH. by apply grouped_push_inv.
Qed.

Lemma entry_le_total : Total entry_le.
Proof. intros a b. unfold entry_le. lia. Qed.

Lemma entry_le_trans : Transitive entry_le.
Proof. intros a b c. unfold entry_le. lia. Qed.

Lemma StronglySorted_lt (ls : list nat) :
  NoDup ls → StronglySorted le ls → StronglySorted lt ls.
Proof.
  induction 2 as [|l ls Hs IH Hall]; [constructor|].
  apply NoDup_cons in H as [Hl Hnd]. constructor; [by apply IH|].
  rewrite Forall_forall in *. intros l' Hl'. specialize (Hall l' Hl').
  assert (l ≠ l') by (by intros ->). lia.
Qed.

Section rowsForRender_lemmas.
Context (js_sort : list string → list string).
Context (js_sort_perm : ∀ l, js_sort l ≡ₚ l).
Context (box : Box.t).

Lemma changedOnly_allVars v : v ∈ changedOnly box → v ∈ allVars js_sort box.
Proof.
  unfold changedOnly. intros (i & r1 & r2 & _ & H2 & Hdom & _)%computeChangedVars_spec.
  apply (elem_of_allVars js_sort js_sort_perm). exists r2. split; [|done].
  by eapply list_elem_of_lookup_2.
Qed.

End rowsForRender_lemmas.

(** ** The views over the results *)

(** X17. [computeChangedVars]: a name is reported as changed exactly when
    some row has it as a key and the row just before has another value for
    it or does not have it. The first row reports nothing, and a name
    that only disappears from the rows is not reported. *)
Theorem computeChangedVars_changed (rows : list TraceRow.t) (k : string) :
  k ∈ computeChangedVars rows
  ↔ ∃ i r1 r2, rows !! i = Some r1 ∧ rows !! S i = Some r2
               ∧ k ∈ dom (TraceRow.vars r2)
               ∧ TraceRow.vars r1 !! k ≠ TraceRow.vars r2 !! k.
Proof. apply computeChangedVars_spec. Qed.

(** X18. Every name the box renders a shape for is in the shape domain:
    the variables of the box and every dependency [getDependencies]
    returns. For such a name [indexOf] is not -1, so the shape is the one
    at the name's own index modulo the number of shapes, never
    [undefined]. *)
Theorem rendered_names_have_own_shape (js_sort : list string → list string)
    (js_sort_perm : ∀ l, js_sort l ≡ₚ l) (box : Box.t)
    (dataFlowResults : option (list DataFlowRecord))
    (v : string) (e : nat) (d : string) :
  d ∈ allVars js_sort box ∨ d ∈ getDependencies box dataFlowResults v e →
  ∃ n, shapeDomain js_sort box dataFlowResults !! n = Some d
       ∧ indexOf (shapeDomain js_sort box dataFlowResults) d = Z.of_nat n
       ∧ ∃ shape, getVariableShape js_sort box dataFlowResults d = Some shape
                  ∧ VARIABLE_SHAPES !! (n `mod` 35) = Some shape.
Proof.
  intros Hd.
  assert (d ∈ shapeDomain js_sort box dataFlowResults) as Hin.
  { apply (elem_of_shapeDomain js_sort js_sort_perm).
    destruct Hd as [?|Hd]; [by left|right]. by eapply getDependencies_subseteq. }
  destruct (indexOf_elem_of _ _ Hin) as (n & Hn & Hidx). exists n.
  split; [done|]. split; [done|].
  rewrite (getVariableShape_index js_sort js_sort_perm box dataFlowResults d n Hn).
  destruct (lookup_lt_is_Some_2 VARIABLE_SHAPES (n `mod` 35)) as [shape Hs].
  { rewrite VARIABLE_SHAPES_length. apply Nat.mod_upper_bound. lia. }
  by exists shape.
Qed.

(** X19. With at most 35 names in the shape domain, different names of the
    domain get different shapes: both shapes are defined and they are not
    the same. *)
Theorem shapes_distinct_up_to_35 (js_sort : list string → list string)
    (js_sort_perm : ∀ l, js_sort l ≡ₚ l) (box : Box.t)
    (dataFlowResults : option (list DataFlowRecord))
    (x y : string) :
  (length (shapeDomain js_sort box dataFlowResults) ≤ 35)%nat →
  x ∈ shapeDomain js_sort box dataFlowResults →
  y ∈ shapeDomain js_sort box dataFlowResults →
  x ≠ y →
  ∃ sx sy,
    getVariableShape js_sort box dataFlowResults x = Some sx
    ∧ getVariableShape js_sort box dataFlowResults y = Some sy
    ∧ sx ≠ sy.
Proof.
  intros Hlen (n & Hn)%list_elem_of_lookup_1 (m & Hm)%list_elem_of_lookup_1 Hxy.
  rewrite (getVariableShape_index js_sort js_sort_perm box dataFlowResults x n Hn).
  rewrite (getVariableShape_index js_sort js_sort_perm box dataFlowResults y m Hm).
  pose proof (lookup_lt_Some _ _ _ Hn). pose proof (lookup_lt_Some _ _ _ Hm).
  rewrite !Nat.mod_small by lia.
  destruct (lookup_lt_is_Some_2 VARIABLE_SHAPES n) as [sx Hsx];
    [rewrite VARIABLE_SHAPES_length; lia|].
  destruct (lookup_lt_is_Some_2 VARIABLE_SHAPES m) as [sy Hsy];
    [rewrite VARIABLE_SHAPES_length; lia|].
  exists sx, sy. split; [done|]. split; [done|]. intros <-.
  pose proof (NoDup_lookup _ _ _ _ VARIABLE_SHAPES_NoDup Hsx Hsy) as <-.
  congruence.
Qed.

(** X20. With more than 35 names in the shape domain the shapes repeat:
    the names at the indices [n] and [n + 35] are different and get the
    same shape. A name outside the domain gets the first shape, that of the
    name at index 0. *)
Theorem shapes_repeat_beyond_35 (js_sort : list string → list string)
    (js_sort_perm : ∀ l, js_sort l ≡ₚ l) (box : Box.t)
    (dataFlowResults : option (list DataFlowRecord))
    (n : nat) (x y z : string) :
  shapeDomain js_sort box dataFlowResults !! n = Some x →
  shapeDomain js_sort box dataFlowResults !! (n + 35) = Some y →
  z ∉ shapeDomain js_sort box dataFlowResults →
  x ≠ y
  ∧ getVariableShape js_sort box dataFlowResults x
    = getVariableShape js_sort box dataFlowResults y
  ∧ getVariableShape js_sort box dataFlowResults z = Some "●".
Proof.
  intros Hx Hy Hz. split; [|split].
  - intros ->.
    pose proof (NoDup_lookup _ _ _ _ (shapeDomain_NoDup js_sort js_sort_perm box
                                        dataFlowResults) Hx Hy). lia.
  - rewrite (getVariableShape_index js_sort js_sort_perm box dataFlowResults x n Hx).
    rewrite (getVariableShape_index js_sort js_sort_perm box dataFlowResults y _ Hy).
    f_equal. rewrite <- (Nat.Div0.add_mod_idemp_r n 35 35).
    rewrite Nat.Div0.mod_same. by rewrite Nat.add_0_r.
  - unfold getVariableShape. cbv zeta. rewrite (indexOf_not_elem_of _ _ Hz).
    rewrite bool_decide_false by lia. done.
Qed.

(** X21. The row view shows the changed variables: with [rowMode], the
    rendered variables are exactly the ones [computeChangedVars] reports
    for the rows of the box, unless it reports none, in which case all
    variables of the box are rendered. *)
Theorem row_view_shows_changed (js_sort : list string → list string)
    (js_sort_perm : ∀ l, js_sort l ≡ₚ l) (box : Box.t) (v : string) :
  v ∈ rowsForRender js_sort box true
  ↔ if decide (changedOnly box = ∅) then v ∈ allVars js_sort box else v ∈ changedOnly box.
Proof.
  unfold rowsForRender. rewrite list_elem_of_In, filter_In, <- list_elem_of_In.
  rewrite orb_true_iff, !bool_decide_eq_true, size_empty_iff.
  case_decide as He.
  - split; [by intros [? _]|]. intros Hv. split; [done|]. left. by apply leibniz_equiv_iff.
  - split.
    + intros [_ [Hz|?]]; [|done]. destruct He. by apply leibniz_equiv_iff.
    + intros Hv. split; [by apply (changedOnly_allVars js_sort js_sort_perm)|by right].
Qed.

(** X22. The boxes [run] builds from the trace rows: the boxes are in
    strictly increasing order of their lines, the rows of a box are the
    rows of the trace at the line of the box, in the order of the trace,
    no box is empty, and every row of the trace has a box. *)
Theorem boxes_group_rows_by_line (rows : list TraceRow.t) :
  StronglySorted lt (Box.line <$> boxes_of rows)
  ∧ (∀ b, b ∈ boxes_of rows →
          Box.rows b = rows_at (Box.line b) rows ∧ Box.rows b ≠ [])
  ∧ (∀ r, r ∈ rows → ∃ b, b ∈ boxes_of rows ∧ Box.line b = TraceRow.line r).
Proof.
  destruct (grouped_fold_inv rows [] []) as (Hnd & Hrows & Hseen).
  { split; [constructor|]. split; [by intros ? ? ?%elem_of_nil|by intros ? ?%elem_of_nil]. }
  rewrite app_nil_l in *. unfold boxes_of.
  set (g := fold_left grouped_push rows []) in *.
  pose proof (merge_sort_Permutation entry_le g) as Hperm.
  split; [|split].
  - rewrite <- list_fmap_compose.
    assert ((Box.line ∘ (λ e : nat * list TraceRow.t, {| Box.line := e.1; Box.rows := e.2 |}))
            <$> merge_sort entry_le g = (merge_sort entry_le g).*1) as -> by done.
    apply StronglySorted_lt; [by rewrite Hperm|].
    apply (StronglySorted_fmap fst entry_le); [done|].
    apply StronglySorted_merge_sort; [apply entry_le_trans|apply entry_le_total].
  - intros b ([l rs] & -> & Hin)%list_elem_of_fmap. cbn.
    rewrite Hperm in Hin. by apply Hrows.
  - intros r Hr. apply Hseen in Hr as ([l rs] & Hl & Hin)%list_elem_of_fmap.
    cbn in Hl. subst l. exists {| Box.line := TraceRow.line r; Box.rows := rs |}.
    split; [|done]. apply list_elem_of_fmap. exists (TraceRow.line r, rs).
    split; [done|]. by rewrite Hperm.
Qed.

Lemma rendered_names_have_own_shape_witness :
  ∃ n, shapeDomain (merge_sort String.le) sample_box sample_results !! n = Some "a"
       ∧ indexOf (shapeDomain (merge_sort String.le) sample_box sample_results) "a"
         = Z.of_nat n
       ∧ ∃ shape,
           getVariableShape (merge_sort String.le) sample_box sample_results "a"
           = Some shape
           ∧ VARIABLE_SHAPES !! (n `mod` 35) = Some shape.
Proof.
  apply (rendered_names_have_own_shape (merge_sort String.le)
           (merge_sort_Permutation String.le) sample_box sample_results "b" 1 "a").
  right. vm_compute. reflexivity.
Defined.

Lemma shapes_distinct_up_to_35_witness :
  ∃ sx sy,
    getVariableShape (merge_sort String.le) sample_box sample_results "a" = Some sx
    ∧ getVariableShape (merge_sort String.le) sample_box sample_results "b" = Some sy
    ∧ sx ≠ sy.
Proof.
  apply (shapes_distinct_up_to_35 (merge_sort String.le)
           (merge_sort_Permutation String.le) sample_box sample_results "a" "b").
  - vm_compute. lia.
  - vm_compute. apply elem_of_cons. by left.
  - vm_compute. apply elem_of_cons. right. apply elem_of_cons. by left.
  - discriminate.
Defined.

Lemma shapes_repeat_beyond_35_witness :
  "v100" ≠ "v135"
  ∧ getVariableShape (merge_sort String.le) wide_box None "v100"
    = getVariableShape (merge_sort String.le) wide_box None "v135"
  ∧ getVariableShape (merge_sort String.le) wide_box None "w" = Some "●".
Proof.
  apply (shapes_repeat_beyond_35 (merge_sort String.le)
           (merge_sort_Permutation String.le) wide_box None 0 "v100" "v135" "w").
  - vm_compute. reflexivity.
  - vm_compute. reflexivity.
  - apply (bool_decide_unpack _). vm_compute. reflexivity.
Defined.

Lemma row_view_shows_changed_witness :
  "a" ∈ rowsForRender (merge_sort String.le) sample_box true
  ↔ if decide (changedOnly sample_box = ∅)
    then "a" ∈ allVars (merge_sort String.le) sample_box
    else "a" ∈ changedOnly sample_box.
Proof.
  apply (row_view_shows_changed (merge_sort String.le) (merge_sort_Permutation String.le)).
Defined.

Lemma boxes_group_rows_by_line_witness :
  let rows := [ {| TraceRow.line := 2; TraceRow.vars := {["a" := "1"]} |};
                {| TraceRow.line := 1; TraceRow.vars := ∅ |};
                {| TraceRow.line := 2; TraceRow.vars := {["a" := "2"]} |} ] in
  StronglySorted lt (Box.line <$> boxes_of rows)
  ∧ (∀ b, b ∈ boxes_of rows →
          Box.rows b = rows_at (Box.line b) rows ∧ Box.rows b ≠ [])
  ∧ (∀ r, r ∈ rows → ∃ b, b ∈ boxes_of rows ∧ Box.line b = TraceRow.line r).
Proof. apply boxes_group_rows_by_line. Defined.

(** ** The tracing driver *)

Lemma captured_cons item items k s : captured items k s → captured (item :: items) k s.
Proof.
  intros (v & Hin & H). exists v. split; [by apply elem_of_cons; right|done].
Qed.

Lemma capture_items_lookup items d k s :
  driver.capture_items items d !! k = Some s → d !! k = Some s ∨ captured items k s.
Proof.
  revert d. induction items as [|[k0 v0] items IH]; intros d; cbn [driver.capture_items];
    [by left|].
  assert (∀ d', driver.capture_items items d' !! k = Some s →
                d' !! k = Some s ∨ captured ((k0, v0) :: items) k s) as IH'.
  { intros d' [?|?]%IH; [by left|right; by apply captured_cons]. }
  destruct (String.prefix "__" k0 || bool_decide (k0 ∈ driver.skipped_names)) eqn:Hskip;
    [apply IH'|].
  apply orb_false_iff in Hskip as [Hpre _].
  destruct (driver.module_is_builtins v0) as [[|]|e] eqn:Hmod; [apply IH'| |by left].
  destruct (driver.callable v0) eqn:Hcall; [apply IH'|].
  cbv zeta. intros [Hk|Hc]%IH'; [|by right].
  destruct (decide (k0 = k)) as [->|Hne]; [|rewrite lookup_insert_ne in Hk by done; by left].
  rewrite lookup_insert_eq in Hk. right. exists v0.
  split; [apply elem_of_cons; by left|]. split; [done|]. split; [done|]. split; [done|].
  destruct (driver.repr v0) as [s'|e] eqn:Hrepr; [left; congruence|right].
  destruct (driver.str v0) as [s'|e'] eqn:Hstr; [left; exists e; split; congruence|].
  right. exists e, e'. split; [done|]. split; [done|]. congruence.
Qed.

Lemma capture_state_app line_num fr td :
  ∃ new, driver.__capture_state line_num fr td = (td ++ new)%list
         ∧ driver.__capture_state line_num fr [] = new
         ∧ ∀ row, row ∈ new →
             TraceRow.line row = line_num ∧ TraceRow.vars row ≠ ∅
             ∧ ∀ k s, TraceRow.vars row !! k = Some s →
                  ∃ items, driver.f_locals fr = Ok items ∧ captured items k s.
Proof.
  unfold driver.__capture_state. cbv zeta. case_bool_decide as Hd.
  - eexists. split; [done|]. split; [done|].
    intros row ->%list_elem_of_singleton. cbn. split; [done|]. split; [done|].
    intros k s Hk. destruct (driver.f_locals fr) as [items|e]; [|by rewrite lookup_empty in Hk].
    exists items. split; [done|].
    apply capture_items_lookup in Hk as [Hk|?]; [by rewrite lookup_empty in Hk|done].
  - exists []. split; [by rewrite app_nil_r|]. split; [done|]. by intros row ?%elem_of_nil.
Qed.

Lemma tracer_app fr event td :
  driver.__tracer fr event td = (td ++ driver.__tracer fr event [])%list.
Proof.
  unfold driver.__tracer. repeat case_match; try by rewrite app_nil_r.
  destruct (capture_state_app (driver.f_lineno fr) fr td) as (new & -> & -> & _). done.
Qed.

Lemma fold_tracer_app evs td :
  fold_left (λ td e, driver.__tracer e.1 e.2 td) evs td = (td ++ driver.traced evs)%list.
Proof.
  unfold driver.traced. revert td. induction evs as [|[fr ev] evs IH]; intros td.
  - by rewrite app_nil_r.
  - cbn [fold_left fst snd]. rewrite IH, (IH (driver.__tracer fr ev [])), app_assoc.
    by rewrite <- tracer_app.
Qed.

Lemma traced_cons fr ev evs :
  driver.traced ((fr, ev) :: evs) = (driver.__tracer fr ev [] ++ driver.traced evs)%list.
Proof. unfold driver.traced at 1. cbn [fold_left fst snd]. apply fold_tracer_app. Qed.

(** ** The tracing driver *)

(** X23. Every row the trace function records comes from a line event of a
    frame of the user's code (file [<user>] or [<string>]), carries the
    line of that event and at least one variable, and each of its
    variables is a name bound in that frame that does not start with two
    underscores, to a value that is not callable and not of the
    [builtins] module; the string is its [repr], its [str] when [repr]
    raises, or [<unrepr>] when both raise. *)
Theorem traced_rows_are_user_variables (evs : list (driver.frame * string))
    (row : TraceRow.t) :
  row ∈ driver.traced evs →
  ∃ fr, user_line_event evs fr
        ∧ TraceRow.line row = driver.f_lineno fr ∧ TraceRow.vars row ≠ ∅
        ∧ ∀ k s, TraceRow.vars row !! k = Some s →
             ∃ items, driver.f_locals fr = Ok items ∧ captured items k s.
Proof.
  induction evs as [|[fr ev] evs IH]; [by intros ?%elem_of_nil|].
  rewrite traced_cons. intros [Hrow|Hrow]%elem_of_app.
  - unfold driver.__tracer in Hrow.
    case_bool_decide as Hev; [|by apply elem_of_nil in Hrow]. subst ev.
    destruct (bool_decide (driver.co_filename fr = "<user>")
              || bool_decide (driver.co_filename fr = "<string>")) eqn:Hfile;
      [|by apply elem_of_nil in Hrow].
    destruct (capture_state_app (driver.f_lineno fr) fr []) as (new & _ & Hnew & Hrows).
    rewrite Hnew in Hrow. destruct (Hrows row Hrow) as (Hl & Hv & Hk).
    exists fr. split; [|done]. split; [apply elem_of_cons; by left|].
    apply orb_true_iff in Hfile as [?%bool_decide_eq_true|?%bool_decide_eq_true]; eauto.
  - destruct (IH Hrow) as (fr' & [Hin Hfile] & H). exists fr'. split; [|done].
    split; [apply elem_of_cons; by right|done].
Qed.

Lemma traced_rows_are_user_variables_witness :
  ∃ fr, user_line_event [(sample_user_frame, "call"); (sample_user_frame, "line")] fr
        ∧ TraceRow.line {| TraceRow.line := 2; TraceRow.vars := {["x" := "1"]} |}
          = driver.f_lineno fr
        ∧ TraceRow.vars {| TraceRow.line := 2; TraceRow.vars := {["x" := "1"]} |} ≠ ∅
        ∧ ∀ k s, TraceRow.vars {| TraceRow.line := 2; TraceRow.vars := {["x" := "1"]} |}
                   !! k = Some s →
             ∃ items, driver.f_locals fr = Ok items ∧ captured items k s.
Proof.
  apply traced_rows_are_user_variables.
  vm_compute. apply elem_of_cons. left. reflexivity.
Defined.



